(** * Vaga Certa: validation, compatibility scoring and generation-output parsing

    A shallow embedding of
    - [backend/utils/validation.py]      (module [Validation]),
    - [backend/utils/compatibility.py]   (module [Compatibility]),
    - [GenerationAgent._parse_generated_content] (module [GenerationAgent]),
    - [GenerationAgent.generate_career_materials] and [get_prompt_variables]
      (module [Generation]),
    - [backend/config.py]                (module [Config]),
    - [backend/services/web_scraper.py]  (module [WebScraper]),
    - [backend/agents/extraction_agent.py] (module [ExtractionAgent]),
    - the endpoints [/extract-job-details] and [/generate-complete] of
      [backend/api/main.py]              (module [Api]),
    together with the Python primitives they call (module [Py]).

    Modelling conventions.
    - A Python [str] is a [string]; each [ascii] stands for the Unicode code
      point of the same number (0..255, the Latin-1 range), so [String.length]
      is Python's [len].  [str.lower], [str.isspace] (hence [strip], [split],
      the regex class [\s]) and NFKD normalisation followed by
      [encode("ascii", "ignore")] are written out for that range.  Literals of
      the source with accented letters are spelled with three-digit character
      codes.  Code points from 256 on are outside the model; of the source's
      literals only the bullet U+2022 in the list-markup pattern and the
      symbols in front of four reason strings are concerned.
    - A Python [int] is a [Z] (scores) or a [nat] (lengths and counts).
    - A Python [float] arises only as a quotient [m / n] of two counts, its
      product by 40, and its comparison with 0.5 and 0.3; it is a [Q].
      [round] is round-half-to-even.  In the scorer [n <= 30]: the value to
      round is exactly half-way between two results only for [n = 16], where
      [m / 16] and [40 m / 16] are exact doubles, and is otherwise further
      than [1 / 60000] from a half-way point, so the double and the rational
      round alike.
    - A Python [set] is a [gset string]; a [Counter] is an association list in
      insertion order, since [most_common] breaks ties by that order.
    - The reason strings of [ValidationResult] are f-string templates; each
      template is a constructor of [reason] carrying the interpolated values.
      The messages of the [ValueError]s of scraper and agents are modelled
      the same way, and an [HTTPException] by its status.
    - What lies outside the program is a parameter: [urlparse], the HTTP
      client, the BeautifulSoup queries, [json.loads] and the answers of the
      language model.  A call that may raise returns an [option] or a sum;
      a [try] block is the case analysis on it. *)

From Stdlib Require Import ZArith QArith Ascii String List Lia Sorted Permutation.
From stdpp Require Import base decidable list gmap strings sorting.

Local Open Scope string_scope.
Local Open Scope list_scope.

(** ** Python string primitives *)

Module Py.

Definition code (c : ascii) : nat := nat_of_ascii c.

(** [str.isspace] of a single code point below 256; also the regex [\s]. *)
Definition is_space (c : ascii) : bool :=
  let n := code c in
  (((9 <=? n) && (n <=? 13)) || ((28 <=? n) && (n <=? 32))
   || (n =? 133) || (n =? 160))%nat.

(** Decimal digits, the regex [\d] below 256. *)
Definition is_digit (c : ascii) : bool :=
  let n := code c in ((48 <=? n) && (n <=? 57))%nat.

(** [str.lower] of a single code point below 256. *)
Definition lower_char (c : ascii) : ascii :=
  let n := code c in
  if (((65 <=? n) && (n <=? 90))
      || ((192 <=? n) && (n <=? 222) && negb (n =? 215)))%nat
  then ascii_of_nat (n + 32) else c.

Fixpoint lower (s : string) : string :=
  match s with
  | EmptyString => EmptyString
  | String c s' => String (lower_char c) (lower s')
  end.

Fixpoint lstrip (s : string) : string :=
  match s with
  | EmptyString => EmptyString
  | String c s' => if is_space c then lstrip s' else s
  end.

Fixpoint rstrip (s : string) : string :=
  match s with
  | EmptyString => EmptyString
  | String c s' =>
      match rstrip s' with
      | EmptyString => if is_space c then EmptyString else String c EmptyString
      | r => String c r
      end
  end.

(** [s.strip()] *)
Definition strip (s : string) : string := rstrip (lstrip s).

(** [s.split()]: the maximal runs of non-whitespace characters.  [w] is the
    run being read. *)
Fixpoint split_from (w : string) (s : string) : list string :=
  match s with
  | EmptyString => match w with EmptyString => [] | _ => [w] end
  | String c s' =>
      if is_space c
      then match w with
           | EmptyString => split_from EmptyString s'
           | _ => w :: split_from EmptyString s'
           end
      else split_from (w +:+ String c EmptyString) s'
  end.

Definition split (s : string) : list string := split_from EmptyString s.

(** [s.startswith(p)] *)
Fixpoint startswith (p s : string) : bool :=
  match p, s with
  | EmptyString, _ => true
  | String a p', String b s' => if Ascii.eqb a b then startswith p' s' else false
  | String _ _, EmptyString => false
  end.

(** [s.find(sub)]: the lowest index where [sub] occurs, [None] for -1. *)
Fixpoint find (sub s : string) : option nat :=
  if startswith sub s then Some 0
  else match s with
       | EmptyString => None
       | String _ s' => option_map S (find sub s')
       end.

(** [sub in s] *)
Definition contains (sub s : string) : bool :=
  match find sub s with Some _ => true | None => false end.

(** [s[n:]] *)
Fixpoint slice_from (n : nat) (s : string) : string :=
  match n, s with
  | O, _ => s
  | S n', String _ s' => slice_from n' s'
  | S _, EmptyString => EmptyString
  end.

(** [s[:n]] *)
Fixpoint slice_to (n : nat) (s : string) : string :=
  match n, s with
  | S n', String c s' => String c (slice_to n' s')
  | _, _ => EmptyString
  end.

(** [s.find(sub, start)] *)
Definition find_from (sub s : string) (start : nat) : option nat :=
  if (String.length s <? start)%nat then None
  else option_map (Nat.add start) (find sub (slice_from start s)).

(** [s[i:j]] for indices [0 <= i], [0 <= j]. *)
Definition slice (i j : nat) (s : string) : string := slice_to (j - i) (slice_from i s).

End Py.

(** ** [backend/utils/validation.py] *)

Module Validation.
Import Py.
Local Open Scope Z_scope.

(** [re.sub] of the pattern [[^a-z0-9]+] by the empty string in
    [value.lower()]: every character outside [a-z0-9] of the lower-cased value
    is deleted. *)
Definition is_az09 (c : ascii) : bool :=
  let n := code c in
  (((97 <=? n) && (n <=? 122)) || ((48 <=? n) && (n <=? 57)))%nat.

Fixpoint keep (f : ascii -> bool) (s : string) : string :=
  match s with
  | EmptyString => EmptyString
  | String c s' => if f c then String c (keep f s') else keep f s'
  end.

Definition _normalize_generic_term (value : string) : string :=
  keep is_az09 (lower value).

(** The reason templates, in the order in which the source mentions them. *)
Inductive reason : Type :=
| ConteudoVazio                                  (* "Conteúdo vazio" *)
| ConteudoMuitoCurto (length : nat)              (* "Conteúdo muito curto ({length} chars, mínimo 500)" *)
| TamanhoAceitavel                               (* "Tamanho aceitável mas curto" *)
| TamanhoAdequado                                (* "Tamanho adequado" *)
| TamanhoExcelente                               (* "Tamanho excelente" *)
| PalavrasCriticas (found total : nat) (pts : Z) (* "{found}/{total} palavras-chave críticas encontradas ({pts} pts)" *)
| PalavrasContexto (found total : nat) (pts : Z) (* "{found}/{total} palavras de contexto encontradas ({pts} pts)" *)
| BoaDiversidade (ratio : Q)                     (* "Boa diversidade lexical ({ratio*100:.1f}%)" *)
| DiversidadeModerada (ratio : Q)                (* "Diversidade lexical moderada ({ratio*100:.1f}%)" *)
| BaixaDiversidade (ratio : Q)                   (* "Baixa diversidade lexical ({ratio*100:.1f}%) - possível texto repetitivo" *)
| IndicadoresDeErro                              (* "Detectados indicadores de erro na página" *)
| NenhumIndicadorDeErro                          (* "Nenhum indicador de erro detectado" *)
| EstruturaDeLista                               (* "Estrutura de lista detectada (típico de vagas)" *)
| TituloAusente                                  (* "Título da vaga ausente" *)
| TituloGenerico (job_title : string)            (* 'Título genérico/inválido: "{job_title}"' *)
| TituloMuitoCurto (job_title : string)          (* 'Título muito curto: "{job_title}"' *)
| TituloMuitoLongo (job_title : string)          (* 'Título muito longo: "{job_title}"' *)
| TituloValido                                   (* "Título válido" *)
| EmpresaAusente                                 (* "Nome da empresa ausente" *)
| EmpresaGenerica (company : string)             (* 'Empresa genérica/inválida: "{company}"' *)
| EmpresaMuitoCurta (company : string)           (* 'Nome da empresa muito curto: "{company}"' *)
| EmpresaMuitoLonga (company : string)           (* 'Nome da empresa muito longo: "{company}"' *)
| EmpresaValida.                                 (* "Empresa válida" *)

Record ValidationResult : Type := mkValidationResult
  { is_valid : bool;
    score : Z;
    reasons : list reason }.

(** The running pair [(score, reasons)] of the validators. *)
Definition acc : Type := (Z * list reason)%type.

Definition critical_keywords : list string :=
  [ "responsibilities"; "requirements"; "qualifications"; "experience";
    "responsabilidades"; "requisitos";
    "qualifica" +:+ String "231" (String "245" "es");   (* qualificações *)
    "experi" +:+ String "234" "ncia" ].                 (* experiência *)

Definition context_keywords : list string :=
  [ "apply"; "application"; "candidate"; "candidatar"; "aplicar";
    "join"; "team"; "position"; "role"; "vaga"; "cargo"; "equipe" ].

Definition error_indicators : list string :=
  [ "page not found"; "404"; "error"; "not available";
    "p" +:+ String "225" "gina n" +:+ String "227" "o encontrada";  (* página não encontrada *)
    "erro";
    "indispon" +:+ String "237" "vel";                             (* indisponível *)
    "access denied" ].

(** [sum(1 for kw in keywords if kw in content_lower)] *)
Definition found (keywords : list string) (content_lower : string) : nat :=
  length (filter (fun kw => Is_true (contains kw content_lower)) keywords).

Definition critical_score (content_lower : string) : Z :=
  Z.min 20 (Z.of_nat (found critical_keywords content_lower) * 5).

Definition context_score (content_lower : string) : Z :=
  Z.min 20 (Z.of_nat (found context_keywords content_lower) * 2).

(** Layer 1: the length band of the stripped content. *)
Definition structural_layer (length : nat) (a : acc) : acc :=
  let '(score, reasons) := a in
  if (length <? 500)%nat then (score, reasons ++ [ConteudoMuitoCurto length])
  else if (length <? 1000)%nat then (score + 10, reasons ++ [TamanhoAceitavel])
  else if (length <? 3000)%nat then (score + 20, reasons ++ [TamanhoAdequado])
  else (score + 30, reasons ++ [TamanhoExcelente]).

(** Layer 2: critical and context keywords. *)
Definition semantic_layer (content_lower : string) (a : acc) : acc :=
  let '(score, reasons) := a in
  let found_critical := found critical_keywords content_lower in
  let score := score + critical_score content_lower in
  let reasons := reasons ++ [PalavrasCriticas found_critical (length critical_keywords)
                                              (critical_score content_lower)] in
  let found_context := found context_keywords content_lower in
  let score := score + context_score content_lower in
  let reasons := reasons ++ [PalavrasContexto found_context (length context_keywords)
                                              (context_score content_lower)] in
  (score, reasons).

(** [[w for w in content.split() if len(w) > 3]] *)
Definition words (content : string) : list string :=
  filter (fun w => (3 < String.length w)%nat) (split content).

(** [set(w.lower() for w in words)] *)
Definition unique_words (content : string) : gset string :=
  list_to_set (lower <$> words content).

(** [x > y] on the quotients that stand for floats. *)
Definition Qgtb (x y : Q) : bool := negb (Qle_bool x y).

(** Layer 3, first half: lexical diversity. Nothing happens when no word is
    longer than three characters. *)
Definition diversity_layer (content : string) (a : acc) : acc :=
  let '(score, reasons) := a in
  match words content with
  | [] => (score, reasons)
  | _ :: _ =>
      let diversity_ratio : Q :=
        (Z.of_nat (size (unique_words content))
         # Pos.of_nat (length (words content)))%Q in
      if Qgtb diversity_ratio (1 # 2)%Q then
        (score + 15, reasons ++ [BoaDiversidade diversity_ratio])
      else if Qgtb diversity_ratio (3 # 10)%Q then
        (score + 8, reasons ++ [DiversidadeModerada diversity_ratio])
      else (score, reasons ++ [BaixaDiversidade diversity_ratio])
  end.

(** [any(indicator in content_lower for indicator in error_indicators)] *)
Definition has_errors (content_lower : string) : bool :=
  existsb (fun indicator => contains indicator content_lower) error_indicators.

(** Layer 3, second half: error-page indicators. *)
Definition error_layer (content_lower : string) (a : acc) : acc :=
  let '(score, reasons) := a in
  if has_errors content_lower
  then (Z.max 0 (score - 30), reasons ++ [IndicadoresDeErro])
  else (score + 15, reasons ++ [NenhumIndicadorDeErro]).

(** [re.search(r"[-•*]\s|^\d+\.\s", content, re.MULTILINE)].  The bullet
    U+2022 of the character class lies outside the modelled range. *)
Definition is_bullet (c : ascii) : bool :=
  (Ascii.eqb c "-" || Ascii.eqb c "*")%char.

Definition next_is_space (s : string) : bool :=
  match s with
  | String c _ => is_space c
  | EmptyString => false
  end.

Fixpoint skip_digits (s : string) : string :=
  match s with
  | String c s' => if is_digit c then skip_digits s' else s
  | EmptyString => EmptyString
  end.

(** [\d+\.\s] matched at the head of [s]. *)
Definition numbered_item (s : string) : bool :=
  match s with
  | String c s' =>
      is_digit c &&
      match skip_digits s' with
      | String d r => Ascii.eqb d "." && next_is_space r
      | EmptyString => false
      end
  | EmptyString => false
  end.

(** [bol]: the position is the start of the text or follows a newline. *)
Fixpoint search_list (bol : bool) (s : string) : bool :=
  match s with
  | EmptyString => false
  | String c s' =>
      (is_bullet c && next_is_space s')
      || (bol && numbered_item s)
      || search_list (Ascii.eqb c "010") s'
  end.

Definition has_list_structure (content : string) : bool :=
  search_list true content.

Definition list_layer (content : string) (a : acc) : acc :=
  let '(score, reasons) := a in
  if has_list_structure content
  then (Z.min 100 (score + 5), reasons ++ [EstruturaDeLista])
  else (score, reasons).

Definition validate_and_score_job_content (content : string) : ValidationResult :=
  let reasons : list reason := [] in
  let score : Z := 0 in
  if String.eqb content EmptyString || (String.length (strip content) =? 0)%nat then
    mkValidationResult false 0 [ConteudoVazio]
  else
    let length := String.length (strip content) in
    let a := structural_layer length (score, reasons) in
    let content_lower := lower content in
    let a := semantic_layer content_lower a in
    let a := diversity_layer content a in
    let a := error_layer content_lower a in
    let '(score, reasons) := list_layer content a in
    let is_valid := 30 <=? score in
    mkValidationResult is_valid score reasons.

Definition generic_terms : list string :=
  [ "not found"; "n/a"; "na"; "unknown"; "tbd"; "to be determined";
    "n" +:+ String "227" "o encontrado";   (* não encontrado *)
    "desconhecido"; "error"; "none"; "null"; "company" ].

Definition normalized_generics : gset string :=
  list_to_set (_normalize_generic_term <$> generic_terms).

(** The arguments are annotated [str], and the callers pass stripped
    strings; on a [str] the source's default of a missing argument to the
    empty string leaves the argument as it is. *)
Definition validate_and_score_job_details (job_title company : string)
  : ValidationResult :=
  let reasons : list reason := [] in
  let score : Z := 0 in
  let title_lower := strip (lower job_title) in
  let company_lower := strip (lower company) in
  let title_normalized := _normalize_generic_term job_title in
  let company_normalized := _normalize_generic_term company in
  if String.eqb job_title EmptyString || (String.length title_lower =? 0)%nat then
    mkValidationResult false 0 [TituloAusente]
  else if bool_decide (title_normalized ∈ normalized_generics) then
    mkValidationResult false 0 [TituloGenerico job_title]
  else
    let '(score, reasons) :=
      if (String.length title_lower <? 5)%nat
      then (score, reasons ++ [TituloMuitoCurto job_title])
      else if (100 <? String.length title_lower)%nat
      then (score, reasons ++ [TituloMuitoLongo job_title])
      else (score + 50, reasons ++ [TituloValido]) in
    if String.eqb company EmptyString || (String.length company_lower =? 0)%nat then
      mkValidationResult false 0 [EmpresaAusente]
    else if bool_decide (company_normalized ∈ normalized_generics) then
      mkValidationResult false 0 [EmpresaGenerica company]
    else
      let '(score, reasons) :=
        if (String.length company_lower <? 2)%nat
        then (score, reasons ++ [EmpresaMuitoCurta company])
        else if (100 <? String.length company_lower)%nat
        then (score, reasons ++ [EmpresaMuitoLonga company])
        else (score + 50, reasons ++ [EmpresaValida]) in
      let is_valid := 90 <=? score in
      mkValidationResult is_valid score reasons.

End Validation.

(** ** [backend/utils/compatibility.py] *)

Module Compatibility.
Import Py.
Local Open Scope Z_scope.

Definition _STOPWORDS : gset string :=
  list_to_set
    [ "para"; "com"; "that"; "with"; "from"; "sobre"; "onde"; "quando";
      "como"; "have"; "this"; "your"; "will"; "de"; "das"; "dos"; "the";
      "and"; "por"; "uma"; "mais"; "than"; "then"; "elas"; "eles";
      "possui"; "possuir"; "atividades"; "responsabilidades";
      "requirements"; "requisitos"; "qualificacoes" ].

Definition between (lo n hi : nat) : bool := ((lo <=? n) && (n <=? hi))%nat.

(** What [unicodedata.normalize("NFKD", c).encode("ascii", "ignore")] leaves
    of one code point below 256: an ASCII character is kept, a letter with a
    diacritic loses it, a compatibility character becomes its ASCII
    expansion, and everything else is dropped. *)
Definition nfkd_ascii (c : ascii) : string :=
  let n := code c in
  if (n <? 128)%nat then String c EmptyString
  else if ((n =? 160) || (n =? 168) || (n =? 175) || (n =? 180) || (n =? 184))%nat
  then " "
  else if (n =? 170)%nat then "a"
  else if (n =? 178)%nat then "2"
  else if (n =? 179)%nat then "3"
  else if (n =? 185)%nat then "1"
  else if (n =? 186)%nat then "o"
  else if (n =? 188)%nat then "14"
  else if (n =? 189)%nat then "12"
  else if (n =? 190)%nat then "34"
  else if between 192 n 197 then "A"
  else if (n =? 199)%nat then "C"
  else if between 200 n 203 then "E"
  else if between 204 n 207 then "I"
  else if (n =? 209)%nat then "N"
  else if between 210 n 214 then "O"
  else if between 217 n 220 then "U"
  else if (n =? 221)%nat then "Y"
  else if between 224 n 229 then "a"
  else if (n =? 231)%nat then "c"
  else if between 232 n 235 then "e"
  else if between 236 n 239 then "i"
  else if (n =? 241)%nat then "n"
  else if between 242 n 246 then "o"
  else if between 249 n 252 then "u"
  else if ((n =? 253) || (n =? 255))%nat then "y"
  else EmptyString.

Fixpoint _normalize_text (value : string) : string :=
  match value with
  | EmptyString => EmptyString
  | String c s' => nfkd_ascii c +:+ _normalize_text s'
  end.

(** The class [[a-z0-9\+#\.]]. *)
Definition is_token_char (c : ascii) : bool :=
  let n := code c in
  (between 97 n 122 || between 48 n 57
   || (n =? 43) || (n =? 35) || (n =? 46))%nat.

(** [re.findall(r"[a-z0-9\+#\.]{3,}", s)]: the maximal runs of token
    characters that are at least three long.  [w] is the run being read. *)
Fixpoint findall_from (w : string) (s : string) : list string :=
  match s with
  | EmptyString => if (3 <=? String.length w)%nat then [w] else []
  | String c s' =>
      if is_token_char c then findall_from (w +:+ String c EmptyString) s'
      else if (3 <=? String.length w)%nat
           then w :: findall_from EmptyString s'
           else findall_from EmptyString s'
  end.

Definition _extract_tokens (value : string) : list string :=
  let normalized := lower (_normalize_text value) in
  let tokens := findall_from EmptyString normalized in
  filter (fun token => token ∉ _STOPWORDS) tokens.

(** A [collections.Counter]: keys in order of first insertion. *)
Definition counter : Type := list (string * nat).

Fixpoint counter_incr (k : string) (c : counter) : counter :=
  match c with
  | [] => [(k, 1%nat)]
  | (k', n) :: c' =>
      if String.eqb k k' then (k', S n) :: c' else (k', n) :: counter_incr k c'
  end.

(** [Counter(tokens)] *)
Definition Counter (tokens : list string) : counter :=
  fold_left (fun c k => counter_incr k c) tokens [].

(** [list(dict.fromkeys(tokens))] *)
Definition fromkeys (tokens : list string) : list string :=
  fold_left (fun ks k => if bool_decide (k ∈ ks) then ks else ks ++ [k]) tokens [].

(** [sorted(items, key=itemgetter(1), reverse=True)]: a stable sort, an item
    goes in front of the first item of the sorted tail whose count is not
    greater than its own. *)
Fixpoint insert_desc (x : string * nat) (l : counter) : counter :=
  match l with
  | [] => [x]
  | y :: l' => if (snd y <=? snd x)%nat then x :: l else y :: insert_desc x l'
  end.

Fixpoint sorted_desc (l : counter) : counter :=
  match l with
  | [] => []
  | x :: l' => insert_desc x (sorted_desc l')
  end.

(** [c.most_common(n)]; [heapq.nlargest(n, items, key)] is
    [sorted(items, key=key, reverse=True)[:n]]. *)
Definition most_common (n : option nat) (c : counter) : counter :=
  match n with
  | None => sorted_desc c
  | Some n => take n (sorted_desc c)
  end.

(** [sum(c.values())] *)
Definition total (c : counter) : nat := sum_list (snd <$> c).

Definition _extract_keywords (value : string) : counter * list string :=
  let tokens := _extract_tokens value in
  (Counter tokens, fromkeys tokens).

Record CompatibilityInsights : Type := mkCompatibilityInsights
  { score : Z;
    label : string;
    strengths : list string;
    gaps : list string;
    coverage_ratio : Q }.

(** [round(x)], to the nearest integer, a tie to the even one. *)
Definition round (x : Q) : Z :=
  let n := Qnum x in
  let d := Zpos (Qden x) in
  let q := n / d in
  let r := n mod d in
  if 2 * r <? d then q
  else if d <? 2 * r then q + 1
  else if Z.even q then q else q + 1.

(** [round(x, ndigits)] *)
Definition round_ndigits (x : Q) (ndigits : nat) : Q :=
  (round (x * inject_Z (10 ^ Z.of_nat ndigits))
   # Pos.pow 10 (Pos.of_nat ndigits))%Q.

Definition calculate_compatibility (cv job_description : string)
  : CompatibilityInsights :=
  let '(job_counter, job_tokens) := _extract_keywords job_description in
  let '(cv_counter, cv_tokens) := _extract_keywords cv in
  match job_counter with
  | [] =>
      mkCompatibilityInsights 50 "Dados insuficientes" [] [] 0%Q
  | _ :: _ =>
      let ranked_job_keywords := fst <$> most_common (Some 30%nat) job_counter in
      let job_keywords : gset string := list_to_set ranked_job_keywords in
      let cv_keywords : gset string := list_to_set cv_tokens in
      if (size job_keywords <? 5)%nat || (total job_counter <? 10)%nat then
        mkCompatibilityInsights 50 "Dados insuficientes" []
          (take 5 ranked_job_keywords) 0%Q
      else
        let matched := job_keywords ∩ cv_keywords in
        let missing := job_keywords ∖ cv_keywords in
        let coverage_ratio : Q :=
          (Z.of_nat (size matched)
           # Pos.of_nat (Nat.max 1 (size job_keywords)))%Q in
        let match_points := Z.min 60 (Z.of_nat (size matched) * 12) in
        let coverage_points := Z.min 40 (round (coverage_ratio * 40)) in
        let score := Z.max 5 (match_points + coverage_points) in
        let label :=
          if 75 <=? score then "Alta compatibilidade"
          else if 45 <=? score then "Compatibilidade moderada"
          else "Compatibilidade baixa" in
        let strengths :=
          take 5 (filter (fun kw => kw ∈ matched)
                         (fst <$> most_common None job_counter)) in
        let gaps :=
          take 5 (filter (fun kw => kw ∈ missing)
                         (fst <$> most_common None job_counter)) in
        mkCompatibilityInsights score label strengths gaps
          (round_ndigits coverage_ratio 3)
  end.

End Compatibility.

(** ** [GenerationAgent._parse_generated_content] *)

Module GenerationAgent.
Import Py.

(** The [sections] dict, in insertion order. *)
Definition sections : list (string * string) :=
  [ ("optimizedCv", "### OPTIMIZED CV ###");
    ("coverLetter", "### COVER LETTER ###");
    ("networkingMessage", "### NETWORKING MESSAGE ###");
    ("interviewTips", "### INTERVIEW TIPS ###") ].

(** [f"Erro: Seção {start_marker} não encontrada"] *)
Definition missing_section (start_marker : string) : string :=
  "Erro: Se" +:+ String "231" (String "227" "o ") +:+ start_marker
  +:+ " n" +:+ String "227" "o encontrada".

(** One turn of the loop for [key]; [end_marker] is the marker of the next
    key, [None] after the last one. *)
Definition parse_section (remaining_text start_marker : string)
    (end_marker : option string) : string :=
  match find start_marker remaining_text with
  | None => missing_section start_marker
  | Some start_index =>
      let end_index :=
        match end_marker with
        | Some m =>
            match find_from m remaining_text start_index with
            | Some i => i
            | None => String.length remaining_text
            end
        | None => String.length remaining_text
        end in
      strip (slice (start_index + String.length start_marker) end_index
                   remaining_text)
  end.

(** The [for i, key in enumerate(keys)] loop over the keys still to do. *)
Fixpoint parse_loop (remaining_text : string) (keys : list (string * string))
    (parsed_content : gmap string string) : gmap string string :=
  match keys with
  | [] => parsed_content
  | (key, start_marker) :: rest =>
      let end_marker :=
        match rest with
        | (_, m) :: _ => Some m
        | [] => None
        end in
      parse_loop remaining_text rest
        (<[key := parse_section remaining_text start_marker end_marker]>
           parsed_content)
  end.

Definition _parse_generated_content (response_text : string)
  : gmap string string :=
  let parsed_content : gmap string string := ∅ in
  let remaining_text := response_text in
  parse_loop remaining_text sections parsed_content.

End GenerationAgent.

(** ** Vocabulary of the statements *)

Module Terms.
Import Py Validation.
Local Open Scope Z_scope.

(** A text made of whitespace only (the empty text included). *)
Fixpoint blank (s : string) : bool :=
  match s with
  | EmptyString => true
  | String c s' => is_space c && blank s'
  end.

(** [sub] occurs in [s]. *)
Definition occurs (sub s : string) : Prop :=
  exists pre post, s = pre +:+ sub +:+ post.

(** [n] copies of the character [c]. *)
Definition rep (n : nat) (c : ascii) : string :=
  Nat.iter n (String c) EmptyString.

(** The points of the four length bands. *)
Definition length_band (n : nat) : Z :=
  if (n <? 500)%nat then 0
  else if (n <? 1000)%nat then 10
  else if (n <? 3000)%nat then 20
  else 30.

(** What layer 1 adds to the score of [content]. *)
Definition structural_points (content : string) : Z :=
  fst (structural_layer (String.length (strip content)) (0, [])).

(** What layer 2 adds to the score of [content]. *)
Definition semantic_points (content : string) : Z :=
  fst (semantic_layer (lower content) (0, [])).

(** The running pair before the error-indicator scan. *)
Definition before_error_scan (content : string) : acc :=
  diversity_layer content
    (semantic_layer (lower content)
       (structural_layer (String.length (strip content)) (0, []))).

(** What the lexical-diversity step adds to the score of [content]. *)
Definition diversity_points (content : string) : Z :=
  fst (diversity_layer content (0, [])).

(** A text of 500 characters whose last one is a line feed. *)
Definition padded_500 : string := rep 499 "a" +:+ String "010" EmptyString.

(** The decision a reason reports. *)
Inductive decision : Type :=
| Rejection | LengthBand | CriticalCount | ContextCount
| LexicalDiversity | ErrorScan | ListStructure | TitleCheck | CompanyCheck.

Definition decision_of (r : reason) : decision :=
  match r with
  | ConteudoVazio => Rejection
  | ConteudoMuitoCurto _ | TamanhoAceitavel | TamanhoAdequado
  | TamanhoExcelente => LengthBand
  | PalavrasCriticas _ _ _ => CriticalCount
  | PalavrasContexto _ _ _ => ContextCount
  | BoaDiversidade _ | DiversidadeModerada _ | BaixaDiversidade _ => LexicalDiversity
  | IndicadoresDeErro | NenhumIndicadorDeErro => ErrorScan
  | EstruturaDeLista => ListStructure
  | TituloAusente | TituloGenerico _ | TituloMuitoCurto _
  | TituloMuitoLongo _ | TituloValido => TitleCheck
  | EmpresaAusente | EmpresaGenerica _ | EmpresaMuitoCurta _
  | EmpresaMuitoLonga _ | EmpresaValida => CompanyCheck
  end.

Global Instance decision_eq_dec : EqDecision decision.
Proof. solve_decision. Defined.

(** The length bands of the details validator, on the lower-cased and
    stripped field. *)
Definition title_in_band (job_title : string) : Prop :=
  (5 <= String.length (strip (lower job_title)) <= 100)%nat.

Definition company_in_band (company : string) : Prop :=
  (2 <= String.length (strip (lower company)) <= 100)%nat.

(** The normalised field equals the normalised form of a blacklist entry. *)
Definition generic (field : string) : Prop :=
  exists term, term ∈ generic_terms
               /\ _normalize_generic_term field = _normalize_generic_term term.

(** The points of one field: 50 inside the band, nothing outside. *)
Definition band_points (lo : nat) (field : string) : Z :=
  if (String.length (strip (lower field)) <? lo)%nat then 0
  else if (100 <? String.length (strip (lower field)))%nat then 0
  else 50.

(** The reason of the length check of each field. *)
Definition title_band_reason (job_title : string) : reason :=
  if (String.length (strip (lower job_title)) <? 5)%nat
  then TituloMuitoCurto job_title
  else if (100 <? String.length (strip (lower job_title)))%nat
  then TituloMuitoLongo job_title
  else TituloValido.

Definition company_band_reason (company : string) : reason :=
  if (String.length (strip (lower company)) <? 2)%nat
  then EmpresaMuitoCurta company
  else if (100 <? String.length (strip (lower company)))%nat
  then EmpresaMuitoLonga company
  else EmpresaValida.

End Terms.

Module CompatTerms.
Import Py Compatibility.
Local Open Scope Z_scope.

(** [c[k]]: the count of [k], 0 for a key that is not there. *)
Fixpoint counter_get (c : counter) (k : string) : nat :=
  match c with
  | [] => 0%nat
  | (k', n) :: c' => if String.eqb k k' then n else counter_get c' k
  end.

(** The number of occurrences of the keyword [k] in a posting. *)
Definition freq (job_description : string) (k : string) : nat :=
  count_occ string_dec (_extract_tokens job_description) k.

(** The distinct keywords of a posting, the most frequent first, the earlier
    first among equally frequent ones. *)
Definition ranked (job_description : string) : list string :=
  fst <$> most_common None (Counter (_extract_tokens job_description)).

(** The 30 most frequent keywords of a posting, as a list and as a set. *)
Definition top30 (job_description : string) : list string :=
  take 30 (ranked job_description).

Definition top30_set (job_description : string) : gset string :=
  list_to_set (top30 job_description).

(** The keywords of a resume. *)
Definition resume_set (cv : string) : gset string :=
  list_to_set (_extract_tokens cv).

(** [a] is at least as frequent as [b] in the posting. *)
Definition freq_desc (job_description : string) (a b : string) : Prop :=
  (freq job_description b <= freq job_description a)%nat.

(** The posting is too sparse to be scored. *)
Definition sparse (job_description : string) : Prop :=
  _extract_tokens job_description = []
  \/ (size (top30_set job_description) < 5)%nat
  \/ (length (_extract_tokens job_description) < 10)%nat.

Definition insufficient_data (gaps : list string) : CompatibilityInsights :=
  mkCompatibilityInsights 50 "Dados insuficientes" [] gaps 0%Q.

(** The float quotient [m / n] of two counts. *)
Definition ratio (m n : nat) : Q := (Z.of_nat m # Pos.of_nat n)%Q.

(** Rounding the coverage ratio to three decimals before or after taking the
    coverage points makes no difference for [m <= n <= bound]. *)
Definition rounding_agrees_upto (bound : nat) : bool :=
  forallb (fun n =>
    forallb (fun m =>
      round (ratio m n * 40) =? round (round_ndigits (ratio m n) 3 * 40))
      (seq 0 (S n)))
    (seq 1 bound).

Definition scenario_posting : string :=
  "Python FastAPI Docker Kubernetes AWS python fastapi docker kubernetes aws".

Definition scenario_resume : string := "Python, FastAPI, Docker, AWS".

End CompatTerms.

Module ParserTerms.
Import Py GenerationAgent Terms.

(** What the parser owes to one field: the placeholder when the marker of the
    field does not occur in the response, and otherwise the stripped text
    between the end of the first occurrence of the marker and [end_index],
    the first occurrence of the next marker from there on, or the end of the
    response when there is none (or no next marker). *)
Definition field_parsed (response_text : string)
    (parsed_content : gmap string string)
    (key start_marker : string) (end_marker : option string) : Prop :=
  (~ occurs start_marker response_text ->
   parsed_content !! key = Some (missing_section start_marker))
  /\ (forall start_index,
        find start_marker response_text = Some start_index ->
        exists end_index,
          parsed_content !! key
          = Some (strip (slice (start_index + String.length start_marker)
                               end_index response_text))
          /\ (end_index <= String.length response_text)%nat
          /\ match end_marker with
             | None => end_index = String.length response_text
             | Some m =>
                 find_from m response_text start_index = Some end_index
                 \/ (find_from m response_text start_index = None
                     /\ end_index = String.length response_text)
             end).

Definition response_without_letter : string :=
  "### OPTIMIZED CV ### my cv ### INTERVIEW TIPS ### tips ".

End ParserTerms.

(** ** Vocabulary of the further properties *)

Module MoreTerms.
Import Py Validation Compatibility.
Local Open Scope Z_scope.

(** Every character of [s] passes the test [f]. *)
Fixpoint forall_chars (f : ascii -> bool) (s : string) : bool :=
  match s with
  | EmptyString => true
  | String c s' => f c && forall_chars f s'
  end.

(** The items of [l] whose count is [n], in the order of [l]. *)
Definition with_count (n : nat) (l : counter) : list string :=
  fst <$> filter (fun p => snd p = n) l.

(** A bullet ([-] or [*]) followed by a whitespace character occurs in [s]. *)
Definition has_bullet (s : string) : Prop :=
  exists pre c w post,
    s = pre +:+ String c (String w post)
    /\ is_bullet c = true /\ is_space w = true.

(** [pre] ends where a line starts: it is empty or ends with a line feed. *)
Definition line_start (pre : string) : Prop :=
  pre = EmptyString \/ exists p, pre = p +:+ String "010" EmptyString.

(** A line of [s] starts with digits, a dot and a whitespace character. *)
Definition has_numbered_line (s : string) : Prop :=
  exists pre digits w post,
    s = pre +:+ digits +:+ String "." (String w post)
    /\ digits <> EmptyString /\ forall_chars is_digit digits = true
    /\ is_space w = true /\ line_start pre.

(** A section body that cannot be mistaken for marker text: it holds no [#]
    and does not start with a space. *)
Definition clean_body (body : string) : bool :=
  forall_chars (fun ch => negb (Ascii.eqb ch "#")) body
  && negb (startswith " " body).

(** What may follow a marker without forming another marker with its final
    [###]. *)
Definition tail_ok (rest : string) : bool :=
  negb (startswith " " rest) && negb (startswith "# " rest)
  && negb (startswith "## " rest).

(** A response that carries the four markers in order, each followed by its
    body. *)
Definition well_formed_response (cv letter message tips : string) : string :=
  "### OPTIMIZED CV ###" +:+ cv
  +:+ "### COVER LETTER ###" +:+ letter
  +:+ "### NETWORKING MESSAGE ###" +:+ message
  +:+ "### INTERVIEW TIPS ###" +:+ tips.

(** How a pattern [m] fares against a text that begins with [y]: a character
    differs, or [m] ends inside [y], or [y] ends first and the rest [q] of
    [m] is still to be matched. *)
Inductive residue : Type :=
| Differs
| Covered
| Remains (q : string).

Fixpoint residual (m y : string) : residue :=
  match m, y with
  | EmptyString, _ => Covered
  | String _ _, EmptyString => Remains m
  | String a m', String b y' =>
      if Ascii.eqb a b then residual m' y' else Differs
  end.

(** No occurrence of [m] starts inside [x], whatever follows [x], provided
    that what follows passes [tail_ok]. *)
Definition skip_ok (m x : string) : bool :=
  forallb
    (fun j =>
       match residual m (slice_from j x) with
       | Differs => true
       | Covered => false
       | Remains q =>
           startswith " " q || startswith "# " q || startswith "## " q
       end)
    (seq 0 (String.length x)).

End MoreTerms.

(** ** [backend/config.py] *)

Module Config.
Import Py.

(** [s.split(sep)] for a separator of one character: the pieces between the
    separators, empty ones included.  [w] is the piece being read. *)
Fixpoint split_at (sep : ascii) (w s : string) : list string :=
  match s with
  | EmptyString => [w]
  | String c s' =>
      if Ascii.eqb c sep then w :: split_at sep EmptyString s'
      else split_at sep (w +:+ String c EmptyString) s'
  end.

(** [Settings.is_configured]; the field [google_api_key] is an
    [Optional[str]]. *)
Definition is_configured (google_api_key : option string) : bool :=
  match google_api_key with
  | None => false
  | Some key =>
      negb (String.eqb key EmptyString)
      && negb (String.eqb (strip key) EmptyString)
      && negb (contains "your_" (lower key))
  end.

(** What the [before] validator of [cors_origins] receives: the string of the
    environment, or a list. *)
Inductive cors_value : Type :=
| OriginsStr (v : string)
| OriginsList (v : list string).

Definition parse_cors_origins (v : cors_value) : list string :=
  match v with
  | OriginsStr v =>
      strip <$> filter (fun origin => strip origin <> EmptyString)
                       (split_at "," EmptyString v)
  | OriginsList v => v
  end.

End Config.

(** ** [backend/services/web_scraper.py] *)

Module WebScraper.
Import Py.

(** The dict that [_parse_html] returns. *)
Record posting : Type := mkPosting
  { title : string;
    company : string;
    description : string;
    fullText : string }.

(** The [ValueError]s of [scrape_job_posting]. *)
Inductive scrape_error : Type :=
| UrlInvalida (url : string)   (* "URL inválida: {url}" *)
| FalhaAoExtrair (url : string). (* "Falha ao extrair conteúdo da URL: {url} ..." *)

Section Scraper.

(** [urlparse(url)] returns, with a scheme and a network location. *)
Variable has_scheme_and_netloc : string -> bool.

(** [self.client.get(u)], [raise_for_status()] and [.text]: the body of the
    page, [None] when one of them raises. *)
Variable get : string -> option string.

(** The BeautifulSoup part of [_parse_html]: the values of [title],
    [company], [description] and [full_text] before the final [strip];
    [None] when it raises or one of the values is not a string. *)
Variable extract : string -> option posting.

Definition _parse_html (html : string) : option posting :=
  match extract html with
  | None => None
  | Some p =>
      Some (mkPosting (strip (title p)) (strip (company p))
                      (strip (description p)) (strip (fullText p)))
  end.

Definition _try_direct_scrape (url : string) : option posting :=
  match get url with
  | None => None
  | Some html => _parse_html html
  end.

Definition proxies (url : string) : list string :=
  [ "https://api.allorigins.win/raw?url=" +:+ url;
    "https://corsproxy.io/?" +:+ url ].

(** The [for proxy_url in proxies] loop over the proxies still to try. *)
Fixpoint proxy_loop (proxies : list string) : option posting :=
  match proxies with
  | [] => None
  | proxy_url :: rest =>
      match get proxy_url with
      | None => proxy_loop rest
      | Some html =>
          match _parse_html html with
          | None => proxy_loop rest
          | Some result =>
              if (200 <? String.length (fullText result))%nat
              then Some result
              else proxy_loop rest
          end
      end
  end.

Definition _try_cors_proxy_scrape (url : string) : option posting :=
  proxy_loop (proxies url).

Definition scrape_job_posting (url : string) : scrape_error + posting :=
  if negb (has_scheme_and_netloc url) then inl (UrlInvalida url)
  else
    match _try_direct_scrape url with
    | Some result => inr result
    | None =>
        match _try_cors_proxy_scrape url with
        | Some result => inr result
        | None => inl (FalhaAoExtrair url)
        end
    end.

End Scraper.

End WebScraper.

(** ** [backend/agents/extraction_agent.py] *)

Module ExtractionAgent.
Import Py Validation.

(** The fields of the agent that the two methods read. *)
Record agent : Type := mkAgent
  { model_name : string;
    use_web_scraping : bool }.

(** [ExtractionAgent()] *)
Definition default_agent : agent := mkAgent "gemini-2.5-flash" true.

(** The dict that [extract_job_content_from_url] returns. *)
Record content_result : Type := mkContentResult
  { content : string;
    content_title : string;                 (* "title" *)
    content_company : string;               (* "company" *)
    content_validation : ValidationResult;  (* "validation" *)
    content_source : string }.              (* "source" *)

(** The dict that [extract_job_title_and_company] returns. *)
Record details_result : Type := mkDetailsResult
  { job_title : string;
    details_company : string;               (* "company" *)
    details_validation : ValidationResult;  (* "validation" *)
    details_source : string }.              (* "source" *)

(** What [llm.ainvoke(fallback_prompt)] gives: it raises, or the content of
    the response is a string, another falsy value, or another truthy
    value. *)
Inductive chat_reply : Type :=
| ReplyRaises
| ReplyText (content : string)
| ReplyFalsy
| ReplyOther.

(** A value of the decoded JSON answer: a string or anything else. *)
Inductive json_value : Type :=
| JsonStr (s : string)
| JsonOther.

(** The three keys that the agent looks up in the answer; [None] for an
    absent key. *)
Record json_object : Type := mkJsonObject
  { get_jobTitle : option json_value;
    get_job_title : option json_value;
    get_company : option json_value }.

(** What [chain.ainvoke] gives: it raises (a [json.JSONDecodeError] or not),
    or returns a dict, a string or something else. *)
Inductive chain_result : Type :=
| ChainRaises (json_decode_error : bool)
| ResultDict (result : json_object)
| ResultStr (result : string)
| ResultOther.

(** [json.loads(result)]: it raises [JSONDecodeError], or gives a dict or
    another value. *)
Inductive loaded : Type :=
| LoadsRaises
| LoadsDict (parsed : json_object)
| LoadsOther.

(** What the agent reaches outside of itself during one call. *)
Record world : Type := mkWorld
  { has_scheme_and_netloc : string -> bool;
    get : string -> option string;
    extract : string -> option WebScraper.posting;
    (** the reply of the model to the fallback prompt written for a URL *)
    ainvoke : string -> chat_reply;
    (** the result of the details chain on a job content *)
    chain : string -> chain_result;
    json_loads : string -> loaded }.

(** The exception caught by the last handler of
    [extract_job_content_from_url]. *)
Inductive content_failure : Type :=
| ModelRaised
| ReplyNotText                              (* [AttributeError] of [strip] *)
| ContentRejected (v : ValidationResult).   (* "IA não conseguiu extrair conteúdo válido da URL: ..." *)

(** The exception caught by the last handler of
    [extract_job_title_and_company]. *)
Inductive details_failure : Type :=
| ChainFailed
| FieldNotText                              (* [AttributeError] of [get] or [strip] *)
| DetailsRejected (v : ValidationResult) (title company : string).
                                            (* "IA não conseguiu extrair dados válidos. ..." *)

(** The [ValueError]s of the agent. *)
Inductive extraction_error : Type :=
| UrlInvalida (job_url : string)            (* "URL inválida: {job_url}" *)
| FalhaCompleta (job_url : string) (erro : content_failure)
                                            (* "Falha completa ao extrair conteúdo da URL: {job_url} ..." *)
| ConteudoDaVagaMuitoCurto                  (* "Conteúdo da vaga muito curto ou vazio" *)
| JsonInvalido                              (* "IA retornou JSON inválido: ..." *)
| FalhaCritica (erro : details_failure).    (* "Falha crítica na extração de título/empresa: ..." *)

Section Agent.

Variable w : world.
Variable self : agent.

Definition scrape_job_posting (url : string)
  : WebScraper.scrape_error + WebScraper.posting :=
  WebScraper.scrape_job_posting (has_scheme_and_netloc w) (get w) (extract w) url.

(** The validation dict of a returned result. *)
Definition accepted (validation : ValidationResult) : ValidationResult :=
  mkValidationResult true (score validation) (reasons validation).

(** The second attempt of [extract_job_content_from_url]. *)
Definition content_fallback (job_url : string)
  : extraction_error + content_result :=
  match ainvoke w job_url with
  | ReplyRaises => inl (FalhaCompleta job_url ModelRaised)
  | ReplyOther => inl (FalhaCompleta job_url ReplyNotText)
  | ReplyFalsy =>
      inl (FalhaCompleta job_url
             (ContentRejected (mkValidationResult false 0 [ConteudoVazio])))
  | ReplyText content =>
      let validation := validate_and_score_job_content content in
      if negb (is_valid validation)
      then inl (FalhaCompleta job_url (ContentRejected validation))
      else inr (mkContentResult content EmptyString EmptyString
                  (accepted validation) "llm_fallback")
  end.

Definition extract_job_content_from_url (job_url : string)
  : extraction_error + content_result :=
  if negb (has_scheme_and_netloc w job_url) then inl (UrlInvalida job_url)
  else if use_web_scraping self then
    match scrape_job_posting job_url with
    | inr scraped_data =>
        let validation :=
          validate_and_score_job_content (WebScraper.fullText scraped_data) in
        if is_valid validation
        then inr (mkContentResult (WebScraper.fullText scraped_data)
                    (WebScraper.title scraped_data)
                    (WebScraper.company scraped_data)
                    (accepted validation) "web_scraping")
        else content_fallback job_url
    | inl _ => content_fallback job_url
    end
  else content_fallback job_url.

(** [result.get("jobTitle", result.get("job_title", <empty>))] *)
Definition title_of (result : json_object) : json_value :=
  match get_jobTitle result with
  | Some v => v
  | None =>
      match get_job_title result with
      | Some v => v
      | None => JsonStr EmptyString
      end
  end.

(** [result.get("company", <empty>)] *)
Definition company_of (result : json_object) : json_value :=
  match get_company result with
  | Some v => v
  | None => JsonStr EmptyString
  end.

(** [job_url and self.use_web_scraping], as a truth value *)
Definition scraping_applies (job_url : option string) : bool :=
  match job_url with
  | Some url => negb (String.eqb url EmptyString) && use_web_scraping self
  | None => false
  end.

(** Validation and result of the second attempt, from the decoded answer. *)
Definition details_from (result : json_object) (job_url : option string)
  : extraction_error + details_result :=
  match title_of result with
  | JsonOther => inl (FalhaCritica FieldNotText)
  | JsonStr t =>
      let title := strip t in
      match company_of result with
      | JsonOther => inl (FalhaCritica FieldNotText)
      | JsonStr c =>
          let company := strip c in
          let validation := validate_and_score_job_details title company in
          if negb (is_valid validation)
          then inl (FalhaCritica (DetailsRejected validation title company))
          else
            let source :=
              if scraping_applies job_url then "llm_fallback" else "llm" in
            inr (mkDetailsResult title company (accepted validation) source)
      end
  end.

(** The second attempt of [extract_job_title_and_company]. *)
Definition details_fallback (job_content : string) (job_url : option string)
  : extraction_error + details_result :=
  match chain w job_content with
  | ChainRaises true => inl JsonInvalido
  | ChainRaises false => inl (FalhaCritica ChainFailed)
  | ResultDict result => details_from result job_url
  | ResultStr result =>
      match json_loads w result with
      | LoadsRaises => inl JsonInvalido
      | LoadsDict parsed => details_from parsed job_url
      | LoadsOther => inl (FalhaCritica FieldNotText)
      end
  | ResultOther => details_from (mkJsonObject None None None) job_url
  end.

Definition extract_job_title_and_company (job_content : string)
    (job_url : option string) : extraction_error + details_result :=
  if String.eqb job_content EmptyString
     || (String.length (strip job_content) <? 100)%nat
  then inl ConteudoDaVagaMuitoCurto
  else
    match job_url with
    | Some url =>
        if scraping_applies job_url then
          match scrape_job_posting url with
          | inr scraped_data =>
              if negb (String.eqb (WebScraper.title scraped_data) EmptyString)
                 && negb (String.eqb (WebScraper.company scraped_data)
                                     EmptyString)
              then
                let title := strip (WebScraper.title scraped_data) in
                let company := strip (WebScraper.company scraped_data) in
                let validation :=
                  validate_and_score_job_details title company in
                if is_valid validation
                then inr (mkDetailsResult title company
                            (accepted validation) "web_scraping")
                else details_fallback job_content job_url
              else details_fallback job_content job_url
          | inl _ => details_fallback job_content job_url
          end
        else details_fallback job_content job_url
    | None => details_fallback job_content job_url
    end.

End Agent.

End ExtractionAgent.

(** ** [GenerationAgent.generate_career_materials] *)

Module Generation.
Import Py Compatibility GenerationAgent.

(** [get_prompt_variables] of [agents/prompts.py] *)
Definition get_prompt_variables
    (cv job_title company job_description tone language custom_context : string)
  : gmap string string :=
  <["customContext" :=
      if String.eqb custom_context EmptyString
      then "Nenhuma instru" +:+ String "231" (String "227" "o adicional fornecida.")
      else custom_context]>
  (<["language" := language]>
  (<["tone" := tone]>
  (<["jobDescription" := job_description]>
  (<["company" := company]>
  (<["jobTitle" := job_title]>
  (<["cv" := cv]> ∅)))))).

(** The fields of the agent. *)
Record agent : Type := mkAgent
  { model_name : string;
    use_thinking_mode : bool }.

(** [GenerationAgent(model_name, use_thinking_mode)] *)
Definition init (model_name : string) (use_thinking_mode : bool) : agent :=
  mkAgent (if use_thinking_mode then "gemini-2.5-pro" else model_name)
          use_thinking_mode.

(** What [chain.ainvoke(prompt_vars)] gives: an exception with its text, or
    the response text. *)
Inductive chain_outcome : Type :=
| Raises (e : string)
| Returns (raw_response : string).

(** The values of the returned dict: a text, the list of sources, the
    compatibility dict, the metadata dict; [EmptyDict] is the default that the
    endpoint uses for absent metadata. *)
Inductive value : Type :=
| Text (s : string)
| Sources (l : list (string * string))
| Compat (score : Z) (label : string) (strengths gaps : list string)
         (coverage_ratio : Q)
| Metadata (model : string) (use_thinking_mode : bool) (tone language : string)
| EmptyDict.

(** The [ValueError]s of [generate_career_materials]. *)
Inductive generation_error : Type :=
| CvMuitoCurto                  (* "CV muito curto ou vazio" *)
| TituloEEmpresaObrigatorios    (* "Título da vaga e empresa são obrigatórios" *)
| DescricaoMuitoCurta           (* "Descrição da vaga muito curta ou vazia" *)
| FalhaAoGerar (e : string).    (* "Falha ao gerar materiais: {e}" *)

Definition _extract_sources (response_text : string) : list (string * string) :=
  [].

Section Run.

(** The chain of the agent, as a function of the prompt variables. *)
Variable chain : gmap string string -> chain_outcome.

Definition generate_career_materials (self : agent)
    (cv job_title company job_description tone language custom_context : string)
  : generation_error + gmap string value :=
  if String.eqb cv EmptyString || (String.length (strip cv) <? 50)%nat
  then inl CvMuitoCurto
  else if String.eqb job_title EmptyString || String.eqb company EmptyString
  then inl TituloEEmpresaObrigatorios
  else if String.eqb job_description EmptyString
          || (String.length (strip job_description) <? 100)%nat
  then inl DescricaoMuitoCurta
  else
    let prompt_vars :=
      get_prompt_variables cv job_title company job_description tone language
                           custom_context in
    let compatibility := calculate_compatibility cv job_description in
    match chain prompt_vars with
    | Raises e => inl (FalhaAoGerar e)
    | Returns raw_response =>
        let parsed_content := _parse_generated_content raw_response in
        let sources := _extract_sources raw_response in
        inr (<["metadata" :=
                 Metadata (model_name self) (use_thinking_mode self)
                          tone language]>
            (<["compatibility" :=
                 Compat (score compatibility) (label compatibility)
                        (strengths compatibility) (gaps compatibility)
                        (coverage_ratio compatibility)]>
            (<["sources" := Sources sources]>
            (Text <$> parsed_content))))
    end.

End Run.

End Generation.

(** ** [api/main.py]: the endpoints [/extract-job-details] and
    [/generate-complete] *)

Module Api.
Import Py Validation Config ExtractionAgent Generation.

(** The text of a [ValueError] that reaches a handler of the endpoints. *)
Inductive detail : Type :=
| ExtractionFailed (e : extraction_error)
| TituloOuEmpresaEmFalta          (* "Falha ao extrair título ou empresa da vaga" *)
| GenerationFailed (e : generation_error).

(** The [HTTPException]s of the endpoints. *)
Inductive http_error : Type :=
| ServiceUnavailable              (* status 503 *)
| BadRequest (d : detail)         (* status 400, from a [ValueError] *)
| InternalError.                  (* status 500, from another exception *)

Record JobDetailsResponse : Type := mkJobDetailsResponse
  { response_job_title : string;                  (* job_title *)
    response_company : string;                    (* company *)
    job_description : string;
    validation_content : ValidationResult;        (* validation["content"] *)
    validation_details : ValidationResult;        (* validation["details"] *)
    response_source : string;                     (* source *)
    content_score : Z }.

(** The start-up part of [lifespan]: the global [extraction_agent]. *)
Definition lifespan (google_api_key : option string)
  : option ExtractionAgent.agent :=
  if negb (is_configured google_api_key) then None
  else Some default_agent.

(** [w1] is the world during the call that extracts the content, [w2] during
    the call that extracts title and company. *)
Definition extract_job_details (google_api_key : option string)
    (extraction_agent : option ExtractionAgent.agent) (w1 w2 : world)
    (job_url : string) : http_error + JobDetailsResponse :=
  match extraction_agent with
  | None => inl ServiceUnavailable
  | Some agent =>
      if negb (is_configured google_api_key) then inl ServiceUnavailable
      else
        match extract_job_content_from_url w1 agent job_url with
        | inl e => inl (BadRequest (ExtractionFailed e))
        | inr content_result =>
            match extract_job_title_and_company w2 agent
                    (content content_result) (Some job_url) with
            | inl e => inl (BadRequest (ExtractionFailed e))
            | inr details_result =>
                inr (mkJobDetailsResponse
                       (job_title details_result)
                       (details_company details_result)
                       (content content_result)
                       (content_validation content_result)
                       (details_validation details_result)
                       (content_source content_result +:+ " + "
                        +:+ details_source details_result)
                       (score (content_validation content_result)))
            end
        end
  end.

(** The dict that [generate_complete] returns. *)
Record CompleteResponse : Type := mkCompleteResponse
  { jobTitle : string;
    complete_company : string;                     (* jobDetails["company"] *)
    jobDescription : string;
    complete_validation_content : ValidationResult;
    complete_validation_details : ValidationResult;
    optimizedCv : value;
    coverLetter : value;
    networkingMessage : value;
    interviewTips : value;
    complete_sources : value;                      (* materials["sources"] *)
    complete_compatibility : value;                (* materials["compatibility"] *)
    complete_metadata : value }.                   (* materials["metadata"] *)

(** [bool(v)] *)
Definition truthy (v : value) : bool :=
  match v with
  | Text s => negb (String.eqb s EmptyString)
  | Sources l => match l with [] => false | _ :: _ => true end
  | Compat _ _ _ _ _ => true
  | Metadata _ _ _ _ => true
  | EmptyDict => false
  end.

(** The compatibility block used when the materials carry none. *)
Definition compatibility_unavailable : value :=
  Compat 0 ("Compatibilidade indispon" +:+ String "237" "vel") [] [] 0%Q.

(** The endpoint has no configuration check; the global [extraction_agent]
    is [None] when start-up found no key.  The request carries [cv],
    [job_url], [tone], [language] and [custom_context]. *)
Definition generate_complete
    (extraction_agent : option ExtractionAgent.agent) (w1 w2 : world)
    (chain : gmap string string -> chain_outcome)
    (cv job_url tone language custom_context : string)
  : http_error + CompleteResponse :=
  match extraction_agent with
  | None => inl InternalError
  | Some extraction_agent =>
      match extract_job_content_from_url w1 extraction_agent job_url with
      | inl e => inl (BadRequest (ExtractionFailed e))
      | inr content_result =>
          match extract_job_title_and_company w2 extraction_agent
                  (content content_result) (Some job_url) with
          | inl e => inl (BadRequest (ExtractionFailed e))
          | inr details_result =>
              let job_title := ExtractionAgent.job_title details_result in
              let company := details_company details_result in
              if String.eqb job_title EmptyString
                 || String.eqb company EmptyString
              then inl (BadRequest TituloOuEmpresaEmFalta)
              else
                let agent := Generation.init "gemini-2.5-flash" false in
                match generate_career_materials chain agent cv job_title
                        company (content content_result) tone language
                        custom_context with
                | inl e => inl (BadRequest (GenerationFailed e))
                | inr materials_result =>
                    let compatibility :=
                      match materials_result !! "compatibility" with
                      | Some v =>
                          if truthy v then v else compatibility_unavailable
                      | None => compatibility_unavailable
                      end in
                    match materials_result !! "optimizedCv",
                          materials_result !! "coverLetter",
                          materials_result !! "networkingMessage",
                          materials_result !! "interviewTips" with
                    | Some cv', Some letter, Some message, Some tips =>
                        inr (mkCompleteResponse job_title company
                               (content content_result)
                               (content_validation content_result)
                               (details_validation details_result)
                               cv' letter message tips
                               (default (Sources [])
                                        (materials_result !! "sources"))
                               compatibility
                               (default EmptyDict
                                        (materials_result !! "metadata")))
                    | _, _, _, _ => inl InternalError
                    end
                end
          end
      end
  end.

End Api.

(** ** Vocabulary of the properties of configuration, scraper and agents *)

Module FlowTerms.
Import Py Validation Terms MoreTerms.

(** [sep.join(l)] *)
Fixpoint join (sep : string) (l : list string) : string :=
  match l with
  | [] => EmptyString
  | x :: l' =>
      match l' with
      | [] => x
      | _ :: _ => x +:+ sep +:+ join sep l'
      end
  end.

(** No comma in [s]. *)
Definition comma_free (s : string) : bool :=
  forall_chars (fun c => negb (Ascii.eqb c ",")) s.

(** No field of the posting has whitespace around it. *)
Definition trimmed (p : WebScraper.posting) : Prop :=
  strip (WebScraper.title p) = WebScraper.title p
  /\ strip (WebScraper.company p) = WebScraper.company p
  /\ strip (WebScraper.description p) = WebScraper.description p
  /\ strip (WebScraper.fullText p) = WebScraper.fullText p.

(** The address [u] answers with a page from which [p] is parsed. *)
Definition page_of (get : string -> option string)
    (extract : string -> option WebScraper.posting)
    (u : string) (p : WebScraper.posting) : Prop :=
  exists html raw,
    get u = Some html /\ extract html = Some raw
    /\ p = WebScraper.mkPosting
             (strip (WebScraper.title raw)) (strip (WebScraper.company raw))
             (strip (WebScraper.description raw))
             (strip (WebScraper.fullText raw)).

(** The address [u] answers with a page whose text has more than 200
    characters after parsing. *)
Definition long_page_of (get : string -> option string)
    (extract : string -> option WebScraper.posting)
    (u : string) (p : WebScraper.posting) : Prop :=
  page_of get extract u p /\ (200 < String.length (WebScraper.fullText p))%nat.

(** The verdict on a title and a company that pass every check. *)
Definition details_accepted : ValidationResult :=
  mkValidationResult true 100 [TituloValido; EmpresaValida].

(** The scraper of the agent yields a text that the content validator
    accepts. *)
Definition scraped_content_valid (w : ExtractionAgent.world)
    (self : ExtractionAgent.agent) (job_url : string) : Prop :=
  ExtractionAgent.use_web_scraping self = true
  /\ exists p,
       ExtractionAgent.scrape_job_posting w job_url = inr p
       /\ is_valid (validate_and_score_job_content (WebScraper.fullText p))
          = true.

(** The model answers the fallback prompt with a text that the content
    validator accepts. *)
Definition model_content_valid (w : ExtractionAgent.world) (job_url : string)
  : Prop :=
  exists text,
    ExtractionAgent.ainvoke w job_url = ExtractionAgent.ReplyText text
    /\ is_valid (validate_and_score_job_content text) = true.

(** The scraper of the agent yields a title and a company that the details
    validator accepts. *)
Definition scraped_details_valid (w : ExtractionAgent.world)
    (self : ExtractionAgent.agent) (job_url : option string)
    (title company : string) : Prop :=
  ExtractionAgent.scraping_applies self job_url = true
  /\ exists url p,
       job_url = Some url
       /\ ExtractionAgent.scrape_job_posting w url = inr p
       /\ WebScraper.title p <> EmptyString
       /\ WebScraper.company p <> EmptyString
       /\ title = strip (WebScraper.title p)
       /\ company = strip (WebScraper.company p)
       /\ is_valid (validate_and_score_job_details title company) = true.

(** The model answers the details chain with the JSON object [d], as a dict
    or as a text that [json.loads] decodes to it. *)
Definition model_answer (w : ExtractionAgent.world) (job_content : string)
    (d : ExtractionAgent.json_object) : Prop :=
  ExtractionAgent.chain w job_content = ExtractionAgent.ResultDict d
  \/ exists s,
       ExtractionAgent.chain w job_content = ExtractionAgent.ResultStr s
       /\ ExtractionAgent.json_loads w s = ExtractionAgent.LoadsDict d.

(** The model answers with an object from which [title] and [company] are
    read, and the details validator accepts them. *)
Definition model_details_valid (w : ExtractionAgent.world)
    (job_content title company : string) : Prop :=
  exists d t c,
    model_answer w job_content d
    /\ ExtractionAgent.title_of d = ExtractionAgent.JsonStr t
    /\ ExtractionAgent.company_of d = ExtractionAgent.JsonStr c
    /\ title = strip t /\ company = strip c
    /\ is_valid (validate_and_score_job_details title company) = true.

(** The source tag of a result that comes from the model. *)
Definition model_tag (self : ExtractionAgent.agent) (job_url : option string)
  : string :=
  if ExtractionAgent.scraping_applies self job_url then "llm_fallback"
  else "llm".

(** The inputs pass the three guards of [generate_career_materials]. *)
Definition guards_pass (cv job_title company job_description : string) : Prop :=
  (50 <= String.length (strip cv))%nat
  /\ job_title <> EmptyString /\ company <> EmptyString
  /\ (100 <= String.length (strip job_description))%nat.

(** The compatibility dict of the materials. *)
Definition compat_value (c : Compatibility.CompatibilityInsights)
  : Generation.value :=
  Generation.Compat (Compatibility.score c) (Compatibility.label c)
    (Compatibility.strengths c) (Compatibility.gaps c)
    (Compatibility.coverage_ratio c).

(** The four keys of the parsed sections. *)
Definition section_keys : list string :=
  [ "optimizedCv"; "coverLetter"; "networkingMessage"; "interviewTips" ].

(** Sample data. *)
Definition sample_url : string := "https://jobs.example.org/backend-engineer".

Definition sample_text : string :=
  "We are hiring a Backend Engineer to join our platform team. "
  +:+ "Responsibilities include designing services in Python and Go, "
  +:+ "reviewing code and mentoring. Requirements: five years of experience "
  +:+ "with distributed systems, SQL databases and cloud infrastructure. "
  +:+ "Apply today.".

Definition sample_page : WebScraper.posting :=
  WebScraper.mkPosting " Backend Engineer " "Acme Corp " EmptyString
                       sample_text.

Definition sample_answer : ExtractionAgent.json_object :=
  ExtractionAgent.mkJsonObject
    (Some (ExtractionAgent.JsonStr "Backend Engineer ")) None
    (Some (ExtractionAgent.JsonStr " Acme Corp")).

(** A world in which the posting is fetched directly and the model is out of
    reach. *)
Definition direct_world : ExtractionAgent.world :=
  ExtractionAgent.mkWorld
    (startswith "https://")
    (fun u => if String.eqb u sample_url then Some "<html>" else None)
    (fun _ => Some sample_page)
    (fun _ => ExtractionAgent.ReplyRaises)
    (fun _ => ExtractionAgent.ChainRaises false)
    (fun _ => ExtractionAgent.LoadsRaises).

(** A world in which only the second proxy answers. *)
Definition proxy_world : ExtractionAgent.world :=
  ExtractionAgent.mkWorld
    (startswith "https://")
    (fun u => if String.eqb u ("https://corsproxy.io/?" +:+ sample_url)
              then Some "<html>" else None)
    (fun _ => Some sample_page)
    (fun _ => ExtractionAgent.ReplyRaises)
    (fun _ => ExtractionAgent.ChainRaises false)
    (fun _ => ExtractionAgent.LoadsRaises).

(** A world in which no page can be fetched and the model answers. *)
Definition model_world : ExtractionAgent.world :=
  ExtractionAgent.mkWorld
    (startswith "https://")
    (fun _ => None)
    (fun _ => None)
    (fun _ => ExtractionAgent.ReplyText sample_text)
    (fun _ => ExtractionAgent.ResultDict sample_answer)
    (fun _ => ExtractionAgent.LoadsRaises).

(** A chain that answers every prompt with a response that lacks the cover
    letter. *)
Definition sample_chain (prompt_vars : gmap string string)
  : Generation.chain_outcome :=
  Generation.Returns ParserTerms.response_without_letter.

Definition sample_cv : string :=
  "Backend engineer with seven years of experience in Python, Go, SQL "
  +:+ "databases and cloud infrastructure.".

End FlowTerms.

(** ** Facts about the string primitives *)

Module PyFacts.
Import Py Terms.

Ltac each_char c := destruct c as [[] [] [] [] [] [] [] []]; vm_compute; try reflexivity.

Lemma str_app_nil (t : string) : EmptyString +:+ t = t.
Proof. reflexivity. Qed.

Lemma str_app_cons (c : ascii) (s t : string) :
  String c s +:+ t = String c (s +:+ t).
Proof. reflexivity. Qed.

Ltac sapp := rewrite ?str_app_cons, ?str_app_nil in *.

Lemma str_app_empty_r (s : string) : s +:+ EmptyString = s.
Proof. induction s as [|c s IH]; sapp; [reflexivity | now rewrite IH]. Qed.

Lemma str_app_assoc (s t u : string) : (s +:+ t) +:+ u = s +:+ (t +:+ u).
Proof. induction s as [|c s IH]; sapp; [reflexivity | now rewrite IH]. Qed.

Lemma str_length_app (s t : string) :
  String.length (s +:+ t) = (String.length s + String.length t)%nat.
Proof. induction s as [|c s IH]; sapp; simpl; [reflexivity | now rewrite IH]. Qed.

Lemma lower_app (s t : string) : lower (s +:+ t) = lower s +:+ lower t.
Proof.
  induction s as [|c s IH]; sapp; simpl; sapp; [reflexivity | now rewrite IH].
Qed.


Lemma is_space_lower_char (c : ascii) : is_space (lower_char c) = is_space c.
Proof. each_char c. Qed.

Lemma blank_lower (s : string) : blank (lower s) = blank s.
Proof.
  induction s as [|c s IH]; simpl; [reflexivity |].
  now rewrite is_space_lower_char, IH.
Qed.

(** *** [startswith], [find] and [in] *)

Lemma startswith_spec (p s : string) :
  startswith p s = true <-> exists post, s = p +:+ post.
Proof.
  revert s; induction p as [|a p IH]; intros s; simpl.
  - split; [intros _; now exists s | reflexivity].
  - destruct s as [|b s].
    + split; [discriminate | intros [post H]; discriminate].
    + destruct (Ascii.eqb_spec a b) as [->|Hab].
      * rewrite IH. split; intros [post H]; exists post; sapp; congruence.
      * split; [discriminate | intros [post H]; sapp; congruence].
Qed.

Lemma startswith_app (p s t : string) :
  startswith p s = true -> startswith p (s +:+ t) = true.
Proof.
  rewrite !startswith_spec. intros [post ->].
  exists (post +:+ t). apply str_app_assoc.
Qed.

Lemma find_unfold (sub s : string) :
  find sub s =
  if startswith sub s then Some 0%nat
  else match s with
       | EmptyString => None
       | String _ s' => option_map S (find sub s')
       end.
Proof. destruct s; reflexivity. Qed.

Lemma find_is_Some (sub s : string) :
  is_Some (find sub s) <-> occurs sub s.
Proof.
  induction s as [|c s IH]; rewrite find_unfold.
  - destruct (startswith sub EmptyString) eqn:E.
    + split; [intros _ | eauto].
      apply startswith_spec in E as [post E]. now exists EmptyString, post.
    + split; [intros [x Hx]; discriminate |].
      intros [pre [post H]]. destruct pre; sapp; [|discriminate].
      assert (startswith sub EmptyString = true) by (apply startswith_spec; eauto).
      congruence.
  - destruct (startswith sub (String c s)) eqn:E.
    + split; [intros _ | eauto].
      apply startswith_spec in E as [post E]. now exists EmptyString, post.
    + transitivity (is_Some (find sub s)).
      { destruct (find sub s); simpl; split; intros [x Hx]; eauto; discriminate. }
      rewrite IH. split.
      * intros [pre [post ->]]. now exists (String c pre), post.
      * intros [pre [post H]]. destruct pre as [|d pre]; sapp.
        -- assert (startswith sub (String c s) = true)
             by (apply startswith_spec; eauto).
           congruence.
        -- injection H as _ ->. now exists pre, post.
Qed.

Lemma contains_spec (sub s : string) : contains sub s = true <-> occurs sub s.
Proof.
  rewrite <- find_is_Some. unfold contains.
  destruct (find sub s); split; eauto; try discriminate.
  intros [x Hx]; discriminate.
Qed.

Lemma find_None (sub s : string) : find sub s = None <-> ~ occurs sub s.
Proof.
  rewrite <- find_is_Some, <- eq_None_not_Some. reflexivity.
Qed.

Lemma contains_app (sub s t : string) :
  contains sub s = true -> contains sub (s +:+ t) = true.
Proof.
  rewrite !contains_spec. intros [pre [post ->]].
  exists pre, (post +:+ t). now rewrite !str_app_assoc.
Qed.

Lemma contains_prefix (p q s : string) :
  contains (p +:+ q) s = true -> contains p s = true.
Proof.
  rewrite !contains_spec. intros [pre [post ->]].
  exists pre, (q +:+ post). now rewrite !str_app_assoc.
Qed.

(** The index returned by [find] is that of an occurrence, and the first. *)
Lemma find_Some (sub s : string) (i : nat) :
  find sub s = Some i ->
  startswith sub (slice_from i s) = true
  /\ (i <= String.length s)%nat
  /\ forall j, (j < i)%nat -> startswith sub (slice_from j s) = false.
Proof.
  revert i; induction s as [|c s IH]; intros i; rewrite find_unfold.
  - destruct (startswith sub EmptyString) eqn:E; [|discriminate].
    intros [= <-]. simpl. repeat split; [assumption | lia | intros; lia].
  - destruct (startswith sub (String c s)) eqn:E.
    + intros [= <-]. simpl. repeat split; [assumption | lia | intros; lia].
    + destruct (find sub s) as [k|]; [|discriminate].
      intros [= <-]. destruct (IH k eq_refl) as (H1 & H2 & H3).
      simpl. repeat split; [assumption | lia |].
      intros [|j] Hj; simpl; [assumption | apply H3; lia].
Qed.

Lemma length_slice_from (n : nat) (s : string) :
  String.length (slice_from n s) = (String.length s - n)%nat.
Proof.
  revert s; induction n as [|n IH]; intros s; [simpl; lia |].
  destruct s as [|c s]; simpl; [reflexivity | apply IH].
Qed.

(** *** [strip] *)

Lemma lstrip_blank (s : string) : blank s = true -> lstrip s = EmptyString.
Proof.
  induction s as [|c s IH]; simpl; [reflexivity |].
  destruct (is_space c); simpl; [assumption | discriminate].
Qed.

Lemma strip_blank (s : string) : blank s = true -> strip s = EmptyString.
Proof. intros H. unfold strip. now rewrite lstrip_blank. Qed.

Lemma lstrip_nonblank (s : string) :
  blank s = false -> exists c r, lstrip s = String c r /\ is_space c = false.
Proof.
  induction s as [|c s IH]; simpl; [discriminate |].
  destruct (is_space c) eqn:E; simpl; [assumption | eauto].
Qed.

Lemma rstrip_head (c : ascii) (r : string) :
  is_space c = false -> rstrip (String c r) <> EmptyString.
Proof. intros E. simpl. rewrite E. destruct (rstrip r); discriminate. Qed.

Lemma strip_nonblank (s : string) : blank s = false -> strip s <> EmptyString.
Proof.
  intros H. destruct (lstrip_nonblank s H) as (c & r & E & Hc).
  unfold strip. rewrite E. now apply rstrip_head.
Qed.

Lemma strip_empty_iff (s : string) : strip s = EmptyString <-> blank s = true.
Proof.
  split; [|apply strip_blank].
  destruct (blank s) eqn:E; [reflexivity |].
  intros H. now apply strip_nonblank in E.
Qed.

Lemma length_zero_iff (s : string) : String.length s = 0%nat <-> s = EmptyString.
Proof. destruct s; simpl; split; congruence. Qed.

Lemma blank_app (s t : string) : blank (s +:+ t) = blank s && blank t.
Proof.
  induction s as [|c s IH]; sapp; simpl; [reflexivity |].
  rewrite IH. now rewrite andb_assoc.
Qed.

(** A text in which something with a non-space character occurs is not
    blank. *)
Lemma occurs_nonblank (sub s : string) :
  blank sub = false -> occurs sub s -> blank s = false.
Proof.
  intros Hsub [pre [post ->]]. rewrite !blank_app, Hsub.
  now rewrite andb_false_l, andb_false_r.
Qed.

End PyFacts.

(** ** The content validator *)

Module ContentFacts.
Import Py Validation Terms PyFacts.
Local Open Scope Z_scope.

(** The guard of the early return is the test for a blank text. *)
Lemma guard_is_blank (content : string) :
  String.eqb content EmptyString || (String.length (strip content) =? 0)%nat = blank content.
Proof.
  destruct (blank content) eqn:E.
  - rewrite (strip_blank _ E). simpl. apply orb_true_r.
  - apply strip_nonblank in E as Hs.
    destruct (String.eqb_spec content EmptyString) as [->|_]; [discriminate|].
    simpl. apply Nat.eqb_neq. now rewrite length_zero_iff.
Qed.

Lemma blank_rejected (content : string) :
  blank content = true ->
  validate_and_score_job_content content = mkValidationResult false 0 [ConteudoVazio].
Proof.
  intros E. unfold validate_and_score_job_content. now rewrite guard_is_blank, E.
Qed.

(** A text that is not blank runs through the five steps in order. *)
Lemma layers_run (content : string) :
  blank content = false ->
  validate_and_score_job_content content =
  let a := list_layer content
             (error_layer (lower content) (before_error_scan content)) in
  mkValidationResult (30 <=? fst a) (fst a) (snd a).
Proof.
  intros E. unfold validate_and_score_job_content, before_error_scan.
  rewrite guard_is_blank, E.
  now destruct (list_layer _ _).
Qed.

(** *** Each step adds to the running pair *)

Lemma structural_layer_adds (n : nat) (a : acc) :
  structural_layer n a =
  (fst a + length_band n, snd a ++ snd (structural_layer n (0, []))).
Proof.
  destruct a as [s rs]. unfold structural_layer, length_band. simpl.
  repeat case_match; simpl; f_equal; lia.
Qed.

Lemma structural_layer_decision (n : nat) :
  decision_of <$> snd (structural_layer n (0, [])) = [LengthBand].
Proof. unfold structural_layer. repeat case_match; reflexivity. Qed.

Lemma semantic_layer_adds (cl : string) (a : acc) :
  semantic_layer cl a =
  (fst a + (critical_score cl + context_score cl),
   snd a ++ [PalavrasCriticas (found critical_keywords cl) 8 (critical_score cl);
             PalavrasContexto (found context_keywords cl) 12 (context_score cl)]).
Proof.
  destruct a as [s rs]. unfold semantic_layer. simpl.
  rewrite <- List.app_assoc. simpl. f_equal. lia.
Qed.

Lemma diversity_layer_adds (content : string) (a : acc) :
  diversity_layer content a =
  (fst a + diversity_points content,
   snd a ++ snd (diversity_layer content (0, []))).
Proof.
  destruct a as [s rs]. unfold diversity_points, diversity_layer. simpl.
  repeat case_match; simpl; rewrite ?app_nil_r; f_equal; lia.
Qed.

Lemma diversity_layer_decision (content : string) :
  decision_of <$> snd (diversity_layer content (0, [])) =
  match words content with [] => [] | _ :: _ => [LexicalDiversity] end.
Proof. unfold diversity_layer. repeat case_match; reflexivity. Qed.

Lemma diversity_points_range (content : string) :
  0 <= diversity_points content <= 15.
Proof.
  unfold diversity_points, diversity_layer. repeat case_match; simpl; lia.
Qed.

Lemma critical_score_range (cl : string) : 0 <= critical_score cl <= 20.
Proof. unfold critical_score. lia. Qed.

Lemma context_score_range (cl : string) : 0 <= context_score cl <= 20.
Proof. unfold context_score. lia. Qed.

Lemma length_band_range (n : nat) : 0 <= length_band n <= 30.
Proof. unfold length_band. repeat case_match; lia. Qed.

(** The running total before the error scan is the sum of the points of the
    steps so far. *)
Lemma before_error_scan_total (content : string) :
  fst (before_error_scan content) =
  length_band (String.length (strip content))
  + (critical_score (lower content) + context_score (lower content))
  + diversity_points content.
Proof.
  unfold before_error_scan.
  rewrite diversity_layer_adds, semantic_layer_adds, structural_layer_adds.
  simpl. lia.
Qed.

Lemma before_error_scan_decisions (content : string) :
  decision_of <$> snd (before_error_scan content) =
  [LengthBand; CriticalCount; ContextCount]
  ++ match words content with [] => [] | _ :: _ => [LexicalDiversity] end.
Proof.
  unfold before_error_scan.
  rewrite diversity_layer_adds, semantic_layer_adds, structural_layer_adds.
  cbn [fst snd]. rewrite !fmap_app, structural_layer_decision, diversity_layer_decision.
  reflexivity.
Qed.

Lemma content_score_range (content : string) :
  0 <= score (validate_and_score_job_content content) <= 100.
Proof.
  destruct (blank content) eqn:E.
  - rewrite blank_rejected by assumption. simpl. lia.
  - rewrite layers_run by assumption. simpl.
    pose proof (before_error_scan_total content) as Ht.
    pose proof (length_band_range (String.length (strip content))).
    pose proof (critical_score_range (lower content)).
    pose proof (context_score_range (lower content)).
    pose proof (diversity_points_range content).
    destruct (before_error_scan content) as [s rs]. simpl in Ht.
    unfold list_layer, error_layer.
    repeat case_match; simplify_eq; simpl; lia.
Qed.

(** *** Keyword hits *)

Lemma found_mono (keywords : list string) (a b : string) :
  (forall kw, contains kw a = true -> contains kw b = true) ->
  (found keywords a <= found keywords b)%nat.
Proof.
  intros H. unfold found.
  induction keywords as [|kw kws IH]; [reflexivity |].
  rewrite !filter_cons.
  destruct (decide (Is_true (contains kw a))) as [Ha|Ha].
  - apply Is_true_true in Ha.
    rewrite decide_True by (rewrite (H _ Ha); exact I). simpl. lia.
  - destruct (decide _); simpl; lia.
Qed.

Lemma found_le_length (keywords : list string) (cl : string) :
  (found keywords cl <= length keywords)%nat.
Proof. unfold found. apply length_filter. Qed.

Lemma has_errors_erro (cl : string) :
  contains "error" cl = true \/ contains "erro" cl = true ->
  has_errors cl = true.
Proof.
  intros H. unfold has_errors, error_indicators. cbn [existsb].
  destruct H as [-> | ->]; rewrite ?orb_true_r; reflexivity.
Qed.

Lemma erro_not_blank (content : string) :
  contains "error" (lower content) = true \/ contains "erro" (lower content) = true ->
  blank content = false.
Proof.
  intros H. rewrite <- blank_lower.
  destruct H as [H | H]; apply contains_spec in H;
    eapply occurs_nonblank; try exact H; reflexivity.
Qed.

Lemma reasons_before_error_scan (content : string) (r : reason) :
  r ∈ snd (before_error_scan content) -> decision_of r <> ErrorScan.
Proof.
  intros Hr Hd.
  assert (ErrorScan ∈ decision_of <$> snd (before_error_scan content)) as Hin.
  { rewrite <- Hd. now apply list_elem_of_fmap_2. }
  rewrite before_error_scan_decisions in Hin.
  destruct (words content); apply list_elem_of_In in Hin; simpl in Hin;
    intuition discriminate.
Qed.

(** The decisions behind the reasons of a text that is not blank. *)
Lemma reasons_layout (content : string) :
  (blank content = false ->
   decision_of <$> reasons (validate_and_score_job_content content)
   = [LengthBand; CriticalCount; ContextCount]
     ++ match words content with [] => [] | _ :: _ => [LexicalDiversity] end
     ++ [ErrorScan]
     ++ (if has_list_structure content then [ListStructure] else []))
  /\ (blank content = false ->
      score (validate_and_score_job_content content)
      = let pre := fst (before_error_scan content) in
        let scanned := if has_errors (lower content)
                       then Z.max 0 (pre - 30) else pre + 15 in
        if has_list_structure content then Z.min 100 (scanned + 5)
        else scanned).
Proof.
  split; intros E; rewrite layers_run by assumption.
  - cbn [reasons].
    pose proof (before_error_scan_decisions content) as Hd.
    destruct (before_error_scan content) as [sc rs]. cbn [snd] in Hd.
    unfold list_layer, error_layer.
    repeat case_match; simplify_eq; cbn [snd];
      rewrite ?fmap_app, Hd, <- ?List.app_assoc; cbn [fmap list_fmap decision_of];
      rewrite ?app_nil_r; reflexivity.
  - cbn [score]. cbv zeta.
    destruct (before_error_scan content) as [sc rs]. cbn [fst].
    unfold list_layer, error_layer.
    repeat case_match; simplify_eq; reflexivity.
Qed.

End ContentFacts.

Module ContentClaims.
Import Py Validation Terms PyFacts ContentFacts.
Local Open Scope Z_scope.

(** C5 (as amended).  For every content that is not blank, the structural
    layer awards the points of the band of the length of the content stripped
    of surrounding whitespace: 0 below 500, 10 for 500 to 999, 20 for 1000 to
    2999, 30 from 3000 on; the other steps start from that total, so the
    running total before the error scan is the band plus the semantic and the
    diversity points.  A stripped length of 499 gets 0 and one of 500 gets
    10. *)
Theorem structural_band_of_stripped_length (content : string) :
  blank content = false ->
  let n := String.length (strip content) in
  structural_points content = length_band n
  /\ ((n < 500)%nat -> structural_points content = 0)
  /\ ((500 <= n < 1000)%nat -> structural_points content = 10)
  /\ ((1000 <= n < 3000)%nat -> structural_points content = 20)
  /\ ((3000 <= n)%nat -> structural_points content = 30)
  /\ fst (before_error_scan content)
     = structural_points content
       + (critical_score (lower content) + context_score (lower content))
       + diversity_points content
  /\ score (validate_and_score_job_content content)
     = fst (list_layer content
              (error_layer (lower content) (before_error_scan content))).
Proof.
  intros E n.
  assert (structural_points content = length_band n) as Hb.
  { unfold structural_points. fold n. now rewrite structural_layer_adds. }
  split; [exact Hb |].
  rewrite Hb, before_error_scan_total, layers_run by assumption. fold n.
  unfold length_band.
  repeat split; try reflexivity; intros Hn; repeat case_match;
    try reflexivity;
    repeat match goal with
           | H : (_ <? _)%nat = true |- _ => apply Nat.ltb_lt in H
           | H : (_ <? _)%nat = false |- _ => apply Nat.ltb_ge in H
           end; lia.
Qed.

Lemma structural_band_of_stripped_length_witness :
  blank (rep 500 "a") = false
  /\ structural_points (rep 500 "a")
     = length_band (String.length (strip (rep 500 "a"))).
Proof.
  split; [vm_compute; reflexivity |].
  refine (proj1 (structural_band_of_stripped_length (rep 500 "a") _)).
  vm_compute; reflexivity.
Defined.

(** C5 (as stated) fails: a content of exactly 500 characters, 499 letters and
    a final line feed, is measured after stripping, gets no structural point
    and the score 30, where 500 letters get 10 and the score 40. *)
Lemma structural_band_not_of_raw_length :
  padded_500 <> EmptyString
  /\ String.length padded_500 = 500%nat
  /\ structural_points padded_500 = 0
  /\ structural_points padded_500 <> length_band (String.length padded_500)
  /\ score (validate_and_score_job_content padded_500) = 30
  /\ score (validate_and_score_job_content (rep 500 "a")) = 40.
Proof. vm_compute. repeat split; discriminate. Qed.

(** C6.  The semantic layer adds min(20, 5 x critical hits) + min(20, 2 x
    context hits), a hit being a keyword that occurs in the lower-cased text;
    every keyword that occurs in the lower-cased [t] occurs in the lower-cased
    [t ++ s], so the hit counts and the semantic points of [t ++ s] are at
    least those of [t]. *)
Theorem semantic_points_monotone (t s : string) :
  semantic_points t
  = Z.min 20 (Z.of_nat (found critical_keywords (lower t)) * 5)
    + Z.min 20 (Z.of_nat (found context_keywords (lower t)) * 2)
  /\ (forall a, fst (semantic_layer (lower t) a) = fst a + semantic_points t)
  /\ (forall kw, occurs kw (lower t) -> occurs kw (lower (t +:+ s)))
  /\ (forall keywords,
        (found keywords (lower t) <= found keywords (lower (t +:+ s)))%nat)
  /\ semantic_points t <= semantic_points (t +:+ s).
Proof.
  assert (forall kw, contains kw (lower t) = true ->
                     contains kw (lower (t +:+ s)) = true) as Hc.
  { intros kw. rewrite lower_app. apply contains_app. }
  assert (forall keywords,
            (found keywords (lower t) <= found keywords (lower (t +:+ s)))%nat)
    as Hf by (intros; now apply found_mono).
  assert (forall u, semantic_points u
                    = critical_score (lower u) + context_score (lower u)) as Hs.
  { intros u. unfold semantic_points. now rewrite semantic_layer_adds. }
  split; [| split; [| split; [| split]]].
  - rewrite Hs. reflexivity.
  - intros a. now rewrite semantic_layer_adds, Hs.
  - intros kw. rewrite <- !contains_spec. apply Hc.
  - exact Hf.
  - rewrite !Hs. unfold critical_score, context_score.
    pose proof (Hf critical_keywords). pose proof (Hf context_keywords). lia.
Qed.

(** C7 (as amended).  For every content that is not blank the reasons are, in
    this order: the length band, the critical-keyword count, the
    context-keyword count, the lexical diversity when the content has a word
    longer than three characters (and no entry otherwise), the
    error-indicator scan, and the list-structure note when list markup is
    found.  Whatever the content, the reasons are not empty when [is_valid]
    is false. *)
Theorem reasons_follow_the_steps (content : string) :
  (blank content = false ->
   decision_of <$> reasons (validate_and_score_job_content content)
   = [LengthBand; CriticalCount; ContextCount]
     ++ match words content with [] => [] | _ :: _ => [LexicalDiversity] end
     ++ [ErrorScan]
     ++ (if has_list_structure content then [ListStructure] else []))
  /\ (is_valid (validate_and_score_job_content content) = false ->
      reasons (validate_and_score_job_content content) <> []).
Proof.
  assert (blank content = false ->
   decision_of <$> reasons (validate_and_score_job_content content)
   = [LengthBand; CriticalCount; ContextCount]
     ++ match words content with [] => [] | _ :: _ => [LexicalDiversity] end
     ++ [ErrorScan]
     ++ (if has_list_structure content then [ListStructure] else [])) as H.
  { intros E. rewrite layers_run by assumption. cbn [reasons].
    pose proof (before_error_scan_decisions content) as Hd.
    destruct (before_error_scan content) as [sc rs]. cbn [snd] in Hd.
    unfold list_layer, error_layer.
    repeat case_match; simplify_eq; cbn [snd];
      rewrite ?fmap_app, Hd, <- ?List.app_assoc; cbn [fmap list_fmap decision_of];
      rewrite ?app_nil_r; reflexivity. }
  split; [exact H |].
  destruct (blank content) eqn:E.
  - rewrite blank_rejected by assumption. discriminate.
  - intros _ Hnil. specialize (H eq_refl). rewrite Hnil in H. discriminate.
Qed.

Lemma reasons_follow_the_steps_witness :
  blank "- Requirements: error handling experience" = false
  /\ decision_of
     <$> reasons (validate_and_score_job_content
                    "- Requirements: error handling experience")
     = [LengthBand; CriticalCount; ContextCount; LexicalDiversity; ErrorScan;
        ListStructure].
Proof.
  split; [vm_compute; reflexivity |].
  refine (proj1 (reasons_follow_the_steps _) _).
  vm_compute; reflexivity.
Defined.

(** C7 (as stated) fails: "abc" is neither empty nor blank, and its reasons
    hold no lexical-diversity entry. *)
Lemma reasons_without_diversity_entry :
  blank "abc" = false
  /\ reasons (validate_and_score_job_content "abc")
     = [ConteudoMuitoCurto 3; PalavrasCriticas 0 8 0; PalavrasContexto 0 12 0;
        NenhumIndicadorDeErro]
  /\ LexicalDiversity
     ∉ decision_of <$> reasons (validate_and_score_job_content "abc").
Proof.
  split; [reflexivity |]. split; [vm_compute; reflexivity |].
  intros H. apply list_elem_of_In in H. vm_compute in H. intuition discriminate.
Qed.

(** C10.  For every content in whose lower-cased text "error" or "erro"
    occurs, the error-indicator branch is taken: the running total [pre] of
    the earlier steps becomes max(0, pre - 30), no 15 is added, the warning
    is appended and the no-error reason is not; only the list bonus may
    follow. *)
Theorem erro_takes_the_error_branch (content : string) :
  contains "error" (lower content) = true
  \/ contains "erro" (lower content) = true ->
  let pre := fst (before_error_scan content) in
  let r := validate_and_score_job_content content in
  has_errors (lower content) = true
  /\ error_layer (lower content) (before_error_scan content)
     = (Z.max 0 (pre - 30), snd (before_error_scan content) ++ [IndicadoresDeErro])
  /\ score r = (if has_list_structure content
                then Z.min 100 (Z.max 0 (pre - 30) + 5)
                else Z.max 0 (pre - 30))
  /\ IndicadoresDeErro ∈ reasons r
  /\ NenhumIndicadorDeErro ∉ reasons r.
Proof.
  intros H pre r.
  pose proof (has_errors_erro _ H) as He.
  pose proof (erro_not_blank _ H) as Hb.
  pose proof (reasons_before_error_scan content NenhumIndicadorDeErro) as Hn.
  subst r. rewrite layers_run by assumption. subst pre.
  destruct (before_error_scan content) as [sc rs]. cbn [fst snd] in *.
  unfold error_layer, list_layer. rewrite He.
  split; [reflexivity |]. split; [reflexivity |].
  destruct (has_list_structure content); cbn [fst snd score reasons];
    (split; [reflexivity |]);
    rewrite ?elem_of_app, !list_elem_of_singleton; split; eauto;
    intros Hin; destruct_or?; try discriminate; now apply Hn.
Qed.

Lemma erro_takes_the_error_branch_witness :
  contains "error" (lower "- Requirements: error handling experience") = true
  /\ score (validate_and_score_job_content
              "- Requirements: error handling experience") = 5.
Proof.
  split; [vm_compute; reflexivity |].
  refine (eq_trans
            (proj1 (proj2 (proj2
               (erro_takes_the_error_branch
                  "- Requirements: error handling experience" _)))) _);
    [left |]; vm_compute; reflexivity.
Defined.

End ContentClaims.

(** ** The details validator *)

Module DetailsFacts.
Import Py Validation Terms PyFacts.
Local Open Scope Z_scope.

Lemma generic_iff (field : string) :
  generic field <-> _normalize_generic_term field ∈ normalized_generics.
Proof.
  unfold generic, normalized_generics.
  rewrite elem_of_list_to_set, list_elem_of_fmap.
  split; intros (term & H1 & H2); exists term; auto.
Qed.

Lemma az09_not_space (c : ascii) : is_az09 c = true -> is_space c = false.
Proof. each_char c; discriminate. Qed.

Lemma keep_az09_nonblank (s : string) :
  keep is_az09 s <> EmptyString -> blank s = false.
Proof.
  induction s as [|c s IH]; simpl; [congruence |].
  destruct (is_az09 c) eqn:E.
  - intros _. now rewrite (az09_not_space _ E).
  - intros H. rewrite (IH H). apply andb_false_r.
Qed.

Lemma empty_not_generic : EmptyString ∉ normalized_generics.
Proof. apply (bool_decide_eq_false_1 _). vm_compute. reflexivity. Qed.

Lemma generic_not_blank (field : string) :
  _normalize_generic_term field ∈ normalized_generics -> blank field = false.
Proof.
  intros H. rewrite <- blank_lower. apply keep_az09_nonblank.
  intros E. unfold _normalize_generic_term in H. rewrite E in H.
  now apply empty_not_generic.
Qed.

(** The guard for an absent field is the test for a blank one. *)
Lemma absent_is_blank (field : string) :
  String.eqb field EmptyString || (String.length (strip (lower field)) =? 0)%nat
  = blank field.
Proof.
  rewrite <- blank_lower.
  destruct (blank (lower field)) eqn:E.
  - rewrite (strip_blank _ E). simpl. apply orb_true_r.
  - apply strip_nonblank in E as Hs.
    destruct (String.eqb_spec field EmptyString) as [->|_]; [discriminate |].
    simpl. apply Nat.eqb_neq. now rewrite length_zero_iff.
Qed.

Lemma in_band_not_blank (field : string) :
  (2 <= String.length (strip (lower field)))%nat -> blank field = false.
Proof.
  intros H. destruct (blank field) eqn:E; [| reflexivity].
  rewrite <- blank_lower in E. rewrite (strip_blank _ E) in H. simpl in H. lia.
Qed.

Lemma band_points_50 (lo : nat) (field : string) :
  band_points lo field = 50
  <-> (lo <= String.length (strip (lower field)) <= 100)%nat.
Proof.
  unfold band_points.
  destruct (Nat.ltb_spec (String.length (strip (lower field))) lo);
    destruct (Nat.ltb_spec 100 (String.length (strip (lower field))));
    split; intros; try discriminate; try lia.
Qed.

Lemma band_points_values (lo : nat) (field : string) :
  band_points lo field = 0 \/ band_points lo field = 50.
Proof. unfold band_points. repeat case_match; auto. Qed.

(** The five outcomes of the validator. *)
Lemma details_cases (job_title company : string) :
  let r := validate_and_score_job_details job_title company in
  (blank job_title = true /\ r = mkValidationResult false 0 [TituloAusente])
  \/ (blank job_title = false /\ generic job_title
      /\ r = mkValidationResult false 0 [TituloGenerico job_title])
  \/ (blank job_title = false /\ ~ generic job_title /\ blank company = true
      /\ r = mkValidationResult false 0 [EmpresaAusente])
  \/ (blank job_title = false /\ ~ generic job_title /\ blank company = false
      /\ generic company
      /\ r = mkValidationResult false 0 [EmpresaGenerica company])
  \/ (blank job_title = false /\ ~ generic job_title /\ blank company = false
      /\ ~ generic company
      /\ r = mkValidationResult
               (90 <=? band_points 5 job_title + band_points 2 company)
               (band_points 5 job_title + band_points 2 company)
               [title_band_reason job_title; company_band_reason company]).
Proof.
  intros r. subst r. unfold validate_and_score_job_details.
  rewrite !absent_is_blank.
  destruct (blank job_title) eqn:Et; [left; auto | right].
  case_bool_decide as Hgt; [left; rewrite generic_iff; auto 10 | right].
  assert (~ generic job_title) by now rewrite generic_iff.
  set (tp := if (String.length (strip (lower job_title)) <? 5)%nat then _ else _).
  assert (tp = (band_points 5 job_title, [title_band_reason job_title])) as ->.
  { subst tp. unfold band_points, title_band_reason. repeat case_match; eauto. }
  destruct (blank company) eqn:Ec; [left; auto 10 | right].
  case_bool_decide as Hgc; [left; rewrite (generic_iff company); auto 10 | right].
  assert (~ generic company) by now rewrite generic_iff.
  set (cp := if (String.length (strip (lower company)) <? 2)%nat then _ else _).
  assert (cp = (band_points 5 job_title + band_points 2 company,
                [title_band_reason job_title; company_band_reason company])) as ->.
  { subst cp. unfold band_points, company_band_reason.
    repeat case_match; simpl; f_equal; lia. }
  auto 10.
Qed.

Lemma band_reasons_not_generic (job_title company : string) (x : reason) :
  x ∈ [title_band_reason job_title; company_band_reason company] ->
  (forall t, x <> TituloGenerico t) /\ (forall c, x <> EmpresaGenerica c).
Proof.
  intros H. apply list_elem_of_In in H. simpl in H.
  unfold title_band_reason, company_band_reason in H.
  destruct H as [<- | [<- | []]]; repeat case_match; split; discriminate.
Qed.

End DetailsFacts.

Module DetailsClaims.
Import Py Validation Terms PyFacts DetailsFacts.
Local Open Scope Z_scope.

(** C4.  A field is rejected as generic exactly when its normalised form
    equals the normalised form of a blacklist entry: a generic title gives
    (false, 0, [generic-title reason]) whatever the company is; the
    generic-title reason appears only for such a title and the
    generic-company reason only for such a company.  "Companhia ABC" is not
    generic and is accepted, and so is a company whose normalised form merely
    contains "company". *)
Theorem generic_terms_match_exactly (job_title company : string) :
  let r := validate_and_score_job_details job_title company in
  (generic job_title ->
   r = mkValidationResult false 0 [TituloGenerico job_title])
  /\ ((exists x, TituloGenerico x ∈ reasons r) <-> generic job_title)
  /\ ((exists x, EmpresaGenerica x ∈ reasons r)
      <-> blank job_title = false /\ ~ generic job_title /\ generic company)
  /\ ~ generic "Companhia ABC"
  /\ validate_and_score_job_details "Software Engineer" "Companhia ABC"
     = mkValidationResult true 100 [TituloValido; EmpresaValida]
  /\ contains "company" (_normalize_generic_term "Company Store") = true
  /\ validate_and_score_job_details "Software Engineer" "Company Store"
     = mkValidationResult true 100 [TituloValido; EmpresaValida].
Proof.
  intros r.
  assert (forall f, generic f -> blank f = false) as Hnb.
  { intros f Hf. apply generic_not_blank. now apply generic_iff. }
  pose proof (details_cases job_title company) as Hc. cbn zeta in Hc. fold r in Hc.
  split; [| split; [| split; [| split; [| split; [| split]]]]].
  - intros Hg.
    destruct Hc as [(Hb & _) | [(_ & _ & ->) | [(_ & Hn & _) | [(_ & Hn & _) | (_ & Hn & _)]]]];
      try contradiction; [| reflexivity].
    rewrite (Hnb _ Hg) in Hb. discriminate.
  - destruct Hc as [(Hb & ->) | [(_ & Hg & ->) | [(_ & Hn & _ & ->) | [(_ & Hn & _ & _ & ->) | (_ & Hn & _ & _ & ->)]]]];
      cbn [reasons]; split; intros Hx.
    + destruct Hx as [x Hx]. apply list_elem_of_singleton in Hx. discriminate.
    + rewrite (Hnb _ Hx) in Hb. discriminate.
    + exact Hg.
    + eexists. apply list_elem_of_singleton. reflexivity.
    + destruct Hx as [x Hx]. apply list_elem_of_singleton in Hx. discriminate.
    + contradiction.
    + destruct Hx as [x Hx]. apply list_elem_of_singleton in Hx. discriminate.
    + contradiction.
    + destruct Hx as [x Hx].
      destruct (band_reasons_not_generic _ _ _ Hx) as [H1 _]. now specialize (H1 x).
    + contradiction.
  - destruct Hc as [(Hb & ->) | [(_ & Hg & ->) | [(_ & Hn & Hbc & ->) | [(Hb & Hn & _ & Hg & ->) | (_ & _ & _ & Hn & ->)]]]];
      cbn [reasons]; split; intros Hx.
    + destruct Hx as [x Hx]. apply list_elem_of_singleton in Hx. discriminate.
    + destruct Hx as (H1 & _). congruence.
    + destruct Hx as [x Hx]. apply list_elem_of_singleton in Hx. discriminate.
    + destruct Hx as (_ & H1 & _). contradiction.
    + destruct Hx as [x Hx]. apply list_elem_of_singleton in Hx. discriminate.
    + destruct Hx as (_ & _ & H1). rewrite (Hnb _ H1) in Hbc. discriminate.
    + auto.
    + eexists. apply list_elem_of_singleton. reflexivity.
    + destruct Hx as [x Hx].
      destruct (band_reasons_not_generic _ _ _ Hx) as [_ H1]. now specialize (H1 x).
    + destruct Hx as (_ & _ & H1). contradiction.
  - rewrite generic_iff. apply (bool_decide_eq_false_1 _). vm_compute. reflexivity.
  - vm_compute. reflexivity.
  - vm_compute. reflexivity.
  - vm_compute. reflexivity.
Qed.

Lemma generic_terms_match_exactly_witness :
  generic "Not Found"
  /\ validate_and_score_job_details "Not Found" "Acme"
     = mkValidationResult false 0 [TituloGenerico "Not Found"].
Proof.
  assert (generic "Not Found") as H.
  { exists "not found".
    split; [apply list_elem_of_In; simpl; auto | vm_compute; reflexivity]. }
  split; [exact H |].
  exact (proj1 (generic_terms_match_exactly "Not Found" "Acme") H).
Defined.

(** C9 (as amended).  For every title and company the score is 0, 50 or 100,
    never 90; [is_valid] is true exactly when the score is 100, which is
    exactly when neither field is generic and both pass their length band (5
    to 100 characters for the title, 2 to 100 for the company, measured after
    lower-casing and stripping). *)
Theorem details_score_is_0_50_or_100 (job_title company : string) :
  let r := validate_and_score_job_details job_title company in
  (score r = 0 \/ score r = 50 \/ score r = 100)
  /\ score r <> 90
  /\ (is_valid r = true <-> score r = 100)
  /\ (score r = 100
      <-> ~ generic job_title /\ title_in_band job_title
          /\ ~ generic company /\ company_in_band company).
Proof.
  intros r.
  pose proof (details_cases job_title company) as Hc. cbn zeta in Hc. fold r in Hc.
  pose proof (band_points_values 5 job_title) as Ht.
  pose proof (band_points_values 2 company) as Hco.
  pose proof (band_points_50 5 job_title) as Ht50.
  pose proof (band_points_50 2 company) as Hc50.
  unfold title_in_band, company_in_band.
  destruct Hc as [(Hb & ->) | [(_ & Hg & ->) | [(_ & Hn & Hbc & ->) | [(Hb & Hn & _ & Hg & ->) | (_ & Hn & _ & Hnc & ->)]]]];
    cbn [score is_valid].
  - repeat split; auto; try discriminate; try lia.
    intros (_ & Hl & _). rewrite in_band_not_blank in Hb by lia. discriminate.
  - repeat split; auto; try discriminate; try lia.
    intros (? & _). contradiction.
  - repeat split; auto; try discriminate; try lia.
    intros (_ & _ & _ & Hl). rewrite in_band_not_blank in Hbc by lia. discriminate.
  - repeat split; auto; try discriminate; try lia.
    intros (_ & _ & ? & _). contradiction.
  - rewrite Z.leb_le.
    split; [lia |]. split; [lia |]. split; [lia |].
    split.
    + intros H. assert (band_points 5 job_title = 50) as H1 by lia.
      assert (band_points 2 company = 50) as H2 by lia.
      apply Ht50 in H1. apply Hc50 in H2. auto.
    + intros (_ & H1 & _ & H2). apply Ht50 in H1. apply Hc50 in H2. lia.
Qed.

(** C9 (as stated) fails: a title and a company can both lie in their length
    bands and yet be invalid, the company being generic. *)
Lemma in_band_yet_invalid :
  title_in_band "Software Engineer"
  /\ company_in_band "Unknown"
  /\ validate_and_score_job_details "Software Engineer" "Unknown"
     = mkValidationResult false 0 [EmpresaGenerica "Unknown"]
  /\ ~ (is_valid (validate_and_score_job_details "Software Engineer" "Unknown")
        = true
        <-> title_in_band "Software Engineer" /\ company_in_band "Unknown").
Proof.
  assert (title_in_band "Software Engineer") as Ht
    by (unfold title_in_band; vm_compute; lia).
  assert (company_in_band "Unknown") as Hc
    by (unfold company_in_band; vm_compute; lia).
  split; [exact Ht |]. split; [exact Hc |]. split; [vm_compute; reflexivity |].
  intros [_ H]. specialize (H (conj Ht Hc)). vm_compute in H. discriminate.
Qed.

End DetailsClaims.

(** ** The compatibility scorer *)

Module CompatFacts.
Import Py Compatibility CompatTerms.
Local Open Scope Z_scope.

(** *** Rounding *)

Lemma round_le (x : Q) (k : Z) :
  Qnum x <= k * Zpos (Qden x) -> round x <= k.
Proof.
  unfold round. set (n := Qnum x). set (d := Zpos (Qden x)).
  assert (0 < d) as Hd by (subst d; lia).
  pose proof (Z.div_mod n d ltac:(lia)) as Hdm.
  pose proof (Z.mod_pos_bound n d Hd) as Hr.
  intros H. repeat case_match; nia.
Qed.

Lemma round_ge (x : Q) (k : Z) :
  k * Zpos (Qden x) <= Qnum x -> k <= round x.
Proof.
  unfold round. set (n := Qnum x). set (d := Zpos (Qden x)).
  assert (0 < d) as Hd by (subst d; lia).
  pose proof (Z.div_mod n d ltac:(lia)) as Hdm.
  pose proof (Z.mod_pos_bound n d Hd) as Hr.
  intros H. repeat case_match; nia.
Qed.

(** [round] returns a nearest integer. *)
Lemma round_nearest (x : Q) :
  2 * Z.abs (Qnum x - round x * Zpos (Qden x)) <= Zpos (Qden x).
Proof.
  unfold round. set (n := Qnum x). set (d := Zpos (Qden x)).
  assert (0 < d) as Hd by (subst d; lia).
  pose proof (Z.div_mod n d ltac:(lia)) as Hdm.
  pose proof (Z.mod_pos_bound n d Hd) as Hr.
  repeat case_match;
    repeat match goal with
           | H : (_ <? _) = true |- _ => apply Z.ltb_lt in H
           | H : (_ <? _) = false |- _ => apply Z.ltb_ge in H
           end; nia.
Qed.

Lemma ratio_times_40 (m n : nat) :
  (0 < n)%nat -> (m <= n)%nat -> 0 <= round (ratio m n * 40) <= 40.
Proof.
  intros Hn Hm. split; [apply round_ge | apply round_le];
    unfold ratio; cbn [Qmult Qnum Qden]; nia.
Qed.

Lemma round_ndigits_3 (x : Q) :
  round_ndigits x 3 = (round (x * 1000) # 1000)%Q.
Proof. reflexivity. Qed.

Lemma ratio_rounded_range (m n : nat) :
  (0 < n)%nat -> (m <= n)%nat ->
  (0 <= round_ndigits (ratio m n) 3 <= 1)%Q.
Proof.
  intros Hn Hm. rewrite round_ndigits_3. unfold Qle. cbn [Qnum Qden].
  assert (0 <= round (ratio m n * 1000) <= 1000) as H.
  { split; [apply round_ge | apply round_le];
      unfold ratio; cbn [Qmult Qnum Qden]; nia. }
  lia.
Qed.

Lemma rounding_agrees_30 : rounding_agrees_upto 30 = true.
Proof. vm_compute. reflexivity. Qed.

Lemma rounding_agrees (m n : nat) :
  (0 < n <= 30)%nat -> (m <= n)%nat ->
  round (ratio m n * 40) = round (round_ndigits (ratio m n) 3 * 40).
Proof.
  intros Hn Hm. pose proof rounding_agrees_30 as H.
  unfold rounding_agrees_upto in H.
  rewrite forallb_forall in H. specialize (H n).
  rewrite forallb_forall in H.
  apply Z.eqb_eq. apply H; apply in_seq; lia.
Qed.

(** *** [Counter] *)

Lemma Counter_snoc (tokens : list string) (k : string) :
  Counter (tokens ++ [k]) = counter_incr k (Counter tokens).
Proof. unfold Counter. now rewrite fold_left_app. Qed.

Lemma fromkeys_snoc (tokens : list string) (k : string) :
  fromkeys (tokens ++ [k])
  = if bool_decide (k ∈ fromkeys tokens) then fromkeys tokens
    else fromkeys tokens ++ [k].
Proof. unfold fromkeys. now rewrite fold_left_app. Qed.

Lemma counter_incr_keys (k : string) (c : counter) :
  fst <$> counter_incr k c
  = if bool_decide (k ∈ fst <$> c) then fst <$> c else (fst <$> c) ++ [k].
Proof.
  induction c as [|[k' n] c IH]; [reflexivity |].
  cbn [counter_incr]. destruct (String.eqb_spec k k') as [->|Hne].
  - rewrite !fmap_cons. cbn [fst].
    rewrite bool_decide_eq_true_2 by constructor. reflexivity.
  - rewrite !fmap_cons. cbn [fst]. rewrite IH.
    case_bool_decide as E.
    + rewrite bool_decide_eq_true_2 by now constructor. reflexivity.
    + rewrite bool_decide_eq_false_2; [reflexivity |].
      rewrite elem_of_cons. intros [H | H]; contradiction.
Qed.

(** The keys of the counter are the tokens in order of first occurrence. *)
Lemma Counter_keys (tokens : list string) :
  fst <$> Counter tokens = fromkeys tokens.
Proof.
  induction tokens as [|k tokens IH] using rev_ind; [reflexivity |].
  now rewrite Counter_snoc, fromkeys_snoc, counter_incr_keys, IH.
Qed.

Lemma fromkeys_elem (tokens : list string) (k : string) :
  k ∈ fromkeys tokens <-> k ∈ tokens.
Proof.
  induction tokens as [|x tokens IH] using rev_ind; [reflexivity |].
  rewrite fromkeys_snoc, elem_of_app, list_elem_of_singleton, <- IH.
  case_bool_decide as Hx; [| rewrite elem_of_app, list_elem_of_singleton; tauto].
  split; [tauto | intros [? | ->]; assumption].
Qed.

Lemma fromkeys_NoDup (tokens : list string) : NoDup (fromkeys tokens).
Proof.
  induction tokens as [|x tokens IH] using rev_ind; [constructor |].
  rewrite fromkeys_snoc. case_bool_decide as Hx; [assumption |].
  apply NoDup_app. split; [assumption |]. split; [| apply NoDup_singleton].
  intros y Hy Hy'. apply list_elem_of_singleton in Hy'. now subst.
Qed.

Lemma counter_get_incr (k k' : string) (c : counter) :
  counter_get (counter_incr k c) k'
  = if String.eqb k' k then S (counter_get c k') else counter_get c k'.
Proof.
  induction c as [|[x n] c IH]; cbn [counter_incr counter_get].
  - destruct (String.eqb_spec k' k); reflexivity.
  - destruct (String.eqb_spec k x) as [->|Hkx]; cbn [counter_get].
    + destruct (String.eqb_spec k' x); reflexivity.
    + destruct (String.eqb_spec k' x) as [->|Hk'x].
      * destruct (String.eqb_spec x k); [congruence | reflexivity].
      * exact IH.
Qed.

(** The count of a key is the number of its occurrences among the tokens. *)
Lemma Counter_get (tokens : list string) (k : string) :
  counter_get (Counter tokens) k = count_occ string_dec tokens k.
Proof.
  induction tokens as [|x tokens IH] using rev_ind; [reflexivity |].
  rewrite Counter_snoc, counter_get_incr, count_occ_app, IH. cbn [count_occ].
  destruct (String.eqb_spec k x) as [Heq|Hne]; destruct (string_dec x k);
    try congruence; lia.
Qed.

Lemma counter_get_elem (c : counter) (k : string) (n : nat) :
  NoDup (fst <$> c) -> (k, n) ∈ c -> counter_get c k = n.
Proof.
  induction c as [|[x m] c IH]; intros Hnd Hin.
  - now apply elem_of_nil in Hin.
  - cbn [fmap list_fmap fst] in Hnd. apply NoDup_cons in Hnd as [Hx Hnd].
    cbn [counter_get]. apply elem_of_cons in Hin as [Heq | Hin].
    + injection Heq as -> ->. now rewrite String.eqb_refl.
    + destruct (String.eqb_spec k x) as [->|_]; [| now apply IH].
      exfalso. apply Hx. apply (list_elem_of_fmap_2 fst) in Hin. exact Hin.
Qed.

Lemma counter_incr_total (k : string) (c : counter) :
  total (counter_incr k c) = S (total c).
Proof.
  unfold total. induction c as [|[x n] c IH]; [reflexivity |].
  cbn [counter_incr]. destruct (String.eqb k x); cbn in *; [lia |].
  rewrite IH. lia.
Qed.

(** The counts add up to the number of tokens. *)
Lemma Counter_total (tokens : list string) :
  total (Counter tokens) = length tokens.
Proof.
  induction tokens as [|x tokens IH] using rev_ind; [reflexivity |].
  rewrite Counter_snoc, counter_incr_total, IH, length_app. simpl. lia.
Qed.

Lemma Counter_nil (tokens : list string) : Counter tokens = [] <-> tokens = [].
Proof.
  split; [| intros ->; reflexivity].
  intros H. apply (f_equal total) in H. rewrite Counter_total in H.
  now destruct tokens.
Qed.

(** *** [most_common] *)

Lemma insert_desc_perm (x : string * nat) (l : counter) :
  insert_desc x l ≡ₚ x :: l.
Proof.
  induction l as [|y l IH]; [reflexivity |].
  cbn [insert_desc]. destruct (snd y <=? snd x)%nat; [reflexivity |].
  rewrite IH. apply Permutation_swap.
Qed.

Lemma sorted_desc_perm (l : counter) : sorted_desc l ≡ₚ l.
Proof.
  induction l as [|x l IH]; [reflexivity |].
  cbn [sorted_desc]. now rewrite insert_desc_perm, IH.
Qed.

Lemma insert_desc_sorted (x : string * nat) (l : counter) :
  StronglySorted (fun a b => (snd b <= snd a)%nat) l ->
  StronglySorted (fun a b => (snd b <= snd a)%nat) (insert_desc x l).
Proof.
  induction 1 as [|y l Hs IH Hy]; cbn [insert_desc].
  - repeat constructor.
  - destruct (Nat.leb_spec (snd y) (snd x)) as [Hle | Hgt].
    + constructor; [now constructor |].
      constructor; [assumption |].
      eapply Forall_impl; [exact Hy |]. intros z Hz. cbn in *. lia.
    + constructor; [assumption |].
      rewrite insert_desc_perm. constructor; [lia | assumption].
Qed.

Lemma sorted_desc_sorted (l : counter) :
  StronglySorted (fun a b => (snd b <= snd a)%nat) (sorted_desc l).
Proof.
  induction l as [|x l IH]; [constructor | now apply insert_desc_sorted].
Qed.

Lemma Forall_sublist {A} (P : A -> Prop) (l k : list A) :
  l `sublist_of` k -> Forall P k -> Forall P l.
Proof.
  induction 1 as [| x l k Hs IH | x l k Hs IH]; intros Hk;
    [constructor | | ]; apply Forall_cons in Hk as [Hx Hk]; auto.
Qed.

Lemma StronglySorted_sublist {A} (R : relation A) (l k : list A) :
  l `sublist_of` k -> StronglySorted R k -> StronglySorted R l.
Proof.
  induction 1 as [| x l k Hs IH | x l k Hs IH]; intros Hk.
  - constructor.
  - apply StronglySorted_inv in Hk as [Hk Hx].
    constructor; [auto |]. eapply Forall_sublist; eauto.
  - apply StronglySorted_inv in Hk as [Hk _]. auto.
Qed.

(** *** The ranked keywords of a posting *)

Lemma ranked_perm (jd : string) : ranked jd ≡ₚ fromkeys (_extract_tokens jd).
Proof.
  unfold ranked, most_common. now rewrite sorted_desc_perm, Counter_keys.
Qed.

Lemma ranked_NoDup (jd : string) : NoDup (ranked jd).
Proof. rewrite ranked_perm. apply fromkeys_NoDup. Qed.

Lemma ranked_elem (jd : string) (k : string) :
  k ∈ ranked jd <-> k ∈ _extract_tokens jd.
Proof. rewrite ranked_perm. apply fromkeys_elem. Qed.

Lemma keys_sorted (g : string -> nat) (l : counter) :
  (forall p, p ∈ l -> snd p = g (fst p)) ->
  StronglySorted (fun a b => (snd b <= snd a)%nat) l ->
  StronglySorted (fun a b => (g b <= g a)%nat) (fst <$> l).
Proof.
  intros Hg. induction 1 as [|x l Hs IH Hx]; [constructor |].
  rewrite fmap_cons. constructor.
  - apply IH. intros p Hp. apply Hg. now constructor.
  - apply Forall_fmap. apply Forall_forall. intros y Hy. cbn.
    rewrite Forall_forall in Hx. specialize (Hx y Hy).
    rewrite <- (Hg x) by constructor.
    rewrite <- (Hg y) by now constructor. exact Hx.
Qed.

(** The ranked keywords are in descending order of frequency. *)
Lemma ranked_sorted (jd : string) : StronglySorted (freq_desc jd) (ranked jd).
Proof.
  unfold ranked, most_common, freq_desc.
  apply keys_sorted; [| apply sorted_desc_sorted].
  intros [k n] Hp. rewrite sorted_desc_perm in Hp. cbn.
  unfold freq. rewrite <- Counter_get. symmetry.
  apply counter_get_elem; [| exact Hp].
  rewrite Counter_keys. apply fromkeys_NoDup.
Qed.

Lemma top30_NoDup (jd : string) : NoDup (top30 jd).
Proof.
  unfold top30. exact (sublist_NoDup _ _ (ranked_NoDup jd) (sublist_take _ _)).
Qed.

Lemma top30_set_size (jd : string) :
  size (top30_set jd) = Nat.min 30 (length (ranked jd)).
Proof.
  unfold top30_set. rewrite size_list_to_set by apply top30_NoDup.
  apply length_take.
Qed.

Lemma resume_set_fromkeys (cv : string) :
  list_to_set (fromkeys (_extract_tokens cv)) = resume_set cv.
Proof.
  unfold resume_set. apply set_eq. intros k.
  now rewrite !elem_of_list_to_set, fromkeys_elem.
Qed.

Lemma matched_size (cv jd : string) :
  (size (top30_set jd ∩ resume_set cv) <= size (top30_set jd))%nat.
Proof. apply subseteq_size. apply intersection_subseteq_l. Qed.

(** *** The three outcomes of the scorer *)

Lemma compatibility_unfold (cv jd : string) :
  calculate_compatibility cv jd =
  match _extract_tokens jd with
  | [] => insufficient_data []
  | _ :: _ =>
      if (size (top30_set jd) <? 5)%nat
         || (length (_extract_tokens jd) <? 10)%nat
      then insufficient_data (take 5 (top30 jd))
      else
        let matched := top30_set jd ∩ resume_set cv in
        let missing := top30_set jd ∖ resume_set cv in
        let coverage := ratio (size matched) (Nat.max 1 (size (top30_set jd))) in
        let score :=
          Z.max 5 (Z.min 60 (Z.of_nat (size matched) * 12)
                   + Z.min 40 (round (coverage * 40))) in
        mkCompatibilityInsights score
          (if 75 <=? score then "Alta compatibilidade"
           else if 45 <=? score then "Compatibilidade moderada"
           else "Compatibilidade baixa")
          (take 5 (filter (fun kw => kw ∈ matched) (ranked jd)))
          (take 5 (filter (fun kw => kw ∈ missing) (ranked jd)))
          (round_ndigits coverage 3)
  end.
Proof.
  unfold calculate_compatibility, _extract_keywords. cbv beta iota zeta.
  rewrite resume_set_fromkeys, Counter_total.
  unfold most_common. rewrite fmap_take.
  change (fst <$> sorted_desc (Counter (_extract_tokens jd))) with (ranked jd).
  change (fst <$> most_common None (Counter (_extract_tokens jd)))
    with (ranked jd).
  change (take 30 (ranked jd)) with (top30 jd).
  change (list_to_set (top30 jd) : gset string) with (top30_set jd).
  destruct (Counter (_extract_tokens jd)) eqn:Ec.
  - apply Counter_nil in Ec. rewrite Ec. reflexivity.
  - destruct (_extract_tokens jd) eqn:Et; [discriminate | reflexivity].
Qed.

End CompatFacts.

Module CompatClaims.
Import Py Compatibility CompatTerms CompatFacts.
Local Open Scope Z_scope.

(** C1.  For a posting with keywords, at least 5 distinct ones among its 30
    most frequent and at least 10 keyword occurrences: matched is the top-30
    set intersected with the resume keywords; coverage_ratio is
    |matched| / |top-30 set| rounded to 3 decimals (a nearest thousandth);
    match_points = min(60, 12 |matched|); coverage_points = min(40,
    round(40 coverage_ratio)), the same with the rounded and the unrounded
    ratio; score = max(5, match_points + coverage_points); the label follows
    the thresholds 75 and 45; strengths and gaps are the matched and the
    missing keywords in descending order of posting frequency, cut to 5. *)
Theorem compatibility_scored (cv jd : string) :
  _extract_tokens jd <> [] ->
  (5 <= size (top30_set jd))%nat ->
  (10 <= length (_extract_tokens jd))%nat ->
  let matched := top30_set jd ∩ resume_set cv in
  let missing := top30_set jd ∖ resume_set cv in
  let m := size matched in
  let n := size (top30_set jd) in
  let r := calculate_compatibility cv jd in
  let match_points := Z.min 60 (Z.of_nat m * 12) in
  let coverage_points := Z.min 40 (round (coverage_ratio r * 40)) in
  (m <= n <= 30)%nat
  /\ coverage_ratio r = round_ndigits (ratio m n) 3
  /\ Qden (coverage_ratio r) = 1000%positive
  /\ 2 * Z.abs (1000 * Z.of_nat m - Qnum (coverage_ratio r) * Z.of_nat n)
     <= Z.of_nat n
  /\ coverage_points = Z.min 40 (round (ratio m n * 40))
  /\ score r = Z.max 5 (match_points + coverage_points)
  /\ (75 <= score r -> label r = "Alta compatibilidade")
  /\ (45 <= score r <= 74 -> label r = "Compatibilidade moderada")
  /\ (score r < 45 -> label r = "Compatibilidade baixa")
  /\ strengths r = take 5 (filter (fun kw => kw ∈ matched) (ranked jd))
  /\ gaps r = take 5 (filter (fun kw => kw ∈ missing) (ranked jd))
  /\ (forall kw, kw ∈ filter (fun kw => kw ∈ matched) (ranked jd) <-> kw ∈ matched)
  /\ (forall kw, kw ∈ filter (fun kw => kw ∈ missing) (ranked jd) <-> kw ∈ missing)
  /\ StronglySorted (freq_desc jd) (strengths r)
  /\ StronglySorted (freq_desc jd) (gaps r).
Proof.
  intros Htok H5 H10 matched missing m n r match_points coverage_points.
  assert (m <= n <= 30)%nat as Hmn.
  { split; [apply matched_size |]. subst n. rewrite top30_set_size. lia. }
  assert (Nat.max 1 n = n) as Hmax by (subst n; lia).
  assert (r = let coverage := ratio m n in
              let score :=
                Z.max 5 (Z.min 60 (Z.of_nat m * 12)
                         + Z.min 40 (round (coverage * 40))) in
              mkCompatibilityInsights score
                (if 75 <=? score then "Alta compatibilidade"
                 else if 45 <=? score then "Compatibilidade moderada"
                 else "Compatibilidade baixa")
                (take 5 (filter (fun kw => kw ∈ matched) (ranked jd)))
                (take 5 (filter (fun kw => kw ∈ missing) (ranked jd)))
                (round_ndigits coverage 3)) as Hr.
  { subst r. rewrite compatibility_unfold.
    destruct (_extract_tokens jd) eqn:Et; [contradiction |].
    rewrite (proj2 (Nat.ltb_ge _ _) H5), (proj2 (Nat.ltb_ge _ _) H10).
    cbn [orb]. fold matched missing m n. cbv zeta. rewrite Hmax. reflexivity. }
  cbv zeta in Hr.
  assert (forall X : gset string, X ⊆ top30_set jd ->
            forall kw, kw ∈ filter (fun kw => kw ∈ X) (ranked jd) <-> kw ∈ X)
    as Hfilter.
  { intros X HX kw. rewrite list_elem_of_filter. split; [tauto |].
    intros Hkw. split; [assumption |].
    apply HX in Hkw. unfold top30_set in Hkw.
    apply elem_of_list_to_set in Hkw.
    eapply elem_of_sublist; [exact Hkw | apply sublist_take]. }
  assert (forall P `{!forall x : string, Decision (P x)},
            StronglySorted (freq_desc jd) (take 5 (filter P (ranked jd))))
    as Hsorted.
  { intros P HP. eapply StronglySorted_sublist; [| apply ranked_sorted].
    etransitivity; [apply sublist_take | apply sublist_filter]. }
  assert (coverage_points = Z.min 40 (round (ratio m n * 40))) as Hcp.
  { subst coverage_points. rewrite Hr. cbn [coverage_ratio].
    rewrite <- rounding_agrees by lia. reflexivity. }
  split; [exact Hmn |].
  split; [rewrite Hr; reflexivity |].
  split; [rewrite Hr; reflexivity |].
  split.
  { rewrite Hr. cbn [coverage_ratio]. rewrite round_ndigits_3. cbn [Qnum].
    pose proof (round_nearest (ratio m n * 1000)) as Hn.
    assert (Qnum (ratio m n * 1000) = Z.of_nat m * 1000) as E1 by reflexivity.
    assert (Z.pos (Qden (ratio m n * 1000)) = Z.of_nat n) as E2.
    { unfold ratio. cbn [Qmult Qden]. rewrite Pos.mul_1_r.
      rewrite <- (Nat2Pos.id n) at 2 by lia. symmetry. apply positive_nat_Z. }
    rewrite E1, E2 in Hn. lia. }
  split; [exact Hcp |].
  split; [rewrite Hcp, Hr; reflexivity |].
  rewrite Hr. cbn [score label strengths gaps].
  split; [intros H; now rewrite (proj2 (Z.leb_le _ _) H) |].
  split.
  { intros [H1 H2]. rewrite (proj2 (Z.leb_gt _ _)) by lia.
    now rewrite (proj2 (Z.leb_le _ _) H1). }
  split; [intros H; now rewrite !(proj2 (Z.leb_gt _ _)) by lia |].
  split; [reflexivity |]. split; [reflexivity |].
  split; [apply Hfilter, intersection_subseteq_l |].
  split; [apply Hfilter; apply subseteq_difference_l; reflexivity |].
  split; apply Hsorted.
Qed.

Lemma compatibility_scored_witness :
  _extract_tokens scenario_posting <> []
  /\ (5 <= size (top30_set scenario_posting))%nat
  /\ (10 <= length (_extract_tokens scenario_posting))%nat
  /\ coverage_ratio (calculate_compatibility scenario_resume scenario_posting)
     = round_ndigits
         (ratio (size (top30_set scenario_posting ∩ resume_set scenario_resume))
                (size (top30_set scenario_posting))) 3.
Proof.
  assert (_extract_tokens scenario_posting <> []) as H1
    by (vm_compute; discriminate).
  assert (5 <= size (top30_set scenario_posting))%nat as H2
    by (vm_compute; lia).
  assert (10 <= length (_extract_tokens scenario_posting))%nat as H3
    by (vm_compute; lia).
  split; [exact H1 |]. split; [exact H2 |]. split; [exact H3 |].
  exact (proj1 (proj2
           (compatibility_scored scenario_resume scenario_posting H1 H2 H3))).
Defined.

(** Scenario C of the specification: four of five keywords matched. *)
Example scenario_c :
  calculate_compatibility scenario_resume scenario_posting
  = mkCompatibilityInsights 80 "Alta compatibilidade"
      ["python"; "fastapi"; "docker"; "aws"] ["kubernetes"] (800 # 1000).
Proof. vm_compute. reflexivity. Qed.

(** C2.  The result is the insufficient-data sentinel (score 50, label
    "Dados insuficientes", no strengths, coverage_ratio 0) exactly when the
    posting has no keyword, or fewer than 5 distinct ones, or fewer than 10
    keyword occurrences; without keywords the gaps are empty, and in every
    sparse case they are the first five of the posting's keywords ranked by
    frequency.  Two empty texts give the sentinel with empty gaps. *)
Theorem insufficient_data_iff_sparse (cv jd : string) :
  let r := calculate_compatibility cv jd in
  ((score r = 50 /\ label r = "Dados insuficientes" /\ strengths r = []
    /\ coverage_ratio r = 0%Q) <-> sparse jd)
  /\ (sparse jd <->
      _extract_tokens jd = []
      \/ (length (ranked jd) < 5)%nat
      \/ (total (Counter (_extract_tokens jd)) < 10)%nat)
  /\ (_extract_tokens jd = [] -> r = insufficient_data [])
  /\ (sparse jd -> r = insufficient_data (take 5 (ranked jd)))
  /\ (forall kw, kw ∈ ranked jd <-> kw ∈ _extract_tokens jd)
  /\ StronglySorted (freq_desc jd) (ranked jd)
  /\ calculate_compatibility EmptyString EmptyString = insufficient_data [].
Proof.
  intros r.
  assert (_extract_tokens jd = [] -> ranked jd = []) as Hnil.
  { intros E. unfold ranked. rewrite E. reflexivity. }
  assert (take 5 (top30 jd) = take 5 (ranked jd)) as Htake.
  { unfold top30. rewrite take_take. reflexivity. }
  assert (sparse jd -> r = insufficient_data (take 5 (ranked jd))) as Hs.
  { intros Hsp. subst r. rewrite compatibility_unfold.
    destruct (_extract_tokens jd) eqn:Et.
    - rewrite Hnil; reflexivity.
    - destruct Hsp as [Hsp | [Hsp | Hsp]]; [congruence | |].
      + rewrite (proj2 (Nat.ltb_lt _ _) Hsp). cbn [orb]. now rewrite Htake.
      + rewrite Et in Hsp.
        rewrite (proj2 (Nat.ltb_lt _ _) Hsp), orb_true_r. now rewrite Htake. }
  assert (~ sparse jd -> label r <> "Dados insuficientes") as Hns.
  { intros Hsp. subst r. rewrite compatibility_unfold.
    destruct (_extract_tokens jd) eqn:Et; [exfalso; apply Hsp; now left |].
    destruct (Nat.ltb_spec (size (top30_set jd)) 5);
      [exfalso; apply Hsp; right; left; lia |].
    destruct (Nat.ltb_spec (length (s :: l)) 10);
      [exfalso; apply Hsp; right; right; rewrite Et; lia |].
    cbn [orb label]. repeat case_match; discriminate. }
  assert (Decision (sparse jd)) as Hdec by (unfold sparse; apply _).
  split; [| split; [| split; [| split; [| split; [| split]]]]].
  - split.
    + intros (_ & Hl & _). destruct Hdec as [Hsp | Hsp]; [assumption |].
      now apply Hns in Hsp.
    + intros Hsp. rewrite (Hs Hsp). repeat split.
  - unfold sparse. rewrite Counter_total, top30_set_size.
    split; (intros [H | [H | H]]; [now left | right; left; lia | now right; right]).
  - intros E. rewrite Hs by now left. rewrite (Hnil E). reflexivity.
  - exact Hs.
  - apply ranked_elem.
  - apply ranked_sorted.
  - vm_compute. reflexivity.
Qed.

Lemma insufficient_data_iff_sparse_witness :
  sparse "python c++ c# .net a.b x"
  /\ calculate_compatibility EmptyString "python c++ c# .net a.b x"
     = insufficient_data ["python"; "c++"; ".net"; "a.b"].
Proof.
  assert (sparse "python c++ c# .net a.b x") as H
    by (right; left; vm_compute; lia).
  split; [exact H |].
  exact (proj1 (proj2 (proj2 (proj2
           (insufficient_data_iff_sparse EmptyString "python c++ c# .net a.b x")))) H).
Defined.

End CompatClaims.

(** ** Score ranges *)

Module RangeClaims.
Import Py PyFacts.
Local Open Scope Z_scope.

(** C3.  Whatever the input, the content validator and the details validator
    return a score between 0 and 100, and the compatibility scorer returns a
    score between 5 and 100 (its sentinel 50 included) with a coverage ratio
    between 0 and 1. *)
Theorem scores_stay_in_range :
  (forall content,
     0 <= Validation.score (Validation.validate_and_score_job_content content)
       <= 100)
  /\ (forall job_title company,
        0 <= Validation.score
               (Validation.validate_and_score_job_details job_title company)
          <= 100)
  /\ (forall cv job_description,
        let r := Compatibility.calculate_compatibility cv job_description in
        5 <= Compatibility.score r <= 100
        /\ (CompatTerms.sparse job_description -> Compatibility.score r = 50)
        /\ (0 <= Compatibility.coverage_ratio r <= 1)%Q).
Proof.
  split; [exact ContentFacts.content_score_range |]. split.
  - intros job_title company.
    pose proof (DetailsFacts.details_cases job_title company) as Hc.
    cbn zeta in Hc.
    pose proof (DetailsFacts.band_points_values 5 job_title).
    pose proof (DetailsFacts.band_points_values 2 company).
    destruct Hc as [(_ & ->) | [(_ & _ & ->) | [(_ & _ & _ & ->) | [(_ & _ & _ & _ & ->) | (_ & _ & _ & _ & ->)]]]];
      cbn [Validation.score]; lia.
  - intros cv jd r. subst r. rewrite CompatFacts.compatibility_unfold.
    unfold CompatTerms.sparse.
    destruct (Compatibility._extract_tokens jd) eqn:Et.
    { cbn. repeat split; try lia; unfold Qle; cbn; lia. }
    destruct (Nat.ltb_spec (size (CompatTerms.top30_set jd)) 5) as [H5 | H5].
    { cbn. repeat split; try lia; unfold Qle; cbn; lia. }
    destruct (Nat.ltb_spec (length (s :: l)) 10) as [H10 | H10].
    { cbn. repeat split; try lia; unfold Qle; cbn; lia. }
    cbn [orb]. cbv zeta.
    cbn [Compatibility.score Compatibility.coverage_ratio].
    pose proof (CompatFacts.matched_size cv jd) as Hm.
    set (m := size (CompatTerms.top30_set jd ∩ CompatTerms.resume_set cv)) in *.
    set (n := size (CompatTerms.top30_set jd)) in *.
    pose proof (CompatFacts.ratio_times_40 m (Nat.max 1 n)
                  ltac:(lia) ltac:(lia)) as H40.
    split; [lia |]. split.
    + intros [H | [H | H]]; [discriminate | lia | lia].
    + apply CompatFacts.ratio_rounded_range; lia.
Qed.

End RangeClaims.

(** ** The generation-output parser *)

Module ParserFacts.
Import Py PyFacts GenerationAgent.

(** The slice of the response that a present marker selects: from the end of
    the marker at [start_index] to the next marker at or after [start_index],
    or to the end of the response. *)
Lemma parse_section_present (text start_marker : string)
    (end_marker : option string) (start_index : nat) :
  find start_marker text = Some start_index ->
  exists end_index,
    parse_section text start_marker end_marker
    = strip (slice (start_index + String.length start_marker) end_index text)
    /\ (end_index <= String.length text)%nat
    /\ match end_marker with
       | None => end_index = String.length text
       | Some m =>
           find_from m text start_index = Some end_index
           \/ (find_from m text start_index = None
               /\ end_index = String.length text)
       end.
Proof.
  intros Hs. unfold parse_section. rewrite Hs.
  destruct end_marker as [m |].
  - destruct (find_from m text start_index) as [i |] eqn:Ef.
    + exists i. split; [reflexivity |]. split; [| now left].
      unfold find_from in Ef.
      destruct (String.length text <? start_index)%nat eqn:El; [discriminate |].
      apply Nat.ltb_ge in El.
      destruct (find m (slice_from start_index text)) as [j |] eqn:Ej;
        [| discriminate].
      injection Ef as <-. apply find_Some in Ej as (_ & Hj & _).
      rewrite length_slice_from in Hj. lia.
    + exists (String.length text). split; [reflexivity |]. split; [lia |].
      right. split; reflexivity.
  - exists (String.length text). split; [reflexivity |]. split; [lia | reflexivity].
Qed.

End ParserFacts.

Module ParserClaims.
Import Py PyFacts Terms GenerationAgent ParserTerms ParserFacts.

(** C8.  For every response the parser returns a dict with exactly the four
    keys optimizedCv, coverLetter, networkingMessage and interviewTips.  Each
    field is settled on its own by the position of its marker: the
    placeholder error string when the marker does not occur, and the stripped
    text up to the next marker (or the end) when it does, whatever happens
    to the other fields. *)
Theorem parser_returns_four_fields (response_text : string) :
  let parsed := _parse_generated_content response_text in
  dom parsed
  = {[ "optimizedCv"; "coverLetter"; "networkingMessage"; "interviewTips" ]}
  /\ field_parsed response_text parsed "optimizedCv"
       "### OPTIMIZED CV ###" (Some "### COVER LETTER ###")
  /\ field_parsed response_text parsed "coverLetter"
       "### COVER LETTER ###" (Some "### NETWORKING MESSAGE ###")
  /\ field_parsed response_text parsed "networkingMessage"
       "### NETWORKING MESSAGE ###" (Some "### INTERVIEW TIPS ###")
  /\ field_parsed response_text parsed "interviewTips"
       "### INTERVIEW TIPS ###" None
  /\ (forall marker, occurs marker response_text
                     \/ find marker response_text = None).
Proof.
  intros parsed.
  assert (forall key start_marker end_marker,
            parsed !! key
            = Some (parse_section response_text start_marker end_marker) ->
            field_parsed response_text parsed key start_marker end_marker)
    as Hfield.
  { intros key sm em Hk. split.
    - intros Hno. rewrite Hk. unfold parse_section.
      now rewrite (proj2 (find_None sm response_text) Hno).
    - intros i Hi. rewrite Hk.
      destruct (parse_section_present response_text sm em i Hi)
        as (j & -> & Hj & Hend).
      exists j. auto. }
  subst parsed.
  split; [| split; [| split; [| split; [| split]]]];
    try (apply Hfield; unfold _parse_generated_content, sections;
         cbn [parse_loop]; rewrite ?lookup_insert_ne by discriminate;
         apply lookup_insert_eq).
  - unfold _parse_generated_content, sections. cbn [parse_loop].
    rewrite !dom_insert_L, dom_empty_L. set_solver.
  - intros marker. destruct (find marker response_text) eqn:E; [left | now right].
    apply find_is_Some. eauto.
Qed.

Lemma parser_returns_four_fields_witness :
  ~ occurs "### COVER LETTER ###" response_without_letter
  /\ _parse_generated_content response_without_letter !! "coverLetter"
     = Some (missing_section "### COVER LETTER ###")
  /\ _parse_generated_content response_without_letter !! "optimizedCv"
     = Some "my cv ### INTERVIEW TIPS ### tips"
  /\ _parse_generated_content response_without_letter !! "interviewTips"
     = Some "tips".
Proof.
  assert (~ occurs "### COVER LETTER ###" response_without_letter) as H
    by (apply find_None; vm_compute; reflexivity).
  split; [exact H |]. split; [| split; vm_compute; reflexivity].
  exact (proj1 (proj1 (proj2 (proj2
           (parser_returns_four_fields response_without_letter)))) H).
Defined.

End ParserClaims.

(** ** Further properties of the compatibility scorer *)

Module CompatMore.
Import Py PyFacts Compatibility CompatTerms CompatFacts MoreTerms.
Local Open Scope Z_scope.

Lemma forall_chars_app (f : ascii -> bool) (s t : string) :
  forall_chars f (s +:+ t) = forall_chars f s && forall_chars f t.
Proof.
  induction s as [|c s IH]; rewrite ?str_app_cons, ?str_app_nil; simpl;
    [reflexivity |].
  now rewrite IH, andb_assoc.
Qed.

Lemma findall_from_tokens (w s : string) (t : string) :
  forall_chars is_token_char w = true ->
  t ∈ findall_from w s ->
  (3 <= String.length t)%nat /\ forall_chars is_token_char t = true.
Proof.
  revert w. induction s as [|c s IH]; intros w Hw; cbn [findall_from].
  - destruct (Nat.leb_spec 3 (String.length w)); intros Ht.
    + apply list_elem_of_singleton in Ht. subst. auto.
    + now apply elem_of_nil in Ht.
  - destruct (is_token_char c) eqn:Ec.
    + apply IH. rewrite forall_chars_app, Hw. simpl. now rewrite Ec.
    + destruct (Nat.leb_spec 3 (String.length w)); intros Ht.
      * apply elem_of_cons in Ht as [-> | Ht]; [auto |].
        now apply (IH EmptyString).
      * now apply (IH EmptyString).
Qed.

(** X1.  Every extracted token is at least three characters long, is made of the
    characters [a-z0-9+#.] only, and is not a stopword. *)
Theorem tokens_are_keywords (value token : string) :
  token ∈ _extract_tokens value ->
  (3 <= String.length token)%nat
  /\ forall_chars is_token_char token = true
  /\ token ∉ _STOPWORDS.
Proof.
  unfold _extract_tokens. rewrite list_elem_of_filter. intros [Hs Ht].
  apply findall_from_tokens in Ht as [H1 H2]; [auto | reflexivity].
Qed.

Lemma tokens_are_keywords_witness :
  "c++" ∈ _extract_tokens "Python, C++ and SQL"
  /\ (3 <= String.length "c++")%nat.
Proof.
  assert ("c++" ∈ _extract_tokens "Python, C++ and SQL") as H
    by (apply list_elem_of_In; vm_compute; auto).
  split; [exact H |]. exact (proj1 (tokens_are_keywords _ _ H)).
Defined.

(** *** Letter case *)

Lemma lower_char_idem (c : ascii) : lower_char (lower_char c) = lower_char c.
Proof. each_char c. Qed.

Lemma lower_idem (s : string) : lower (lower s) = lower s.
Proof.
  induction s as [|c s IH]; simpl; [reflexivity |].
  now rewrite lower_char_idem, IH.
Qed.

Lemma nfkd_lower_char (c : ascii) :
  lower (nfkd_ascii (lower_char c)) = lower (nfkd_ascii c).
Proof. each_char c. Qed.

Lemma normalize_lower (value : string) :
  lower (_normalize_text (lower value)) = lower (_normalize_text value).
Proof.
  induction value as [|c s IH]; [reflexivity |].
  cbn [lower _normalize_text]. now rewrite !lower_app, nfkd_lower_char, IH.
Qed.

Lemma tokens_lower (value : string) :
  _extract_tokens (lower value) = _extract_tokens value.
Proof. unfold _extract_tokens. now rewrite normalize_lower. Qed.

(** X2.  The scorer ignores letter case: lower-casing the resume, the posting or
    both changes neither the tokens nor any field of the result. *)
Theorem compatibility_ignores_case (cv job_description : string) :
  _extract_tokens (lower cv) = _extract_tokens cv
  /\ calculate_compatibility (lower cv) job_description
     = calculate_compatibility cv job_description
  /\ calculate_compatibility cv (lower job_description)
     = calculate_compatibility cv job_description
  /\ calculate_compatibility (lower cv) (lower job_description)
     = calculate_compatibility cv job_description.
Proof.
  split; [apply tokens_lower |].
  unfold calculate_compatibility, _extract_keywords.
  rewrite !tokens_lower. auto.
Qed.

(** *** The counter and the key list *)

Lemma counter_incr_positive (k : string) (c : counter) :
  Forall (fun p => (1 <= snd p)%nat) c ->
  Forall (fun p => (1 <= snd p)%nat) (counter_incr k c).
Proof.
  induction 1 as [|[x n] c Hx Hc IH]; cbn [counter_incr].
  - repeat constructor.
  - destruct (String.eqb k x); constructor; cbn in *; auto; lia.
Qed.

Lemma Counter_positive (tokens : list string) :
  Forall (fun p => (1 <= snd p)%nat) (Counter tokens).
Proof.
  induction tokens as [|x tokens IH] using rev_ind; [constructor |].
  rewrite Counter_snoc. now apply counter_incr_positive.
Qed.

(** X3.  [_extract_keywords] returns a counter and the list of its keys in
    insertion order: the list has no repetition and holds exactly the
    tokens, the count of a key is the number of its occurrences (at least
    one), a word that is no token counts 0, and the counts add up to the
    number of tokens. *)
Theorem keywords_count_tokens (value : string) :
  let tokens := _extract_tokens value in
  let c := fst (_extract_keywords value) in
  let keys := snd (_extract_keywords value) in
  fst <$> c = keys
  /\ NoDup keys
  /\ (forall k, k ∈ keys <-> k ∈ tokens)
  /\ (forall k n, (k, n) ∈ c ->
        n = count_occ string_dec tokens k /\ (1 <= n)%nat)
  /\ (forall k, counter_get c k = count_occ string_dec tokens k)
  /\ (forall k, k ∉ tokens -> counter_get c k = 0%nat)
  /\ total c = length tokens.
Proof.
  intros tokens c keys. subst c keys. unfold _extract_keywords. cbn [fst snd].
  fold tokens.
  split; [apply Counter_keys |]. split; [apply fromkeys_NoDup |].
  split; [apply fromkeys_elem |]. split.
  { intros k n Hin. split.
    - rewrite <- Counter_get. symmetry. apply counter_get_elem; [| exact Hin].
      rewrite Counter_keys. apply fromkeys_NoDup.
    - pose proof (Counter_positive tokens) as Hp. rewrite Forall_forall in Hp.
      apply (Hp (k, n) Hin). }
  split; [apply Counter_get |]. split; [| apply Counter_total].
  intros k Hk. rewrite Counter_get. apply count_occ_not_In.
  now rewrite <- list_elem_of_In.
Qed.

(** *** Ties *)

Lemma insert_desc_with_count (n : nat) (x : string * nat) (l : counter) :
  with_count n (insert_desc x l) = with_count n (x :: l).
Proof.
  unfold with_count. induction l as [|y l IH]; [reflexivity |].
  cbn [insert_desc]. destruct (Nat.leb_spec (snd y) (snd x)) as [Hle | Hgt];
    [reflexivity |].
  cbn [filter list_filter] in *.
  destruct (decide (snd y = n)) as [Hy | Hy];
    destruct (decide (snd x = n)) as [Hx | Hx]; try lia;
    rewrite ?fmap_cons in *; first [exact IH | f_equal; exact IH].
Qed.

Lemma sorted_desc_with_count (n : nat) (l : counter) :
  with_count n (sorted_desc l) = with_count n l.
Proof.
  induction l as [|x l IH]; [reflexivity |].
  cbn [sorted_desc]. rewrite insert_desc_with_count.
  unfold with_count in *. cbn [filter list_filter].
  destruct (decide (snd x = n)); rewrite ?fmap_cons in *;
    first [exact IH | f_equal; exact IH].
Qed.

(** X4.  [most_common] is stable: the keywords of one frequency come in the order
    of their first occurrence in the text, with and without a limit that
    they all fit in. *)
Theorem most_common_keeps_first_occurrence_order (value : string) (n : nat) :
  with_count n (most_common None (Counter (_extract_tokens value)))
  = with_count n (Counter (_extract_tokens value))
  /\ fst <$> Counter (_extract_tokens value) = fromkeys (_extract_tokens value)
  /\ forall limit,
       (length (fromkeys (_extract_tokens value)) <= limit)%nat ->
       most_common (Some limit) (Counter (_extract_tokens value))
       = most_common None (Counter (_extract_tokens value)).
Proof.
  split; [apply sorted_desc_with_count |]. split; [apply Counter_keys |].
  intros limit Hl. unfold most_common. apply take_ge.
  rewrite sorted_desc_perm, <- Counter_keys, length_fmap in *. exact Hl.
Qed.

(** *** Scored results *)

Lemma not_sparse (jd : string) :
  ~ sparse jd ->
  _extract_tokens jd <> [] /\ (5 <= size (top30_set jd))%nat
  /\ (10 <= length (_extract_tokens jd))%nat.
Proof.
  unfold sparse. intros H. repeat split.
  - intros E. apply H. now left.
  - destruct (Nat.lt_ge_cases (size (top30_set jd)) 5); [| assumption].
    exfalso. apply H. right. now left.
  - destruct (Nat.lt_ge_cases (length (_extract_tokens jd)) 10); [| assumption].
    exfalso. apply H. right. now right.
Qed.

Lemma sparse_dec (jd : string) : sparse jd \/ ~ sparse jd.
Proof.
  unfold sparse. destruct (_extract_tokens jd) eqn:E; [now left; left |].
  destruct (Nat.lt_ge_cases (size (top30_set jd)) 5); [left; auto |].
  destruct (Nat.lt_ge_cases (length (s :: l)) 10); [left; auto |].
  right. intros [H1 | [H1 | H1]]; [discriminate | lia | lia].
Qed.

Lemma sparse_result (cv jd : string) :
  sparse jd ->
  calculate_compatibility cv jd = insufficient_data (take 5 (ranked jd)).
Proof.
  intros Hsp. rewrite compatibility_unfold.
  assert (take 5 (top30 jd) = take 5 (ranked jd)) as Htake
    by (unfold top30; now rewrite take_take).
  destruct (_extract_tokens jd) eqn:Et.
  - unfold ranked. rewrite Et. reflexivity.
  - destruct Hsp as [Hsp | [Hsp | Hsp]]; [congruence | |].
    + rewrite (proj2 (Nat.ltb_lt _ _) Hsp). cbn [orb]. now rewrite Htake.
    + rewrite Et in Hsp.
      rewrite (proj2 (Nat.ltb_lt _ _) Hsp), orb_true_r. now rewrite Htake.
Qed.

Lemma scored_result (cv jd : string) :
  ~ sparse jd ->
  calculate_compatibility cv jd =
  let matched := top30_set jd ∩ resume_set cv in
  let missing := top30_set jd ∖ resume_set cv in
  let coverage := ratio (size matched) (size (top30_set jd)) in
  let score :=
    Z.max 5 (Z.min 60 (Z.of_nat (size matched) * 12)
             + Z.min 40 (round (coverage * 40))) in
  mkCompatibilityInsights score
    (if 75 <=? score then "Alta compatibilidade"
     else if 45 <=? score then "Compatibilidade moderada"
     else "Compatibilidade baixa")
    (take 5 (filter (fun kw => kw ∈ matched) (ranked jd)))
    (take 5 (filter (fun kw => kw ∈ missing) (ranked jd)))
    (round_ndigits coverage 3).
Proof.
  intros Hns. apply not_sparse in Hns as (Htok & H5 & H10).
  rewrite compatibility_unfold.
  destruct (_extract_tokens jd) eqn:Et; [contradiction |].
  rewrite (proj2 (Nat.ltb_ge _ _) H5), (proj2 (Nat.ltb_ge _ _) H10).
  cbn [orb]. cbv zeta.
  replace (Nat.max 1 (size (top30_set jd))) with (size (top30_set jd)) by lia.
  reflexivity.
Qed.

Lemma top30_elem_ranked (jd kw : string) : kw ∈ top30_set jd -> kw ∈ ranked jd.
Proof.
  unfold top30_set. rewrite elem_of_list_to_set. intros H.
  eapply elem_of_sublist; [exact H | apply sublist_take].
Qed.

Lemma take_filter_sublist (P : string -> Prop) `{!forall x, Decision (P x)}
    (l : list string) :
  take 5 (filter P l) `sublist_of` l.
Proof. etransitivity; [apply sublist_take | apply sublist_filter]. Qed.

(** X5.  Whatever the two texts: strengths and gaps each hold at most five
    keywords, without repetition, all of them keywords of the posting, and
    share none.  For a scored result the strengths are keywords of the
    resume and the gaps are not; for a sparse posting the gaps are its first
    keywords whether the resume has them or not. *)
Theorem strengths_and_gaps_invariants (cv job_description : string) :
  let r := calculate_compatibility cv job_description in
  (length (strengths r) <= 5)%nat /\ (length (gaps r) <= 5)%nat
  /\ NoDup (strengths r) /\ NoDup (gaps r)
  /\ (forall kw, kw ∈ strengths r \/ kw ∈ gaps r ->
                 kw ∈ _extract_tokens job_description)
  /\ (forall kw, kw ∈ strengths r -> kw ∉ gaps r)
  /\ (forall kw, kw ∈ strengths r -> kw ∈ _extract_tokens cv)
  /\ (~ sparse job_description ->
      forall kw, kw ∈ gaps r -> kw ∉ _extract_tokens cv)
  /\ (sparse job_description ->
      strengths r = [] /\ gaps r = take 5 (ranked job_description)).
Proof.
  intros r. subst r.
  assert (forall kw, kw ∈ resume_set cv <-> kw ∈ _extract_tokens cv) as Hres
    by (intros kw; unfold resume_set; apply elem_of_list_to_set).
  destruct (sparse_dec job_description) as [Hsp | Hns].
  - rewrite (sparse_result _ _ Hsp). cbn [strengths gaps insufficient_data].
    rewrite length_take.
    split; [simpl; lia |]. split; [lia |]. split; [constructor |].
    split.
    { eapply sublist_NoDup; [apply ranked_NoDup | apply sublist_take]. }
    split.
    { intros kw [H | H]; [now apply elem_of_nil in H |].
      apply ranked_elem. eapply elem_of_sublist; [exact H | apply sublist_take]. }
    split; [intros kw H; now apply elem_of_nil in H |].
    split; [intros kw H; now apply elem_of_nil in H |].
    split; [contradiction | auto].
  - rewrite (scored_result _ _ Hns). cbv zeta. cbn [strengths gaps].
    rewrite !length_take.
    assert (forall (P : string -> Prop) `{!forall x, Decision (P x)} kw,
              kw ∈ take 5 (filter P (ranked job_description)) ->
              P kw /\ kw ∈ ranked job_description) as Hin.
    { intros P HP kw H.
      assert (kw ∈ filter P (ranked job_description)) as H'
        by (eapply elem_of_sublist; [exact H | apply sublist_take]).
      now apply list_elem_of_filter in H'. }
    split; [lia |]. split; [lia |].
    split.
    { eapply sublist_NoDup; [apply ranked_NoDup | apply take_filter_sublist]. }
    split.
    { eapply sublist_NoDup; [apply ranked_NoDup | apply take_filter_sublist]. }
    split.
    { intros kw [H | H]; apply Hin in H as [_ H]; now apply ranked_elem. }
    split.
    { intros kw H1 H2. apply Hin in H1 as [H1 _]. apply Hin in H2 as [H2 _].
      set_solver. }
    split.
    { intros kw H. apply Hin in H as [H _]. apply Hres. set_solver. }
    split; [| contradiction].
    intros _ kw H. apply Hin in H as [H _]. rewrite <- Hres. set_solver.
Qed.

(** *** Full, empty and growing overlap *)

Lemma filter_none (P : string -> Prop) `{!forall x, Decision (P x)}
    (l : list string) :
  (forall x, x ∈ l -> ~ P x) -> filter P l = [].
Proof.
  induction l as [|x l IH]; intros Hnone; [reflexivity |].
  cbn [filter list_filter]. rewrite decide_False by (apply Hnone; constructor).
  apply IH. intros y Hy. apply Hnone. now constructor.
Qed.

Lemma ratio_num (m n : nat) (k : Z) :
  (0 < n)%nat ->
  Qnum (ratio m n * inject_Z k) = Z.of_nat m * k
  /\ Z.pos (Qden (ratio m n * inject_Z k)) = Z.of_nat n.
Proof.
  intros Hn. split; [reflexivity |].
  unfold ratio. cbn [Qmult Qden inject_Z]. rewrite Pos.mul_1_r.
  rewrite <- (Nat2Pos.id n) at 2 by lia. symmetry. apply positive_nat_Z.
Qed.

(** X6.  A scored result with every top keyword in the resume is 100 points,
    "Alta compatibilidade", no gap and coverage 1; with no top keyword in the
    resume it is the floor of 5 points, "Compatibilidade baixa", no strength
    and coverage 0. *)
Theorem full_and_empty_overlap (cv job_description : string) :
  ~ sparse job_description ->
  let r := calculate_compatibility cv job_description in
  (top30_set job_description ⊆ resume_set cv ->
   score r = 100 /\ label r = "Alta compatibilidade" /\ gaps r = []
   /\ (coverage_ratio r == 1)%Q)
  /\ (top30_set job_description ∩ resume_set cv = ∅ ->
      score r = 5 /\ label r = "Compatibilidade baixa" /\ strengths r = []
      /\ (coverage_ratio r == 0)%Q).
Proof.
  intros Hns r. subst r. rewrite (scored_result _ _ Hns). cbv zeta.
  apply not_sparse in Hns as (_ & H5 & _).
  set (n := size (top30_set job_description)) in *.
  split.
  - intros Hsub.
    assert (top30_set job_description ∩ resume_set cv
            = top30_set job_description) as -> by set_solver.
    fold n.
    destruct (ratio_num n n 40 ltac:(lia)) as [E1 E2].
    destruct (ratio_num n n 1000 ltac:(lia)) as [E3 E4].
    assert (round (ratio n n * 40) = 40) as ->.
    { apply Z.le_antisymm; [apply round_le | apply round_ge];
        change (ratio n n * 40)%Q with (ratio n n * inject_Z 40)%Q;
        rewrite E1, E2; lia. }
    assert (round (ratio n n * 1000) = 1000) as Hr.
    { apply Z.le_antisymm; [apply round_le | apply round_ge];
        change (ratio n n * 1000)%Q with (ratio n n * inject_Z 1000)%Q;
        rewrite E3, E4; lia. }
    cbn [score label gaps coverage_ratio].
    replace (Z.max 5 (Z.min 60 (Z.of_nat n * 12) + Z.min 40 40)) with 100 by lia.
    split; [reflexivity |]. split; [reflexivity |]. split.
    + rewrite filter_none; [reflexivity |]. intros x _. set_solver.
    + rewrite round_ndigits_3, Hr. reflexivity.
  - intros Hempty. rewrite Hempty. rewrite size_empty.
    cbn [score label strengths coverage_ratio].
    split; [reflexivity |]. split; [reflexivity |]. split.
    + rewrite filter_none; [reflexivity |]. intros x _. set_solver.
    + reflexivity.
Qed.

Lemma full_and_empty_overlap_witness :
  ~ sparse scenario_posting
  /\ score (calculate_compatibility "cobol" scenario_posting) = 5.
Proof.
  assert (~ sparse scenario_posting) as H.
  { intros [H | [H | H]]; vm_compute in H; [discriminate | lia | lia]. }
  split; [exact H |].
  refine (proj1 (proj2 (full_and_empty_overlap "cobol" scenario_posting H) _)).
  apply set_eq. intros x. split; [| intros Hx; now apply not_elem_of_empty in Hx].
  intros Hx. exfalso. apply elem_of_intersection in Hx as [H1 H2].
  unfold resume_set in H2. apply elem_of_list_to_set in H2.
  apply list_elem_of_In in H2. vm_compute in H2. destruct H2 as [<- | []].
  unfold top30_set in H1. apply elem_of_list_to_set in H1.
  apply list_elem_of_In in H1. vm_compute in H1. intuition discriminate.
Defined.

Lemma round_floor (x : Q) :
  Qnum x / Z.pos (Qden x) <= round x <= Qnum x / Z.pos (Qden x) + 1.
Proof. unfold round. repeat case_match; lia. Qed.

(** [round] is monotone on quotients over one denominator. *)
Lemma round_mono (x y : Q) :
  Qden x = Qden y -> Qnum x <= Qnum y -> round x <= round y.
Proof.
  intros Hd Hn.
  pose proof (round_floor x) as Hx. pose proof (round_floor y) as Hy.
  rewrite <- Hd in Hy.
  assert (0 < Z.pos (Qden x)) as Hpos by lia.
  pose proof (Z.div_le_mono _ _ _ Hpos Hn) as Hq.
  destruct (Z.eq_dec (Qnum x / Z.pos (Qden x)) (Qnum y / Z.pos (Qden x)))
    as [Heq | Hne]; [| lia].
  unfold round. rewrite <- Hd, <- Heq.
  assert (Qnum x mod Z.pos (Qden x) <= Qnum y mod Z.pos (Qden x)) as Hr.
  { rewrite !Z.mod_eq by lia. rewrite <- Heq. lia. }
  repeat case_match;
    repeat match goal with
           | H : (_ <? _) = true |- _ => apply Z.ltb_lt in H
           | H : (_ <? _) = false |- _ => apply Z.ltb_ge in H
           end; try lia; congruence.
Qed.

(** X7.  For one posting, a resume whose keywords include those of another never
    gets the lower score nor the lower coverage ratio. *)
Theorem more_keywords_never_score_less (cv1 cv2 job_description : string) :
  resume_set cv1 ⊆ resume_set cv2 ->
  let r1 := calculate_compatibility cv1 job_description in
  let r2 := calculate_compatibility cv2 job_description in
  score r1 <= score r2
  /\ (coverage_ratio r1 <= coverage_ratio r2)%Q
  /\ (length (gaps r2) <= length (gaps r1))%nat.
Proof.
  intros Hsub r1 r2. subst r1 r2.
  destruct (sparse_dec job_description) as [Hsp | Hns].
  - rewrite !(sparse_result _ _ Hsp). cbn. repeat split; try lia.
    unfold Qle; cbn; lia.
  - rewrite !(scored_result _ _ Hns). cbv zeta.
    cbn [score coverage_ratio gaps].
    apply not_sparse in Hns as (_ & H5 & _).
    set (n := size (top30_set job_description)) in *.
    assert (size (top30_set job_description ∩ resume_set cv1)
            <= size (top30_set job_description ∩ resume_set cv2))%nat as Hm
      by (apply subseteq_size; set_solver).
    set (m1 := size (top30_set job_description ∩ resume_set cv1)) in *.
    set (m2 := size (top30_set job_description ∩ resume_set cv2)) in *.
    assert (forall k, 0 <= k ->
              round (ratio m1 n * inject_Z k) <= round (ratio m2 n * inject_Z k))
      as Hround.
    { intros k Hk. apply round_mono.
      - destruct (ratio_num m1 n k ltac:(lia)) as [_ E1].
        destruct (ratio_num m2 n k ltac:(lia)) as [_ E2].
        lia.
      - destruct (ratio_num m1 n k ltac:(lia)) as [-> _].
        destruct (ratio_num m2 n k ltac:(lia)) as [-> _]. nia. }
    split; [| split].
    + pose proof (Hround 40 ltac:(lia)) as H40.
      change (inject_Z 40) with 40%Q in H40. lia.
    + rewrite !round_ndigits_3. unfold Qle. cbn [Qnum Qden].
      pose proof (Hround 1000 ltac:(lia)) as H1000.
      change (inject_Z 1000) with 1000%Q in H1000. lia.
    + rewrite !length_take.
      assert (length (filter (fun kw => kw ∈ top30_set job_description
                                             ∖ resume_set cv2)
                        (ranked job_description))
              <= length (filter (fun kw => kw ∈ top30_set job_description
                                                ∖ resume_set cv1)
                           (ranked job_description)))%nat as Hlen.
      { generalize (ranked job_description). intros l.
        induction l as [|x l IH]; [reflexivity |].
        cbn [filter list_filter].
        destruct (decide (x ∈ top30_set job_description ∖ resume_set cv2))
          as [H2 | H2].
        - rewrite decide_True by set_solver. simpl. apply le_n_S. exact IH.
        - destruct (decide _); simpl; [apply le_S |]; exact IH. }
      lia.
Qed.

Lemma more_keywords_never_score_less_witness :
  resume_set "Python" ⊆ resume_set scenario_resume
  /\ score (calculate_compatibility "Python" scenario_posting)
     <= score (calculate_compatibility scenario_resume scenario_posting).
Proof.
  assert (resume_set "Python" ⊆ resume_set scenario_resume) as H.
  { intros x Hx. unfold resume_set in *. apply elem_of_list_to_set in Hx.
    apply elem_of_list_to_set. apply list_elem_of_In in Hx.
    apply list_elem_of_In. vm_compute in Hx. destruct Hx as [<- | []].
    vm_compute. auto. }
  split; [exact H |].
  exact (proj1 (more_keywords_never_score_less _ _ scenario_posting H)).
Defined.

(** X8.  In a scored result at most two matched keywords give "Compatibilidade
    baixa" (at most 40 points), five or more give at least 66 points, never
    "baixa", and "Alta compatibilidade" needs four matched keywords. *)
Theorem label_follows_matched_count (cv job_description : string) :
  ~ sparse job_description ->
  let r := calculate_compatibility cv job_description in
  let m := size (top30_set job_description ∩ resume_set cv) in
  ((m <= 2)%nat -> score r <= 40 /\ label r = "Compatibilidade baixa")
  /\ ((5 <= m)%nat -> 66 <= score r /\ label r <> "Compatibilidade baixa")
  /\ (label r = "Alta compatibilidade" -> (4 <= m)%nat).
Proof.
  intros Hns r m. subst r. rewrite (scored_result _ _ Hns). cbv zeta.
  fold m. cbn [score label].
  apply not_sparse in Hns as (_ & H5 & _).
  pose proof (matched_size cv job_description) as Hm. fold m in Hm.
  pose proof (top30_set_size job_description) as H30.
  set (n := size (top30_set job_description)) in *.
  destruct (ratio_num m n 40 ltac:(lia)) as [E1 E2].
  change (inject_Z 40) with 40%Q in E1, E2.
  assert (forall k, Z.of_nat m * 40 <= k * Z.of_nat n ->
                    round (ratio m n * 40) <= k) as Hle
    by (intros k Hk; apply round_le; rewrite E1, E2; exact Hk).
  assert (forall k, k * Z.of_nat n <= Z.of_nat m * 40 ->
                    k <= round (ratio m n * 40)) as Hge
    by (intros k Hk; apply round_ge; rewrite E1, E2; exact Hk).
  split; [| split].
  - intros H2. pose proof (Hle 16 ltac:(lia)).
    assert (Z.max 5 (Z.min 60 (Z.of_nat m * 12)
                     + Z.min 40 (round (ratio m n * 40))) <= 40) as Hs by lia.
    split; [exact Hs |].
    now rewrite !(proj2 (Z.leb_gt _ _)) by lia.
  - intros H5m. pose proof (Hge 6 ltac:(lia)).
    assert (66 <= Z.max 5 (Z.min 60 (Z.of_nat m * 12)
                           + Z.min 40 (round (ratio m n * 40)))) as Hs by lia.
    split; [exact Hs |].
    repeat case_match; try discriminate.
    match goal with H : (45 <=? _) = false |- _ => apply Z.leb_gt in H end. lia.
  - destruct (Z.leb_spec 75 (Z.max 5 (Z.min 60 (Z.of_nat m * 12)
                                + Z.min 40 (round (ratio m n * 40)))))
      as [H75 | H75]; [| repeat case_match; discriminate].
    intros _. destruct (Nat.lt_ge_cases m 4) as [Hlt | Hge4]; [| exact Hge4].
    exfalso. pose proof (Hle 24 ltac:(lia)). lia.
Qed.

Lemma label_follows_matched_count_witness :
  ~ sparse scenario_posting
  /\ (4 <= size (top30_set scenario_posting ∩ resume_set scenario_resume))%nat.
Proof.
  assert (~ sparse scenario_posting) as H.
  { intros [H | [H | H]]; vm_compute in H; [discriminate | lia | lia]. }
  split; [exact H |].
  refine (proj2 (proj2
            (label_follows_matched_count scenario_resume scenario_posting H)) _).
  vm_compute. reflexivity.
Defined.

End CompatMore.

(** ** Further properties of the content validator *)

Module ContentMore.
Import Py PyFacts Validation Terms ContentFacts MoreTerms.
Local Open Scope Z_scope.

(** X9.  The empty-content rejection is returned exactly for the texts that strip
    to nothing; every other text gets at least the length, the two keyword
    and the error-scan reasons, and never the empty-content one. *)
Theorem blank_content_is_rejected (content : string) :
  let r := validate_and_score_job_content content in
  (strip content = EmptyString <-> r = mkValidationResult false 0 [ConteudoVazio])
  /\ (strip content <> EmptyString ->
      (4 <= length (reasons r))%nat /\ ConteudoVazio ∉ reasons r).
Proof.
  intros r. subst r. rewrite strip_empty_iff.
  destruct (blank content) eqn:E.
  - rewrite (blank_rejected _ E). split; [tauto | intros H; now contradiction H].
  - pose proof (proj1 (reasons_layout content) E) as Hd.
    split.
    + split; [discriminate |]. intros Hr. rewrite Hr in Hd. discriminate.
    + intros _. split.
      * apply (f_equal length) in Hd. rewrite length_fmap in Hd. rewrite Hd.
        rewrite !length_app. simpl. lia.
      * intros Hin. apply (list_elem_of_fmap_2 decision_of) in Hin.
        rewrite Hd in Hin. apply list_elem_of_In in Hin.
        rewrite !in_app_iff in Hin. simpl in Hin.
        destruct (words content), (has_list_structure content); simpl in Hin;
          intuition discriminate.
Qed.

Lemma Qgtb_half (u w : nat) :
  (0 < w)%nat ->
  Qgtb (Z.of_nat u # Pos.of_nat w) (1 # 2) = true <-> (w < 2 * u)%nat.
Proof.
  intros Hw. unfold Qgtb. rewrite negb_true_iff, <- not_true_iff_false.
  rewrite Qle_bool_iff. unfold Qle. cbn [Qnum Qden].
  rewrite <- (Nat2Pos.id w) at 2 by lia. rewrite <- positive_nat_Z.
  rewrite Nat2Pos.id by lia. lia.
Qed.

(** X10.  The score of a text that is not blank: with an error indicator it is at
    most 60, and at most 30 when the stripped text is shorter than 500
    characters; without one it is at least 15, and the text is valid as soon
    as more than half of its words longer than three characters are distinct,
    or three critical keywords occur, whatever its length. *)
Theorem score_with_and_without_error_indicator (content : string) :
  strip content <> EmptyString ->
  let r := validate_and_score_job_content content in
  (is_valid r = true <-> 30 <= score r)
  /\ (has_errors (lower content) = true ->
      score r <= 60
      /\ ((String.length (strip content) < 500)%nat -> score r <= 30))
  /\ (has_errors (lower content) = false ->
      15 <= score r
      /\ ((length (words content) < 2 * size (unique_words content))%nat ->
          is_valid r = true)
      /\ ((3 <= found critical_keywords (lower content))%nat ->
          is_valid r = true)).
Proof.
  intros Hne r. subst r.
  assert (blank content = false) as E.
  { destruct (blank content) eqn:E; [| reflexivity].
    now apply strip_blank in E. }
  pose proof (proj2 (reasons_layout content) E) as Hs. cbv zeta in Hs.
  rewrite layers_run by assumption. cbn [is_valid score].
  rewrite layers_run in Hs by assumption. cbn [score] in Hs.
  set (sc := fst (list_layer content
                    (error_layer (lower content) (before_error_scan content))))
    in *.
  pose proof (before_error_scan_total content) as Ht.
  pose proof (length_band_range (String.length (strip content))) as Hb.
  pose proof (critical_score_range (lower content)) as Hc.
  pose proof (context_score_range (lower content)) as Hx.
  pose proof (diversity_points_range content) as Hd.
  split; [apply Z.leb_le |]. split.
  - intros He. rewrite He in Hs. split.
    + destruct (has_list_structure content); lia.
    + intros Hl. unfold length_band in Hb, Ht.
      rewrite (proj2 (Nat.ltb_lt _ _) Hl) in Ht.
      destruct (has_list_structure content); lia.
  - intros He. rewrite He in Hs. split; [| split].
    + destruct (has_list_structure content); lia.
    + intros Hw. rewrite Z.leb_le.
      assert (diversity_points content = 15) as Hdp.
      { unfold diversity_points, diversity_layer.
        destruct (words content) eqn:Ew.
        - unfold unique_words in Hw. rewrite Ew in Hw.
          change (list_to_set (lower <$> [])) with (∅ : gset string) in Hw.
          rewrite size_empty in Hw. simpl in Hw. lia.
        - rewrite <- Ew in *.
          assert (0 < length (words content))%nat as Hpos
            by (destruct (words content); [discriminate | simpl; lia]).
          rewrite (proj2 (Qgtb_half _ _ Hpos) Hw). reflexivity. }
      destruct (has_list_structure content); lia.
    + intros Hf. rewrite Z.leb_le. unfold critical_score in *.
      destruct (has_list_structure content); lia.
Qed.

Lemma score_with_and_without_error_indicator_witness :
  strip "Vaga de Python" <> EmptyString
  /\ has_errors (lower "Vaga de Python") = false
  /\ is_valid (validate_and_score_job_content "Vaga de Python") = true.
Proof.
  assert (strip "Vaga de Python" <> EmptyString) as H
    by (vm_compute; discriminate).
  assert (has_errors (lower "Vaga de Python") = false) as He
    by (vm_compute; reflexivity).
  split; [exact H |]. split; [exact He |].
  refine (proj1 (proj2 (proj2 (proj2
            (score_with_and_without_error_indicator "Vaga de Python" H)) He)) _).
  vm_compute. lia.
Defined.

(** *** Letter case *)




Lemma lower_empty (s : string) : lower s = EmptyString <-> s = EmptyString.
Proof. destruct s; simpl; split; congruence. Qed.









(** *** The list-markup pattern *)

Lemma skip_digits_app (ds t : string) :
  forall_chars is_digit ds = true -> skip_digits (ds +:+ t) = skip_digits t.
Proof.
  induction ds as [|c ds IH]; [reflexivity |].
  rewrite str_app_cons. cbn [forall_chars skip_digits].
  intros [Hc Hds]%andb_true_iff. rewrite Hc. auto.
Qed.

Lemma skip_digits_split (s : string) :
  exists ds, s = ds +:+ skip_digits s /\ forall_chars is_digit ds = true.
Proof.
  induction s as [|c s (ds & IH1 & IH2)]; [now exists EmptyString |].
  cbn [skip_digits]. destruct (is_digit c) eqn:Ec.
  - exists (String c ds). rewrite str_app_cons, <- IH1. cbn. now rewrite Ec.
  - now exists EmptyString.
Qed.

Lemma numbered_item_spec (s : string) :
  numbered_item s = true <->
  exists digits w post,
    s = digits +:+ String "." (String w post)
    /\ digits <> EmptyString /\ forall_chars is_digit digits = true
    /\ is_space w = true.
Proof.
  split.
  - destruct s as [|c s]; [discriminate |]. cbn [numbered_item].
    intros [Hc Hrest]%andb_true_iff.
    destruct (skip_digits_split s) as (ds & Hs & Hds).
    destruct (skip_digits s) as [|d r]; [discriminate |].
    apply andb_true_iff in Hrest as [Hd Hr].
    apply Ascii.eqb_eq in Hd. subst d.
    destruct r as [|w post]; [discriminate |]. cbn in Hr.
    exists (String c ds), w, post. rewrite str_app_cons, <- Hs.
    repeat split; [discriminate | cbn; now rewrite Hc | exact Hr].
  - intros (ds & w & post & -> & Hne & Hds & Hw).
    destruct ds as [|c ds]; [contradiction |].
    rewrite str_app_cons. cbn [numbered_item]. cbn in Hds.
    apply andb_true_iff in Hds as [Hc Hds]. rewrite Hc.
    rewrite skip_digits_app by assumption. cbn. exact Hw.
Qed.

Lemma snoc_line_feed (c : ascii) (pre : string) :
  Ascii.eqb c "010" = true -> line_start pre ->
  exists p, String c pre = p +:+ String "010" EmptyString.
Proof.
  intros Hc%Ascii.eqb_eq [-> | [p ->]]; subst c.
  - now exists EmptyString.
  - now exists (String "010" p).
Qed.

Lemma search_list_spec (bol : bool) (s : string) :
  search_list bol s = true <->
  has_bullet s
  \/ exists pre rest,
       s = pre +:+ rest /\ numbered_item rest = true
       /\ if bol then line_start pre
          else exists p, pre = p +:+ String "010" EmptyString.
Proof.
  revert bol. induction s as [|c s IH]; intros bol.
  - cbn [search_list]. split; [discriminate |].
    intros [(pre & a & w & post & H & _) | (pre & rest & H & Hn & _)].
    + destruct pre; discriminate.
    + destruct pre; [| discriminate]. rewrite str_app_nil in H. now subst.
  - cbn [search_list]. rewrite !orb_true_iff, !andb_true_iff, IH. split.
    + intros [[[Hb Hw] | [Hbol Hn]] | [Hbul | (pre & rest & -> & Hn & Hpre)]].
      * left. destruct s as [|w post]; [discriminate |].
        now exists EmptyString, c, w, post.
      * right. exists EmptyString, (String c s). subst bol.
        repeat split; [assumption | now left].
      * left. destruct Hbul as (pre & a & w & post & -> & Ha & Hw).
        now exists (String c pre), a, w, post.
      * right. exists (String c pre), rest. rewrite str_app_cons.
        split; [reflexivity |]. split; [assumption |].
        destruct (Ascii.eqb c "010") eqn:Ec.
        -- destruct (snoc_line_feed c pre Ec Hpre) as [p Hp].
           destruct bol; [right |]; eauto.
        -- destruct Hpre as [p ->].
           destruct bol; [right |]; exists (String c p); reflexivity.
    + intros [(pre & a & w & post & H & Ha & Hw) | (pre & rest & H & Hn & Hpre)].
      * destruct pre as [|c' pre].
        -- rewrite str_app_nil in H. injection H as -> ->.
           left. left. split; assumption.
        -- rewrite str_app_cons in H. injection H as -> ->.
           right. left. now exists pre, a, w, post.
      * destruct pre as [|c' pre].
        -- rewrite str_app_nil in H. subst rest.
           destruct bol; [left; right; auto |].
           destruct Hpre as [p Hp]. destruct p; discriminate.
        -- rewrite str_app_cons in H. injection H as -> ->.
           right. right. exists pre, rest.
           split; [reflexivity |]. split; [assumption |].
           assert (exists p, String c' pre = p +:+ String "010" EmptyString)
             as [p Hp].
           { destruct bol; [| exact Hpre].
             destruct Hpre as [Hp | Hp]; [discriminate | exact Hp]. }
           destruct p as [|d p].
           ++ rewrite str_app_nil in Hp. injection Hp as -> ->.
              cbn. now left.
           ++ rewrite str_app_cons in Hp. injection Hp as -> ->.
              destruct (Ascii.eqb d "010"); [right |]; eauto.
Qed.

(** X12.  The list bonus is given exactly to the texts in which a hyphen or an
    asterisk is followed by a whitespace character, or in which some line
    starts with digits, a dot and a whitespace character. *)
Theorem list_structure_detected (content : string) :
  has_list_structure content = true
  <-> has_bullet content \/ has_numbered_line content.
Proof.
  unfold has_list_structure. rewrite search_list_spec.
  apply or_iff_compat_l. split.
  - intros (pre & rest & -> & Hn & Hpre).
    apply numbered_item_spec in Hn as (ds & w & post & -> & H1 & H2 & H3).
    exists pre, ds, w, post. auto.
  - intros (pre & ds & w & post & -> & H1 & H2 & H3 & H4).
    exists pre, (ds +:+ String "." (String w post)).
    split; [reflexivity |]. split; [| assumption].
    apply numbered_item_spec. exists ds, w, post. auto.
Qed.

End ContentMore.

(** ** Further properties of the details validator *)

Module DetailsMore.
Import Py PyFacts Validation Terms DetailsFacts MoreTerms.
Local Open Scope Z_scope.

Lemma keep_app (f : ascii -> bool) (s t : string) :
  keep f (s +:+ t) = keep f s +:+ keep f t.
Proof.
  induction s as [|c s IH]; [reflexivity |].
  rewrite str_app_cons. cbn [keep].
  destruct (f c); rewrite ?str_app_cons, IH; reflexivity.
Qed.

Lemma keep_forall (f : ascii -> bool) (s : string) :
  forall_chars f (keep f s) = true.
Proof.
  induction s as [|c s IH]; [reflexivity |].
  cbn [keep]. destruct (f c) eqn:E; [cbn; now rewrite E | exact IH].
Qed.

Lemma keep_id (f : ascii -> bool) (s : string) :
  forall_chars f s = true -> keep f s = s.
Proof.
  induction s as [|c s IH]; [reflexivity |]. cbn.
  intros [Hc Hs]%andb_true_iff. now rewrite Hc, IH.
Qed.

Lemma az09_lower_char (c : ascii) : is_az09 c = true -> lower_char c = c.
Proof. each_char c; discriminate. Qed.

Lemma lower_az09 (s : string) : forall_chars is_az09 s = true -> lower s = s.
Proof.
  induction s as [|c s IH]; [reflexivity |]. cbn.
  intros [Hc Hs]%andb_true_iff. now rewrite (az09_lower_char _ Hc), IH.
Qed.

(** X13.  The normalisation used for the blacklist keeps lower-case letters and
    digits only, is idempotent, ignores letter case, and drops every
    character that is no ASCII letter or digit wherever it stands: two fields
    that differ by case, spacing or punctuation are generic together. *)
Theorem generic_normalisation (value : string) :
  forall_chars is_az09 (_normalize_generic_term value) = true
  /\ _normalize_generic_term (_normalize_generic_term value)
     = _normalize_generic_term value
  /\ _normalize_generic_term (lower value) = _normalize_generic_term value
  /\ (forall a b c,
        is_az09 (lower_char c) = false ->
        _normalize_generic_term (a +:+ String c b)
        = _normalize_generic_term (a +:+ b))
  /\ (forall other,
        _normalize_generic_term other = _normalize_generic_term value ->
        (generic other <-> generic value)).
Proof.
  unfold _normalize_generic_term.
  split; [apply keep_forall |]. split.
  { rewrite (lower_az09 _ (keep_forall _ _)). apply keep_id, keep_forall. }
  split; [now rewrite CompatMore.lower_idem |]. split.
  { intros a b c Hc. rewrite !lower_app, !keep_app. cbn [lower keep].
    now rewrite Hc. }
  intros other Ho. unfold generic, _normalize_generic_term. now rewrite Ho.
Qed.

Lemma blank_keep_lower (field : string) :
  blank (lower field) = blank field
  /\ strip (lower (lower field)) = strip (lower field)
  /\ _normalize_generic_term (lower field) = _normalize_generic_term field.
Proof.
  split; [apply blank_lower |]. split; [now rewrite CompatMore.lower_idem |].
  unfold _normalize_generic_term. now rewrite CompatMore.lower_idem.
Qed.

(** X14.  The details validator ignores letter case: lower-casing the title and
    the company changes neither the score nor the validity. *)
Theorem details_validation_ignores_case (job_title company : string) :
  let r := validate_and_score_job_details job_title company in
  let r' := validate_and_score_job_details (lower job_title) (lower company) in
  score r' = score r /\ is_valid r' = is_valid r.
Proof.
  intros r r'. subst r r'.
  destruct (blank_keep_lower job_title) as (Hb1 & Hs1 & Hn1).
  destruct (blank_keep_lower company) as (Hb2 & Hs2 & Hn2).
  assert (generic (lower job_title) <-> generic job_title) as Hg1
    by (unfold generic; now rewrite Hn1).
  assert (generic (lower company) <-> generic company) as Hg2
    by (unfold generic; now rewrite Hn2).
  assert (forall lo, band_points lo (lower job_title) = band_points lo job_title)
    as Hp1 by (intros lo; unfold band_points; now rewrite Hs1).
  assert (forall lo, band_points lo (lower company) = band_points lo company)
    as Hp2 by (intros lo; unfold band_points; now rewrite Hs2).
  pose proof (details_cases job_title company) as Hc.
  pose proof (details_cases (lower job_title) (lower company)) as Hc'.
  cbv zeta in Hc, Hc'. rewrite Hb1, Hb2, Hg1, Hg2, !Hp1, !Hp2 in Hc'.
  destruct Hc as [(H1 & ->) | [(H1 & H2 & ->) | [(H1 & H2 & H3 & ->) | [(H1 & H2 & H3 & H4 & ->) | (H1 & H2 & H3 & H4 & ->)]]]];
    destruct Hc' as [(K1 & ->) | [(K1 & K2 & ->) | [(K1 & K2 & K3 & ->) | [(K1 & K2 & K3 & K4 & ->) | (K1 & K2 & K3 & K4 & ->)]]]];
    try congruence; try contradiction; cbn [score is_valid]; auto.
Qed.

(** X15.  The score is 50 exactly when both fields are present, neither is generic
    and exactly one of them lies in its length band; a missing or generic
    company gives 0 even after a title inside its band. *)
Theorem half_score_means_one_band (job_title company : string) :
  let r := validate_and_score_job_details job_title company in
  (score r = 50 <->
   strip (lower job_title) <> EmptyString /\ ~ generic job_title
   /\ strip (lower company) <> EmptyString /\ ~ generic company
   /\ ((title_in_band job_title /\ ~ company_in_band company)
       \/ (~ title_in_band job_title /\ company_in_band company)))
  /\ (strip (lower company) = EmptyString \/ generic company ->
      score r = 0 /\ is_valid r = false /\ length (reasons r) = 1%nat).
Proof.
  intros r. subst r.
  assert (forall f, strip (lower f) = EmptyString <-> blank f = true) as Hbl
    by (intros f; now rewrite strip_empty_iff, blank_lower).
  assert (forall f, strip (lower f) <> EmptyString <-> blank f = false) as Hnb
    by (intros f; rewrite Hbl; destruct (blank f); split; congruence).
  pose proof (band_points_values 5 job_title) as Ht.
  pose proof (band_points_values 2 company) as Hco.
  pose proof (band_points_50 5 job_title) as Ht50.
  pose proof (band_points_50 2 company) as Hc50.
  pose proof (fun f H => generic_not_blank f (proj1 (generic_iff f) H)) as Hgb.
  unfold title_in_band, company_in_band. rewrite !Hnb, Hbl.
  pose proof (details_cases job_title company) as Hc. cbv zeta in Hc.
  destruct Hc as [(H1 & ->) | [(H1 & H2 & ->) | [(H1 & H2 & H3 & ->) | [(H1 & H2 & H3 & H4 & ->) | (H1 & H2 & H3 & H4 & ->)]]]];
    cbn [score is_valid reasons length].
  - split; [split; [discriminate | intros (K & _); congruence] | auto].
  - split; [split; [discriminate | intros (_ & K & _); contradiction] | auto].
  - split; [split; [discriminate | intros (_ & _ & K & _); congruence] | auto].
  - split; [split; [discriminate | intros (_ & _ & _ & K & _); contradiction] | auto].
  - split.
    + split.
      * intros Hs. repeat split; auto.
        destruct Ht as [Ht | Ht], Hco as [Hco | Hco]; lia.
      * intros (_ & _ & _ & _ & HK).
        destruct Ht as [Ht | Ht], Hco as [Hco | Hco]; lia.
    + intros [K | K]; [congruence | contradiction].
Qed.

End DetailsMore.

(** ** Further properties of the generation-output parser *)

Module ParserMore.
Import Py PyFacts Terms GenerationAgent ParserTerms ParserFacts MoreTerms.

(** *** [strip] is idempotent *)

Lemma lstrip_head (s : string) :
  lstrip s = EmptyString
  \/ exists c r, lstrip s = String c r /\ is_space c = false.
Proof.
  induction s as [|c s IH]; [now left |]. cbn [lstrip].
  destruct (is_space c) eqn:E; [exact IH | right; eauto].
Qed.

Lemma rstrip_keeps_head (c : ascii) (r : string) :
  is_space c = false -> exists r', rstrip (String c r) = String c r'.
Proof. intros E. cbn [rstrip]. rewrite E. destruct (rstrip r); eauto. Qed.

Lemma rstrip_cons (c : ascii) (s : string) :
  rstrip (String c s)
  = match rstrip s with
    | EmptyString => if is_space c then EmptyString else String c EmptyString
    | r => String c r
    end.
Proof. reflexivity. Qed.

Lemma rstrip_idem (s : string) : rstrip (rstrip s) = rstrip s.
Proof.
  induction s as [|c s IH]; [reflexivity |]. rewrite rstrip_cons.
  destruct (rstrip s) as [|d r] eqn:E.
  - destruct (is_space c) eqn:Ec; [reflexivity |]. cbn. now rewrite Ec.
  - rewrite rstrip_cons, IH. reflexivity.
Qed.

Lemma strip_idem (s : string) : strip (strip s) = strip s.
Proof.
  unfold strip. destruct (lstrip_head s) as [-> | (c & r & -> & Hc)];
    [reflexivity |].
  destruct (rstrip_keeps_head c r Hc) as [r' Hr]. rewrite Hr.
  cbn [lstrip]. rewrite Hc, <- Hr. apply rstrip_idem.
Qed.

Lemma parse_section_stripped (text start_marker : string)
    (end_marker : option string) :
  strip (missing_section start_marker) = missing_section start_marker ->
  strip (parse_section text start_marker end_marker)
  = parse_section text start_marker end_marker.
Proof.
  intros Hm. unfold parse_section.
  destruct (find start_marker text); [apply strip_idem | exact Hm].
Qed.

(** X16.  Every field that the parser returns is free of leading and trailing
    whitespace, the placeholders included. *)
Theorem parsed_fields_are_stripped (response_text key value : string) :
  _parse_generated_content response_text !! key = Some value ->
  strip value = value.
Proof.
  unfold _parse_generated_content, sections. cbn [parse_loop].
  intros H.
  repeat (apply lookup_insert_Some in H
          as [[_ <-] | [_ H]];
          [apply parse_section_stripped; vm_compute; reflexivity |]).
  now rewrite lookup_empty in H.
Qed.

Lemma parsed_fields_are_stripped_witness :
  _parse_generated_content response_without_letter !! "interviewTips"
  = Some "tips"
  /\ strip "tips" = "tips".
Proof.
  assert (_parse_generated_content response_without_letter !! "interviewTips"
          = Some "tips") as H by (vm_compute; reflexivity).
  split; [exact H |].
  exact (parsed_fields_are_stripped response_without_letter _ _ H).
Defined.

(** *** Responses with the four markers in order *)

Lemma startswith_longer (p q s : string) :
  startswith p s = false -> startswith (p +:+ q) s = false.
Proof.
  intros H. destruct (startswith (p +:+ q) s) eqn:E; [| reflexivity].
  apply startswith_spec in E as [post ->].
  rewrite str_app_assoc in H.
  assert (startswith p (p +:+ q +:+ post) = true)
    by (apply startswith_spec; eauto).
  congruence.
Qed.

Lemma tail_ok_spec (rest : string) :
  tail_ok rest = true ->
  (forall q, startswith (String " " q) rest = false)
  /\ (forall q, startswith (String "#" (String " " q)) rest = false)
  /\ (forall q, startswith (String "#" (String "#" (String " " q))) rest = false).
Proof.
  unfold tail_ok. rewrite !andb_true_iff, !negb_true_iff.
  intros [[H1 H2] H3]. repeat split; intros q.
  - apply (startswith_longer " " q rest H1).
  - apply (startswith_longer "# " q rest H2).
  - apply (startswith_longer "## " q rest H3).
Qed.

Lemma clean_body_cons (c : ascii) (body : string) :
  clean_body (String c body) = true ->
  Ascii.eqb c "#" = false /\ Ascii.eqb c " " = false
  /\ forall_chars (fun ch => negb (Ascii.eqb ch "#")) body = true.
Proof.
  unfold clean_body. cbn [forall_chars startswith].
  rewrite !andb_true_iff, !negb_true_iff. intros [[Hc Hbody] Hsp].
  split; [exact Hc |]. split; [| exact Hbody].
  rewrite Ascii.eqb_sym. destruct (Ascii.eqb " " c); [discriminate | reflexivity].
Qed.

(** A marker is not found inside a body without [#]. *)
Lemma find_skip_body (m body rest : string) :
  forall_chars (fun ch => negb (Ascii.eqb ch "#")) body = true ->
  find (String "#" m) (body +:+ rest)
  = option_map (Nat.add (String.length body)) (find (String "#" m) rest).
Proof.
  induction body as [|c body IH]; intros Hb.
  - rewrite str_app_nil. cbn. now destruct (find _ rest).
  - cbn in Hb. apply andb_true_iff in Hb as [Hc Hb].
    apply negb_true_iff in Hc.
    rewrite str_app_cons, find_unfold. cbn [startswith].
    rewrite Ascii.eqb_sym, Hc, (IH Hb).
    destruct (find _ rest); reflexivity.
Qed.

Lemma tail_ok_body (body rest : string) :
  clean_body body = true ->
  (body = EmptyString -> tail_ok rest = true) ->
  tail_ok (body +:+ rest) = true.
Proof.
  destruct body as [|c body]; intros Hb Hr.
  - rewrite str_app_nil. auto.
  - apply clean_body_cons in Hb as (H1 & H2 & _).
    rewrite str_app_cons. unfold tail_ok. cbn [startswith].
    rewrite (Ascii.eqb_sym " " c), (Ascii.eqb_sym "#" c), H1, H2. reflexivity.
Qed.

Lemma startswith_residual (m y rest : string) :
  startswith m (y +:+ rest)
  = match residual m y with
    | Differs => false
    | Covered => true
    | Remains q => startswith q rest
    end.
Proof.
  revert y. induction m as [|a m IH]; intros y; [reflexivity |].
  destruct y as [|b y]; [rewrite str_app_nil; reflexivity |].
  rewrite str_app_cons. cbn [startswith residual].
  destruct (Ascii.eqb a b); [apply IH | reflexivity].
Qed.

Lemma slice_from_app_le (j : nat) (x rest : string) :
  (j <= String.length x)%nat ->
  slice_from j (x +:+ rest) = slice_from j x +:+ rest.
Proof.
  revert x. induction j as [|j IH]; intros x Hj; [reflexivity |].
  destruct x as [|c x]; [simpl in Hj; lia |].
  rewrite str_app_cons. cbn [slice_from]. apply IH. simpl in Hj. lia.
Qed.

Lemma find_skip (m x rest : string) :
  (forall j, (j < String.length x)%nat ->
             startswith m (slice_from j x +:+ rest) = false) ->
  find m (x +:+ rest)
  = option_map (Nat.add (String.length x)) (find m rest).
Proof.
  induction x as [|c x IH]; intros H.
  - rewrite str_app_nil. cbn. now destruct (find m rest).
  - rewrite find_unfold.
    pose proof (H 0%nat ltac:(simpl; lia)) as H0. cbn [slice_from] in H0.
    rewrite H0, str_app_cons, IH.
    + destruct (find m rest); reflexivity.
    + intros j Hj. apply (H (S j)). simpl. lia.
Qed.

(** A marker is not found inside another marker that passes [skip_ok]. *)
Lemma find_skip_marker (m x rest : string) :
  skip_ok m x = true -> tail_ok rest = true ->
  find m (x +:+ rest)
  = option_map (Nat.add (String.length x)) (find m rest).
Proof.
  intros Hok Ht. apply find_skip. intros j Hj.
  unfold skip_ok in Hok. rewrite forallb_forall in Hok.
  specialize (Hok j ltac:(apply in_seq; lia)).
  rewrite startswith_residual.
  destruct (residual m (slice_from j x)) as [| |q]; [reflexivity | discriminate |].
  unfold tail_ok in Ht. rewrite !andb_true_iff, !negb_true_iff in Ht.
  destruct Ht as [[H1 H2] H3].
  rewrite !orb_true_iff in Hok.
  destruct Hok as [[Hq | Hq] | Hq]; apply startswith_spec in Hq as [q' ->];
    now apply startswith_longer.
Qed.

Lemma slice_from_app (x y : string) (n : nat) :
  slice_from (String.length x + n) (x +:+ y) = slice_from n y.
Proof. induction x as [|c x IH]; [reflexivity | exact IH]. Qed.

Lemma slice_to_app (x y : string) : slice_to (String.length x) (x +:+ y) = x.
Proof.
  induction x as [|c x IH]; [now destruct y |].
  rewrite str_app_cons. cbn. now rewrite IH.
Qed.

Lemma slice_to_all (x : string) : slice_to (String.length x) x = x.
Proof. induction x as [|c x IH]; [reflexivity | cbn; now rewrite IH]. Qed.

Lemma find_here (m rest : string) : find m (m +:+ rest) = Some 0%nat.
Proof.
  rewrite find_unfold.
  assert (startswith m (m +:+ rest) = true) as ->
    by (apply startswith_spec; eauto).
  reflexivity.
Qed.

Lemma slice_from_exact (x y : string) :
  slice_from (String.length x) (x +:+ y) = y.
Proof.
  rewrite <- (Nat.add_0_r (String.length x)). apply slice_from_app.
Qed.

Lemma parse_section_between (pre m body rest e : string) :
  find m (pre +:+ m +:+ body +:+ rest) = Some (String.length pre) ->
  find_from e (pre +:+ m +:+ body +:+ rest) (String.length pre)
  = Some (String.length pre + String.length m + String.length body)%nat ->
  parse_section (pre +:+ m +:+ body +:+ rest) m (Some e) = strip body.
Proof.
  intros Hs He. unfold parse_section. rewrite Hs, He. f_equal. unfold slice.
  rewrite slice_from_app, slice_from_exact.
  replace (String.length pre + String.length m + String.length body
           - (String.length pre + String.length m))%nat
    with (String.length body) by lia.
  apply slice_to_app.
Qed.

Lemma parse_section_last (pre m body : string) :
  find m (pre +:+ m +:+ body) = Some (String.length pre) ->
  parse_section (pre +:+ m +:+ body) m None = strip body.
Proof.
  intros Hs. unfold parse_section. rewrite Hs. f_equal. unfold slice.
  rewrite slice_from_app, slice_from_exact, !str_length_app.
  replace (String.length pre + (String.length m + String.length body)
           - (String.length pre + String.length m))%nat
    with (String.length body) by lia.
  apply slice_to_all.
Qed.

Lemma find_from_suffix (e pre rest : string) (i : nat) :
  find e rest = Some i ->
  find_from e (pre +:+ rest) (String.length pre)
  = Some (String.length pre + i)%nat.
Proof.
  intros H. unfold find_from. rewrite str_length_app.
  rewrite (proj2 (Nat.ltb_ge _ _)) by lia.
  rewrite slice_from_exact, H. reflexivity.
Qed.

(** X17.  Round trip: a response made of the four markers in order, each followed
    by a body without [#] that does not start with a space, is split into
    the four bodies, stripped. *)
Theorem well_formed_response_is_split (cv letter message tips : string) :
  clean_body cv = true -> clean_body letter = true ->
  clean_body message = true -> clean_body tips = true ->
  let parsed :=
    _parse_generated_content (well_formed_response cv letter message tips) in
  parsed !! "optimizedCv" = Some (strip cv)
  /\ parsed !! "coverLetter" = Some (strip letter)
  /\ parsed !! "networkingMessage" = Some (strip message)
  /\ parsed !! "interviewTips" = Some (strip tips).
Proof.
  intros Ha Hb Hc Hd parsed.
  set (M1 := "### OPTIMIZED CV ###"). set (M2 := "### COVER LETTER ###").
  set (M3 := "### NETWORKING MESSAGE ###"). set (M4 := "### INTERVIEW TIPS ###").
  set (R4 := M4 +:+ tips). set (R3 := M3 +:+ message +:+ R4).
  set (R2 := M2 +:+ letter +:+ R3).
  assert (forall body, clean_body body = true ->
            forall_chars (fun ch => negb (Ascii.eqb ch "#")) body = true)
    as Hclean by (intros body H; now apply andb_true_iff in H as [H _]).
  assert (tail_ok tips = true) as Ht4.
  { rewrite <- (str_app_empty_r tips). now apply tail_ok_body. }
  assert (tail_ok (message +:+ R4) = true) as Ht3
    by now apply tail_ok_body.
  assert (tail_ok (letter +:+ R3) = true) as Ht2
    by now apply tail_ok_body.
  assert (tail_ok (cv +:+ R2) = true) as Ht1
    by now apply tail_ok_body.
  (* first occurrences, from the start of each suffix *)
  assert (find M4 (message +:+ R4) = Some (String.length message + 0)%nat) as F43.
  { unfold M4 at 1. rewrite find_skip_body by auto.
    unfold R4. now rewrite find_here. }
  assert (find M4 R3 = Some (26 + (String.length message + 0))%nat) as F4R3.
  { unfold R3. rewrite (find_skip_marker M4 M3) by (auto; reflexivity).
    now rewrite F43. }
  assert (find M4 R2
          = Some (20 + (String.length letter
                        + (26 + (String.length message + 0))))%nat) as F4R2.
  { unfold R2. rewrite (find_skip_marker M4 M2) by (auto; reflexivity).
    unfold M4 at 1. rewrite find_skip_body by auto. fold M4. now rewrite F4R3. }
  assert (find M3 R2 = Some (20 + (String.length letter + 0))%nat) as F3R2.
  { unfold R2. rewrite (find_skip_marker M3 M2) by (auto; reflexivity).
    unfold M3 at 1. rewrite find_skip_body by auto.
    unfold R3. now rewrite find_here. }
  set (T := well_formed_response cv letter message tips) in *.
  assert (T = M1 +:+ cv +:+ R2) as HT by reflexivity.
  assert (forall m i, skip_ok (String "#" m) M1 = true ->
            find (String "#" m) R2 = Some i ->
            find (String "#" m) T
            = Some (20 + (String.length cv + i))%nat) as Hskip1.
  { intros m i Hok Hi. rewrite HT, (find_skip_marker _ M1) by auto.
    rewrite find_skip_body by auto. now rewrite Hi. }
  assert (find M1 T = Some 0%nat) as F1 by (rewrite HT; apply find_here).
  assert (find M2 T = Some (20 + (String.length cv + 0))%nat) as F2
    by (apply Hskip1; [reflexivity | apply find_here]).
  pose proof (Hskip1 _ _ (eq_refl : skip_ok M3 M1 = true) F3R2) as F3.
  pose proof (Hskip1 _ _ (eq_refl : skip_ok M4 M1 = true) F4R2) as F4.
  fold M3 in F3. fold M4 in F4.
  (* the four fields *)
  assert (parse_section T M1 (Some M2) = strip cv) as P1.
  { apply (parse_section_between EmptyString M1 cv R2 M2); [exact F1 |].
    change (EmptyString +:+ M1 +:+ cv +:+ R2) with T.
    unfold find_from. cbn [String.length slice_from Nat.ltb Nat.leb].
    rewrite F2. cbn. f_equal. lia. }
  assert (parse_section T M2 (Some M3) = strip letter) as P2.
  { replace T with ((M1 +:+ cv) +:+ M2 +:+ letter +:+ R3)
      by (now rewrite str_app_assoc).
    apply parse_section_between.
    - rewrite str_app_assoc. fold R2. rewrite <- HT, F2, str_length_app.
      f_equal. simpl. lia.
    - fold R2. rewrite (find_from_suffix M3 (M1 +:+ cv) R2 _ F3R2).
      f_equal. simpl. lia. }
  assert (parse_section T M3 (Some M4) = strip message) as P3.
  { replace T with ((M1 +:+ cv +:+ M2 +:+ letter) +:+ M3 +:+ message +:+ R4)
      by (now rewrite !str_app_assoc).
    apply parse_section_between.
    - rewrite !str_app_assoc. fold R3 R2. rewrite <- HT, F3, !str_length_app.
      f_equal. simpl. lia.
    - fold R3. rewrite (find_from_suffix M4 (M1 +:+ cv +:+ M2 +:+ letter) R3 _ F4R3).
      f_equal. simpl. lia. }
  assert (parse_section T M4 None = strip tips) as P4.
  { replace T
      with ((M1 +:+ cv +:+ M2 +:+ letter +:+ M3 +:+ message) +:+ M4 +:+ tips)
      by (now rewrite !str_app_assoc).
    apply parse_section_last.
    rewrite !str_app_assoc. fold R4 R3 R2. rewrite <- HT, F4, !str_length_app.
    f_equal. simpl. lia. }
  subst parsed. unfold _parse_generated_content, sections. cbn [parse_loop].
  fold M1 M2 M3 M4. rewrite <- P1, <- P2, <- P3, <- P4.
  repeat split; rewrite ?lookup_insert_ne by discriminate;
    apply lookup_insert_eq.
Qed.

Lemma well_formed_response_is_split_witness :
  clean_body (String "010" "Jane Doe, engineer. ") = true
  /\ _parse_generated_content
       (well_formed_response (String "010" "Jane Doe, engineer. ")
          (String "010" "Dear team") (String "010" "Hello") EmptyString)
     !! "optimizedCv"
     = Some "Jane Doe, engineer.".
Proof.
  split; [reflexivity |].
  exact (proj1 (well_formed_response_is_split
                  (String "010" "Jane Doe, engineer. ")
                  (String "010" "Dear team") (String "010" "Hello")
                  EmptyString eq_refl eq_refl eq_refl eq_refl)).
Defined.

End ParserMore.

(** ** Facts shared by the properties of scraper, agents and endpoint *)

Module FlowFacts.
Import Py Validation Terms MoreTerms PyFacts ContentFacts DetailsFacts FlowTerms.
Local Open Scope Z_scope.

Lemma accepted_valid (v : ValidationResult) :
  is_valid v = true -> ExtractionAgent.accepted v = v.
Proof. destruct v as [b s r]. simpl. intros ->. reflexivity. Qed.

(** An accepted content is not blank and scores between 30 and 100. *)
Lemma content_valid_score (content : string) :
  is_valid (validate_and_score_job_content content) = true ->
  blank content = false
  /\ 30 <= score (validate_and_score_job_content content) <= 100.
Proof.
  intros Hv. pose proof (content_score_range content) as Hr.
  destruct (blank content) eqn:E.
  - rewrite blank_rejected in Hv by assumption. discriminate.
  - split; [reflexivity |].
    rewrite layers_run in Hv |- * by assumption.
    rewrite layers_run in Hr by assumption.
    cbv zeta in *. simpl in *. apply Z.leb_le in Hv. lia.
Qed.

(** An accepted pair of title and company gets the one verdict with score
    100. *)
Lemma details_valid_verdict (job_title company : string) :
  is_valid (validate_and_score_job_details job_title company) = true ->
  validate_and_score_job_details job_title company = details_accepted
  /\ title_in_band job_title /\ company_in_band company
  /\ ~ generic job_title /\ ~ generic company.
Proof.
  intros Hv.
  destruct (details_cases job_title company)
    as [(_ & E) | [(_ & _ & E) | [(_ & _ & _ & E) | [(_ & _ & _ & _ & E)
       | (_ & Hgt & _ & Hgc & E)]]]];
    rewrite E in Hv |- *; try discriminate.
  simpl in Hv. apply Z.leb_le in Hv.
  assert (band_points 5 job_title = 50 /\ band_points 2 company = 50)
    as [Ht Hc].
  { destruct (band_points_values 5 job_title),
             (band_points_values 2 company); lia. }
  pose proof (proj1 (band_points_50 _ _) Ht) as Bt.
  pose proof (proj1 (band_points_50 _ _) Hc) as Bc.
  split; [| auto].
  rewrite Ht, Hc. unfold details_accepted, title_band_reason, company_band_reason.
  destruct (Nat.ltb_spec (String.length (strip (lower job_title))) 5); [lia |].
  destruct (Nat.ltb_spec 100 (String.length (strip (lower job_title)))); [lia |].
  destruct (Nat.ltb_spec (String.length (strip (lower company))) 2); [lia |].
  destruct (Nat.ltb_spec 100 (String.length (strip (lower company)))); [lia |].
  reflexivity.
Qed.

End FlowFacts.

(** ** Further properties: the CORS origins of the configuration *)

Module ConfigMore.
Import Py PyFacts Terms MoreTerms Config FlowTerms CompatMore ParserMore.

Lemma lstrip_split (s : string) :
  exists pre, s = pre +:+ lstrip s /\ blank pre = true.
Proof.
  induction s as [|c s (pre & E & B)]; [now exists EmptyString |].
  cbn [lstrip]. destruct (is_space c) eqn:Ec.
  - exists (String c pre). rewrite str_app_cons, <- E. simpl. now rewrite Ec, B.
  - now exists EmptyString.
Qed.

Lemma rstrip_split (s : string) :
  exists post, s = rstrip s +:+ post /\ blank post = true.
Proof.
  induction s as [|c s (post & E & B)]; [now exists EmptyString |].
  rewrite rstrip_cons. destruct (rstrip s) as [|d r] eqn:Er.
  - rewrite str_app_nil in E. subst post.
    destruct (is_space c) eqn:Ec.
    + exists (String c s). rewrite str_app_nil. simpl. now rewrite Ec, B.
    + exists s. now rewrite str_app_cons, str_app_nil.
  - exists post. now rewrite str_app_cons, <- E.
Qed.

(** [strip] cuts a blank text off each end. *)
Lemma strip_split (s : string) :
  exists pre post,
    s = pre +:+ strip s +:+ post /\ blank pre = true /\ blank post = true.
Proof.
  destruct (lstrip_split s) as (pre & E & B).
  destruct (rstrip_split (lstrip s)) as (post & E' & B').
  exists pre, post. unfold strip. now rewrite <- E', <- E.
Qed.

Lemma forall_chars_strip (f : ascii -> bool) (s : string) :
  forall_chars f s = true -> forall_chars f (strip s) = true.
Proof.
  destruct (strip_split s) as (pre & post & E & _). intros H.
  rewrite E, !forall_chars_app in H.
  now apply andb_prop in H as [_ [H _]%andb_prop].
Qed.

Lemma occurs_trans (a b c : string) : occurs a b -> occurs b c -> occurs a c.
Proof.
  intros (p & q & ->) (p' & q' & ->). exists (p' +:+ p), (q +:+ q').
  now rewrite !str_app_assoc.
Qed.

Lemma comma_free_snoc (w : string) (c : ascii) :
  comma_free w = true -> Ascii.eqb c "," = false ->
  comma_free (w +:+ String c EmptyString) = true.
Proof.
  intros Hw Hc. unfold comma_free in *. rewrite forall_chars_app, Hw. simpl.
  now rewrite Hc.
Qed.

(** The pieces of a split hold no comma and are parts of the text. *)
Lemma split_at_pieces (s w x : string) :
  comma_free w = true -> x ∈ split_at "," w s ->
  comma_free x = true /\ occurs x (w +:+ s).
Proof.
  revert w. induction s as [|c s IH]; intros w Hw Hx; cbn [split_at] in Hx.
  - apply list_elem_of_singleton in Hx as ->. split; [exact Hw |].
    exists EmptyString, EmptyString. now rewrite str_app_nil.
  - destruct (Ascii.eqb c ",") eqn:Ec.
    + apply elem_of_cons in Hx as [-> | Hx].
      * split; [exact Hw |]. exists EmptyString, (String c s).
        now rewrite str_app_nil.
      * destruct (IH EmptyString eq_refl Hx) as [Hc (p & q & E)].
        split; [exact Hc |]. rewrite str_app_nil in E.
        exists (w +:+ String c p), q.
        rewrite E, !str_app_assoc, !str_app_cons. reflexivity.
    + destruct (IH _ (comma_free_snoc w c Hw Ec) Hx) as [Hc Ho].
      split; [exact Hc |].
      now rewrite str_app_assoc, str_app_cons, str_app_nil in Ho.
Qed.

(** X18.  Every origin that [parse_cors_origins] reads from a string is
    non-empty, has no whitespace around it, holds no comma, and is a part of
    that string. *)
Theorem cors_origins_are_clean (v origin : string) :
  origin ∈ parse_cors_origins (OriginsStr v) ->
  origin <> EmptyString
  /\ strip origin = origin
  /\ comma_free origin = true
  /\ occurs origin v.
Proof.
  unfold parse_cors_origins. intros H.
  apply list_elem_of_fmap in H as (piece & -> & H).
  apply list_elem_of_filter in H as [Hne H].
  destruct (split_at_pieces v EmptyString piece eq_refl H) as [Hc Ho].
  rewrite str_app_nil in Ho.
  split; [exact Hne |]. split; [apply strip_idem |].
  split; [now apply forall_chars_strip |].
  apply occurs_trans with piece; [| exact Ho].
  destruct (strip_split piece) as (pre & post & E & _). now exists pre, post.
Qed.

Lemma cors_origins_are_clean_witness :
  "http://b.org" ∈ parse_cors_origins (OriginsStr " http://a.org , ,http://b.org,")
  /\ strip "http://b.org" = "http://b.org"
  /\ parse_cors_origins (OriginsStr " http://a.org , ,http://b.org,")
     = ["http://a.org"; "http://b.org"].
Proof.
  assert ("http://b.org"
          ∈ parse_cors_origins (OriginsStr " http://a.org , ,http://b.org,"))
    as H by (vm_compute; apply list_elem_of_In; simpl; auto).
  split; [exact H |]. split; [| vm_compute; reflexivity].
  exact (proj1 (proj2 (cors_origins_are_clean _ _ H))).
Defined.

Lemma split_at_app (p w s : string) :
  comma_free p = true ->
  split_at "," w (p +:+ s) = split_at "," (w +:+ p) s.
Proof.
  revert w. induction p as [|c p IH]; intros w H.
  - now rewrite str_app_nil, str_app_empty_r.
  - unfold comma_free in H. simpl in H. apply andb_prop in H as [Hc Hp].
    apply negb_true_iff in Hc. rewrite str_app_cons. cbn [split_at].
    rewrite Hc, (IH _ Hp), str_app_assoc, str_app_cons, str_app_nil.
    reflexivity.
Qed.

(** Splitting undoes joining, for pieces without a comma. *)
Lemma split_at_join (p : string) (l : list string) (w : string) :
  Forall (fun x => comma_free x = true) (p :: l) ->
  split_at "," w (join "," (p :: l)) = (w +:+ p) :: l.
Proof.
  revert p w. induction l as [|q l IH]; intros p w H.
  - cbn [join]. rewrite <- (str_app_empty_r p) at 1.
    rewrite split_at_app by now inversion H. reflexivity.
  - change (join "," (p :: q :: l)) with (p +:+ "," +:+ join "," (q :: l)).
    inversion H as [| ? ? Hp Hl]; subst.
    rewrite split_at_app by exact Hp.
    rewrite str_app_cons, str_app_nil. cbn [split_at]. simpl Ascii.eqb.
    rewrite (IH q EmptyString Hl), str_app_nil. reflexivity.
Qed.

(** X19.  Reading back a list of comma-free pieces joined by commas gives the
    pieces that are not blank, each stripped; a list of origins that are
    non-empty and have no whitespace around them is read back as it is. *)
Theorem cors_origins_round_trip (pieces : list string) :
  Forall (fun p => comma_free p = true) pieces ->
  parse_cors_origins (OriginsStr (join "," pieces))
  = strip <$> filter (fun p => strip p <> EmptyString) pieces
  /\ (Forall (fun p => p <> EmptyString /\ strip p = p) pieces ->
      parse_cors_origins (OriginsStr (join "," pieces)) = pieces).
Proof.
  intros H.
  assert (parse_cors_origins (OriginsStr (join "," pieces))
          = strip <$> filter (fun p => strip p <> EmptyString) pieces) as E.
  { unfold parse_cors_origins. destruct pieces as [|p l]; [reflexivity |].
    now rewrite split_at_join, str_app_nil. }
  split; [exact E |]. intros Hclean. rewrite E. clear E H.
  induction Hclean as [|p l [Hne Hs] _ IH]; [reflexivity |].
  rewrite filter_cons_True by now rewrite Hs.
  rewrite fmap_cons, Hs. f_equal. exact IH.
Qed.

Lemma cors_origins_round_trip_witness :
  Forall (fun p => comma_free p = true)
         ["http://localhost:5173"; "  "; " https://app.example.org "]
  /\ parse_cors_origins
       (OriginsStr "http://localhost:5173,  , https://app.example.org ")
     = ["http://localhost:5173"; "https://app.example.org"].
Proof.
  assert (Forall (fun p => comma_free p = true)
            ["http://localhost:5173"; "  "; " https://app.example.org "]) as H
    by (repeat constructor).
  split; [exact H |].
  exact (proj1 (cors_origins_round_trip _ H)).
Defined.

End ConfigMore.

(** ** Further properties: the web scraper *)

Module ScraperMore.
Import Py PyFacts Terms MoreTerms WebScraper FlowTerms ParserMore.

Section Pages.

Variable has_scheme_and_netloc : string -> bool.
Variable get : string -> option string.
Variable extract : string -> option posting.

Lemma direct_scrape_page (u : string) (p : posting) :
  _try_direct_scrape get extract u = Some p <-> page_of get extract u p.
Proof.
  unfold _try_direct_scrape, _parse_html, page_of. split.
  - destruct (get u) as [html |]; [| discriminate].
    destruct (extract html) as [raw |] eqn:E; [| discriminate].
    intros [= <-]. eauto.
  - intros (html & raw & -> & E & ->). now rewrite E.
Qed.

Lemma direct_scrape_none (u : string) :
  _try_direct_scrape get extract u = None
  <-> forall q, ~ page_of get extract u q.
Proof.
  split.
  - intros E q Hq. apply direct_scrape_page in Hq. congruence.
  - intros H. destruct (_try_direct_scrape get extract u) as [q |] eqn:E;
      [| reflexivity].
    apply direct_scrape_page in E. now destruct (H q).
Qed.

Lemma page_trimmed (u : string) (p : posting) :
  page_of get extract u p -> trimmed p.
Proof.
  intros (html & raw & _ & _ & ->). unfold trimmed. simpl.
  now rewrite !strip_idem.
Qed.

(** One turn of the proxy loop. *)
Lemma proxy_loop_cons (u : string) (rest : list string) :
  proxy_loop get extract (u :: rest)
  = match _try_direct_scrape get extract u with
    | Some result =>
        if (200 <? String.length (fullText result))%nat then Some result
        else proxy_loop get extract rest
    | None => proxy_loop get extract rest
    end.
Proof.
  cbn [proxy_loop]. unfold _try_direct_scrape.
  destruct (get u); reflexivity.
Qed.

Lemma proxy_loop_long (u : string) (rest : list string) (p : posting) :
  long_page_of get extract u p ->
  proxy_loop get extract (u :: rest) = Some p.
Proof.
  intros [Hp Hl]. rewrite proxy_loop_cons.
  rewrite (proj2 (direct_scrape_page u p) Hp).
  now rewrite (proj2 (Nat.ltb_lt _ _) Hl).
Qed.

Lemma proxy_loop_skip (u : string) (rest : list string) :
  (forall q, ~ long_page_of get extract u q) ->
  proxy_loop get extract (u :: rest) = proxy_loop get extract rest.
Proof.
  intros H. rewrite proxy_loop_cons.
  destruct (_try_direct_scrape get extract u) as [q |] eqn:E; [| reflexivity].
  destruct (Nat.ltb_spec 200 (String.length (fullText q))); [| reflexivity].
  destruct (H q). split; [now apply direct_scrape_page | assumption].
Qed.

Lemma long_page_dec (u : string) :
  (exists p, long_page_of get extract u p)
  \/ (forall q, ~ long_page_of get extract u q).
Proof.
  destruct (_try_direct_scrape get extract u) as [p |] eqn:E.
  - destruct (Nat.ltb_spec 200 (String.length (fullText p))).
    + left. exists p. split; [now apply direct_scrape_page | assumption].
    + right. intros q [Hq Hl]. apply direct_scrape_page in Hq.
      assert (q = p) by congruence. subst q. lia.
  - right. intros q [Hq _]. apply direct_scrape_page in Hq. congruence.
Qed.

Lemma long_page_unique (u : string) (p q : posting) :
  long_page_of get extract u p -> long_page_of get extract u q -> p = q.
Proof.
  intros [Hp _] [Hq _]. apply direct_scrape_page in Hp, Hq. congruence.
Qed.

(** X20.  [scrape_job_posting] returns the posting [p] exactly when the URL
    has a scheme and a network location and [p] is parsed from the page of
    the URL itself, whatever the length of its text, or, no posting being
    parsed from that page, from the first of the two proxy addresses, in
    their order, whose page yields a text of more than 200 characters.  No
    field of a returned posting has whitespace around it. *)
Theorem scrape_job_posting_outcome (url : string) (p : posting) :
  let first := "https://api.allorigins.win/raw?url=" +:+ url in
  let second := "https://corsproxy.io/?" +:+ url in
  (scrape_job_posting has_scheme_and_netloc get extract url = inr p
   <-> has_scheme_and_netloc url = true
       /\ (page_of get extract url p
           \/ ((forall q, ~ page_of get extract url q)
               /\ (long_page_of get extract first p
                   \/ ((forall q, ~ long_page_of get extract first q)
                       /\ long_page_of get extract second p)))))
  /\ (scrape_job_posting has_scheme_and_netloc get extract url = inr p ->
      trimmed p).
Proof.
  intros first second.
  assert (scrape_job_posting has_scheme_and_netloc get extract url = inr p
          <-> has_scheme_and_netloc url = true
              /\ (page_of get extract url p
                  \/ ((forall q, ~ page_of get extract url q)
                      /\ (long_page_of get extract first p
                          \/ ((forall q, ~ long_page_of get extract first q)
                              /\ long_page_of get extract second p))))) as Hiff.
  { subst first second.
    set (first := "https://api.allorigins.win/raw?url=" +:+ url).
    set (second := "https://corsproxy.io/?" +:+ url).
    unfold scrape_job_posting, _try_cors_proxy_scrape.
    change (proxies url) with [first; second].
    destruct (has_scheme_and_netloc url); cbn [negb];
      [| split; [discriminate | intros [? _]; discriminate]].
    destruct (_try_direct_scrape get extract url) as [q |] eqn:Ed.
    - apply direct_scrape_page in Ed. split.
      + intros [= <-]. auto.
      + intros [_ [Hp | [Hn _]]]; [| now destruct (Hn q)].
        apply direct_scrape_page in Hp, Ed. congruence.
    - pose proof (proj1 (direct_scrape_none url) Ed) as Hn.
      destruct (long_page_dec first) as [[q1 H1] | H1].
      + rewrite (proxy_loop_long _ _ _ H1). split.
        * intros [= <-]. auto.
        * intros [_ [Hp | [_ [Hp | [Hno _]]]]].
          -- now destruct (Hn p).
          -- now rewrite (long_page_unique _ _ _ H1 Hp).
          -- now destruct (Hno q1).
      + rewrite (proxy_loop_skip _ _ H1).
        destruct (long_page_dec second) as [[q2 H2] | H2].
        * rewrite (proxy_loop_long _ _ _ H2). split.
          -- intros [= <-]. auto 6.
          -- intros [_ [Hp | [_ [Hp | [_ Hp]]]]].
             ++ now destruct (Hn p).
             ++ now destruct (H1 p).
             ++ now rewrite (long_page_unique _ _ _ H2 Hp).
        * rewrite (proxy_loop_skip _ _ H2). cbn [proxy_loop]. split.
          -- discriminate.
          -- intros [_ [Hp | [_ [Hp | [_ Hp]]]]].
             ++ now destruct (Hn p).
             ++ now destruct (H1 p).
             ++ now destruct (H2 p). }
  split; [exact Hiff |].
  intros H. apply Hiff in H as [_ [Hp | [_ [[Hp _] | [_ [Hp _]]]]]];
    eapply page_trimmed; exact Hp.
Qed.

End Pages.

Lemma scrape_job_posting_outcome_witness :
  scrape_job_posting (ExtractionAgent.has_scheme_and_netloc proxy_world)
    (ExtractionAgent.get proxy_world) (ExtractionAgent.extract proxy_world)
    sample_url
  = inr (mkPosting "Backend Engineer" "Acme Corp" EmptyString sample_text)
  /\ trimmed (mkPosting "Backend Engineer" "Acme Corp" EmptyString sample_text).
Proof.
  assert (scrape_job_posting (ExtractionAgent.has_scheme_and_netloc proxy_world)
            (ExtractionAgent.get proxy_world)
            (ExtractionAgent.extract proxy_world) sample_url
          = inr (mkPosting "Backend Engineer" "Acme Corp" EmptyString
                           sample_text)) as H
    by (vm_compute; reflexivity).
  split; [exact H |].
  exact (proj2 (scrape_job_posting_outcome _ _ _ _ _) H).
Defined.

End ScraperMore.

(** ** Further properties: the extraction agent *)

Module ExtractionMore.
Import Py PyFacts Validation Terms MoreTerms ExtractionAgent FlowTerms
       FlowFacts ContentMore ParserMore.
Local Open Scope Z_scope.

Section Agent.

Variable w : world.
Variable self : agent.

(** What an accepted text turns into. *)
Lemma accepted_content (text title company source : string) :
  is_valid (validate_and_score_job_content text) = true ->
  let r := mkContentResult text title company
             (accepted (validate_and_score_job_content text)) source in
  content_validation r = validate_and_score_job_content (content r)
  /\ is_valid (content_validation r) = true
  /\ 30 <= score (content_validation r) <= 100
  /\ blank (content r) = false.
Proof.
  intros Hv r. subst r. simpl. rewrite (accepted_valid _ Hv).
  destruct (content_valid_score _ Hv). auto.
Qed.

Lemma content_fallback_ok (job_url : string) (r : content_result) :
  content_fallback w job_url = inr r ->
  ainvoke w job_url = ReplyText (content r)
  /\ is_valid (validate_and_score_job_content (content r)) = true
  /\ r = mkContentResult (content r) EmptyString EmptyString
           (accepted (validate_and_score_job_content (content r)))
           "llm_fallback".
Proof.
  unfold content_fallback.
  destruct (ainvoke w job_url) as [| text | |]; try discriminate.
  cbv zeta.
  destruct (is_valid (validate_and_score_job_content text)) eqn:Hv;
    [| discriminate].
  intros [= <-]. auto.
Qed.

Lemma content_fallback_fails (job_url : string) :
  (exists cause, content_fallback w job_url = inl (FalhaCompleta job_url cause))
  <-> ~ model_content_valid w job_url.
Proof.
  unfold content_fallback, model_content_valid.
  destruct (ainvoke w job_url) as [| text | |] eqn:Ea.
  - split; [intros _ (t & [=] & _) | eauto].
  - cbv zeta.
    destruct (is_valid (validate_and_score_job_content text)) eqn:Hv; simpl.
    + split; [intros (c & [=]) | intros H; destruct H; eauto].
    + split; [intros _ (t & [= <-] & Ht); congruence | eauto].
  - split; [intros _ (t & [=] & _) | eauto].
  - split; [intros _ (t & [=] & _) | eauto].
Qed.

(** The second attempt returns a result or the complete-failure error. *)
Lemma classic_fallback (job_url : string) :
  (exists r, content_fallback w job_url = inr r)
  \/ (exists cause, content_fallback w job_url = inl (FalhaCompleta job_url cause)).
Proof.
  unfold content_fallback.
  destruct (ainvoke w job_url); eauto.
  cbv zeta. destruct (negb _); eauto.
Qed.

(** The first attempt, when it settles the result. *)
Lemma content_by_scraping (job_url : string) :
  has_scheme_and_netloc w job_url = true ->
  (exists p,
     use_web_scraping self = true
     /\ scrape_job_posting w job_url = inr p
     /\ is_valid (validate_and_score_job_content (WebScraper.fullText p)) = true
     /\ extract_job_content_from_url w self job_url
        = inr (mkContentResult (WebScraper.fullText p) (WebScraper.title p)
                 (WebScraper.company p)
                 (accepted (validate_and_score_job_content
                              (WebScraper.fullText p)))
                 "web_scraping"))
  \/ (~ scraped_content_valid w self job_url
      /\ extract_job_content_from_url w self job_url
         = content_fallback w job_url).
Proof.
  intros Hu. unfold extract_job_content_from_url, scraped_content_valid.
  rewrite Hu. cbn [negb].
  destruct (use_web_scraping self); [| right; split; [intros [[=] _] | reflexivity]].
  destruct (scrape_job_posting w job_url) as [e | p] eqn:Es;
    [right; split; [intros (_ & q & [=] & _) | reflexivity] |].
  cbv zeta.
  destruct (is_valid (validate_and_score_job_content (WebScraper.fullText p)))
    eqn:Hv.
  - left. exists p. auto.
  - right. split; [| reflexivity].
    intros (_ & q & [= <-] & Hq). congruence.
Qed.

(** X21.  A content that [extract_job_content_from_url] returns comes from a
    URL with scheme and network location and is accepted by the content
    validator: the validation recorded with it is the verdict of the
    validator on that very content, the score lies between 30 and 100 and
    the content is not blank.  The source tag tells where it comes from:
    with [web_scraping] the content, the title and the company are those of
    the scraped posting; with [llm_fallback] the content is the answer of the
    model, title and company are empty, and scraping had given no accepted
    text. *)
Theorem accepted_content_is_validated (job_url : string) (r : content_result) :
  extract_job_content_from_url w self job_url = inr r ->
  has_scheme_and_netloc w job_url = true
  /\ content_validation r = validate_and_score_job_content (content r)
  /\ is_valid (content_validation r) = true
  /\ 30 <= score (content_validation r) <= 100
  /\ blank (content r) = false
  /\ ((content_source r = "web_scraping"
       /\ use_web_scraping self = true
       /\ exists p,
            scrape_job_posting w job_url = inr p
            /\ content r = WebScraper.fullText p
            /\ content_title r = WebScraper.title p
            /\ content_company r = WebScraper.company p)
      \/ (content_source r = "llm_fallback"
          /\ ainvoke w job_url = ReplyText (content r)
          /\ content_title r = EmptyString
          /\ content_company r = EmptyString
          /\ ~ scraped_content_valid w self job_url)).
Proof.
  intros H.
  destruct (has_scheme_and_netloc w job_url) eqn:Hu;
    [| unfold extract_job_content_from_url in H; rewrite Hu in H;
       discriminate].
  split; [reflexivity |].
  destruct (content_by_scraping job_url Hu)
    as [(p & Hs & Ep & Hv & E) | [Hno E]]; rewrite E in H.
  - injection H as <-.
    destruct (accepted_content _ (WebScraper.title p) (WebScraper.company p)
                "web_scraping" Hv) as (H1 & H2 & H3 & H4).
    split; [exact H1 |]. split; [exact H2 |]. split; [exact H3 |].
    split; [exact H4 |]. left. simpl. eauto 10.
  - apply content_fallback_ok in H as (Ha & Hv & Er).
    destruct (accepted_content _ EmptyString EmptyString "llm_fallback" Hv)
      as (H1 & H2 & H3 & H4).
    destruct r as [c t co v so]. simpl in *. injection Er as -> -> -> ->.
    split; [exact H1 |]. split; [exact H2 |]. split; [exact H3 |].
    split; [exact H4 |]. right. auto.
Qed.

(** X22.  [extract_job_content_from_url] fails exactly when the URL lacks a
    scheme or a network location, with the invalid-URL error, or when
    neither the scraper nor the model gives a text that the content
    validator accepts, with the complete-failure error; it raises no other
    error.  So it succeeds as soon as one of the two sources gives an
    accepted text. *)
Theorem content_extraction_fails_iff (job_url : string) :
  let result := extract_job_content_from_url w self job_url in
  (result = inl (UrlInvalida job_url)
   <-> has_scheme_and_netloc w job_url = false)
  /\ ((exists cause, result = inl (FalhaCompleta job_url cause))
      <-> has_scheme_and_netloc w job_url = true
          /\ ~ scraped_content_valid w self job_url
          /\ ~ model_content_valid w job_url)
  /\ (forall e, result = inl e ->
        e = UrlInvalida job_url
        \/ exists cause, e = FalhaCompleta job_url cause).
Proof.
  intros result. subst result.
  destruct (has_scheme_and_netloc w job_url) eqn:Hu.
  - destruct (content_by_scraping job_url Hu)
      as [(p & Hs & Ep & Hv & E) | [Hno E]]; rewrite E.
    + split; [split; discriminate |]. split; [| discriminate].
      split; [intros (c & [=]) |].
      intros (_ & Hn & _). destruct Hn. split; eauto.
    + pose proof (content_fallback_fails job_url) as Hf.
      split; [split; [| discriminate] |].
      * intros Hc. unfold content_fallback in Hc.
        destruct (ainvoke w job_url); try discriminate.
        cbv zeta in Hc. destruct (negb _); discriminate.
      * split; [rewrite Hf; tauto |].
        intros e He. right.
        destruct (classic_fallback job_url) as [[r Hr] | [c Hc]];
          [congruence |].
        exists c. congruence.
  - unfold extract_job_content_from_url. rewrite Hu. cbn [negb].
    split; [tauto |]. split.
    + split; [intros (c & [=]) | intros [[=] _]].
    + intros e [= <-]. now left.
Qed.

(** *** Title and company *)


Lemma details_guard (job_content : string) :
  String.eqb job_content EmptyString
  || (String.length (strip job_content) <? 100)%nat
  = (String.length (strip job_content) <? 100)%nat.
Proof.
  destruct (String.eqb_spec job_content EmptyString) as [-> |]; reflexivity.
Qed.

Lemma details_from_spec (d : json_object) (job_url : option string)
    (r : details_result) :
  details_from self d job_url = inr r
  <-> exists t c,
        title_of d = JsonStr t /\ company_of d = JsonStr c
        /\ is_valid (validate_and_score_job_details (strip t) (strip c)) = true
        /\ r = mkDetailsResult (strip t) (strip c)
                 (accepted (validate_and_score_job_details (strip t) (strip c)))
                 (model_tag self job_url).
Proof.
  unfold details_from, model_tag.
  destruct (title_of d) as [t |];
    [| split; [discriminate | intros (? & ? & [=] & _)]].
  destruct (company_of d) as [c |];
    [| split; [discriminate | intros (? & ? & _ & [=] & _)]].
  cbv zeta.
  destruct (is_valid (validate_and_score_job_details (strip t) (strip c)))
    eqn:Hv; cbn [negb].
  - split.
    + intros [= <-]. exists t, c. auto.
    + intros (t' & c' & [= <-] & [= <-] & _ & ->). reflexivity.
  - split; [discriminate |].
    intros (t' & c' & [= <-] & [= <-] & Hv' & _). congruence.
Qed.

Lemma details_fallback_spec (job_content : string) (job_url : option string)
    (r : details_result) :
  details_fallback w self job_content job_url = inr r
  <-> exists title company,
        model_details_valid w job_content title company
        /\ r = mkDetailsResult title company
                 (accepted (validate_and_score_job_details title company))
                 (model_tag self job_url).
Proof.
  unfold details_fallback, model_details_valid, model_answer. split.
  - intros H.
    assert (exists d, (chain w job_content = ResultDict d
                       \/ exists s, chain w job_content = ResultStr s
                                    /\ json_loads w s = LoadsDict d)
                      /\ details_from self d job_url = inr r)
      as (d & Hd & Hr).
    { destruct (chain w job_content) as [[] | d | s |] eqn:Ec;
        try discriminate.
      - exists d. split; [now left | exact H].
      - destruct (json_loads w s) as [| d |] eqn:El; try discriminate.
        exists d. split; [right; exists s; auto | exact H]. }
    apply details_from_spec in Hr as (t & c & Ht & Hc & Hv & ->).
    exists (strip t), (strip c). split; [| reflexivity].
    exists d, t, c. auto 10.
  - intros (title & company & (d & t & c & Hd & Ht & Hc & -> & -> & Hv) & ->).
    assert (details_from self d job_url
            = inr (mkDetailsResult (strip t) (strip c)
                     (accepted (validate_and_score_job_details (strip t)
                                                               (strip c)))
                     (model_tag self job_url))) as E
      by (apply details_from_spec; eauto 10).
    destruct Hd as [-> | (s & -> & ->)]; exact E.
Qed.

(** The first attempt, when it settles the result. *)
Lemma details_by_scraping (job_content : string) (job_url : option string) :
  (100 <= String.length (strip job_content))%nat ->
  (exists title company,
     scraped_details_valid w self job_url title company
     /\ extract_job_title_and_company w self job_content job_url
        = inr (mkDetailsResult title company
                 (accepted (validate_and_score_job_details title company))
                 "web_scraping"))
  \/ ((forall t c, ~ scraped_details_valid w self job_url t c)
      /\ extract_job_title_and_company w self job_content job_url
         = details_fallback w self job_content job_url).
Proof.
  intros Hlen. unfold extract_job_title_and_company, scraped_details_valid.
  rewrite details_guard, (proj2 (Nat.ltb_ge _ _) Hlen).
  destruct job_url as [url |];
    [| right; split; [intros t c [[=] _] | reflexivity]].
  destruct (scraping_applies self (Some url)) eqn:Ea;
    [| right; split; [intros t c [[=] _] | reflexivity]].
  destruct (scrape_job_posting w url) as [e | p] eqn:Es.
  { right. split; [| reflexivity].
    intros t c (_ & u & q & [= <-] & Hq & _). congruence. }
  destruct (String.eqb_spec (WebScraper.title p) EmptyString) as [Et | Et];
    cbn [negb andb].
  { right. split; [| reflexivity].
    intros t c (_ & u & q & [= <-] & Hq & Hne & _). congruence. }
  destruct (String.eqb_spec (WebScraper.company p) EmptyString) as [Eco | Eco];
    cbn [negb].
  { right. split; [| reflexivity].
    intros t c (_ & u & q & [= <-] & Hq & _ & Hne & _). congruence. }
  cbv zeta.
  destruct (is_valid (validate_and_score_job_details
                        (strip (WebScraper.title p))
                        (strip (WebScraper.company p)))) eqn:Hv.
  - left. exists (strip (WebScraper.title p)), (strip (WebScraper.company p)).
    split; [| reflexivity]. split; [reflexivity |].
    exists url, p. auto 10.
  - right. split; [| reflexivity].
    intros t c (_ & u & q & [= <-] & Hq & _ & _ & -> & -> & Hv').
    assert (q = p) by congruence. subst q. congruence.
Qed.

(** Every returned result, with the path that led to it. *)
Lemma details_ok (job_content : string) (job_url : option string)
    (r : details_result) :
  extract_job_title_and_company w self job_content job_url = inr r ->
  (100 <= String.length (strip job_content))%nat
  /\ is_valid (validate_and_score_job_details (job_title r) (details_company r))
     = true
  /\ details_validation r
     = accepted (validate_and_score_job_details (job_title r)
                                                (details_company r))
  /\ ((details_source r = "web_scraping"
       /\ scraped_details_valid w self job_url (job_title r) (details_company r))
      \/ (details_source r = model_tag self job_url
          /\ (forall t c, ~ scraped_details_valid w self job_url t c)
          /\ model_details_valid w job_content (job_title r)
                                 (details_company r))).
Proof.
  intros H.
  destruct (Nat.ltb_spec (String.length (strip job_content)) 100) as [Hl | Hl].
  { unfold extract_job_title_and_company in H.
    rewrite details_guard, (proj2 (Nat.ltb_lt _ _) Hl) in H. discriminate. }
  split; [exact Hl |].
  destruct (details_by_scraping job_content job_url Hl)
    as [(t & c & Hs & E) | [Hno E]]; rewrite E in H.
  - injection H as <-. simpl.
    split; [| split; [reflexivity | left; auto]].
    destruct Hs as (_ & u & p & _ & _ & _ & _ & _ & _ & Hv). exact Hv.
  - apply details_fallback_spec in H as (t & c & Hm & ->). simpl.
    split; [| split; [reflexivity | right; auto]].
    destruct Hm as (d & t0 & c0 & _ & _ & _ & _ & _ & Hv). exact Hv.
Qed.


(** What the endpoints rely on in a returned content. *)
Lemma content_ok (job_url : string) (r : content_result) :
  extract_job_content_from_url w self job_url = inr r ->
  has_scheme_and_netloc w job_url = true
  /\ content_validation r = validate_and_score_job_content (content r)
  /\ is_valid (content_validation r) = true
  /\ 30 <= score (content_validation r) <= 100
  /\ (content_source r = "web_scraping" \/ content_source r = "llm_fallback").
Proof.
  intros H.
  destruct (has_scheme_and_netloc w job_url) eqn:Hu;
    [| unfold extract_job_content_from_url in H; rewrite Hu in H;
       discriminate].
  split; [reflexivity |].
  destruct (content_by_scraping job_url Hu)
    as [(p & Hs & Ep & Hv & E) | [Hno E]]; rewrite E in H.
  - injection H as <-.
    destruct (accepted_content _ (WebScraper.title p) (WebScraper.company p)
                "web_scraping" Hv) as (H1 & H2 & H3 & H4).
    simpl in *. auto.
  - apply content_fallback_ok in H as (Ha & Hv & Er).
    destruct (accepted_content _ EmptyString EmptyString "llm_fallback" Hv)
      as (H1 & H2 & H3 & H4).
    destruct r as [c t co v so]. simpl in *. injection Er as -> -> -> ->.
    auto.
Qed.

(** What the endpoints rely on in a returned title and company. *)
Lemma details_verdict (job_content : string) (job_url : option string)
    (r : details_result) :
  extract_job_title_and_company w self job_content job_url = inr r ->
  (100 <= String.length (strip job_content))%nat
  /\ details_validation r = details_accepted
  /\ validate_and_score_job_details (job_title r) (details_company r)
     = details_accepted
  /\ job_title r <> EmptyString /\ details_company r <> EmptyString
  /\ (details_source r = "web_scraping"
      \/ details_source r = model_tag self job_url).
Proof.
  intros H. apply details_ok in H as (Hl & Hv & Ev & Hp).
  destruct (details_valid_verdict _ _ Hv) as (E & Bt & Bc & _ & _).
  rewrite (accepted_valid _ Hv) in Ev.
  split; [exact Hl |]. split; [congruence |]. split; [exact E |].
  split; [| split].
  - intros E0. rewrite E0 in Bt. unfold title_in_band in Bt. simpl in Bt. lia.
  - intros E0. rewrite E0 in Bc. unfold company_in_band in Bc. simpl in Bc. lia.
  - destruct Hp as [[? _] | [? _]]; auto.
Qed.


(** X24.  The source tag of a returned title and company tells the path:
    [web_scraping] means that the scraper gave both and the validator
    accepted them; [llm_fallback] means that a URL was given and scraping is
    on, the scraper gave no accepted pair, and the pair comes from the answer
    of the model; [llm] means that no URL was given, or an empty one, or
    scraping is off, and the pair comes from the answer of the model. *)
Theorem details_source_tells_the_path (job_content : string)
    (job_url : option string) (r : details_result) :
  extract_job_title_and_company w self job_content job_url = inr r ->
  (details_source r = "web_scraping"
   /\ scraped_details_valid w self job_url (job_title r) (details_company r))
  \/ (details_source r = "llm_fallback"
      /\ scraping_applies self job_url = true
      /\ (forall t c, ~ scraped_details_valid w self job_url t c)
      /\ model_details_valid w job_content (job_title r) (details_company r))
  \/ (details_source r = "llm"
      /\ (job_url = None \/ job_url = Some EmptyString
          \/ use_web_scraping self = false)
      /\ model_details_valid w job_content (job_title r) (details_company r)).
Proof.
  intros H. apply details_ok in H as (_ & _ & _ & [Hs | (Et & Hno & Hm)]);
    [now left | right].
  unfold model_tag in Et.
  destruct (scraping_applies self job_url) eqn:Ea; [left; auto | right].
  split; [exact Et |]. split; [| exact Hm].
  unfold scraping_applies in Ea. destruct job_url as [url |]; [| now left].
  right. destruct (String.eqb_spec url EmptyString) as [-> |]; [now left |].
  right. exact Ea.
Qed.

(** X25.  [extract_job_title_and_company] returns a result exactly when the
    content has at least 100 characters after stripping and the scraper or
    the answer of the model gives a title and a company that the details
    validator accepts; a shorter content is refused before any attempt. *)
Theorem details_extraction_succeeds_iff (job_content : string)
    (job_url : option string) :
  let result := extract_job_title_and_company w self job_content job_url in
  ((exists r, result = inr r)
   <-> (100 <= String.length (strip job_content))%nat
       /\ ((exists t c, scraped_details_valid w self job_url t c)
           \/ (exists t c, model_details_valid w job_content t c)))
  /\ (result = inl ConteudoDaVagaMuitoCurto
      <-> (String.length (strip job_content) < 100)%nat).
Proof.
  intros result. subst result. split.
  - split.
    + intros [r H]. apply details_ok in H as (Hl & _ & _ & [[_ Hs] | (_ & _ & Hm)]);
        eauto 6.
    + intros [Hl Hsrc].
      destruct (details_by_scraping job_content job_url Hl)
        as [(t & c & Hs & E) | [Hno E]]; rewrite E; [eauto |].
      destruct Hsrc as [(t & c & Hs) | (t & c & Hm)]; [now destruct (Hno t c) |].
      eexists. apply details_fallback_spec. eauto.
  - split.
    + intros H.
      destruct (Nat.ltb_spec (String.length (strip job_content)) 100)
        as [Hl | Hl]; [exact Hl |].
      destruct (details_by_scraping job_content job_url Hl)
        as [(t & c & Hs & E) | [Hno E]]; rewrite E in H; [discriminate |].
      unfold details_fallback, details_from in H.
      repeat case_match; discriminate.
    + intros Hl. unfold extract_job_title_and_company.
      now rewrite details_guard, (proj2 (Nat.ltb_lt _ _) Hl).
Qed.

End Agent.

Lemma accepted_content_is_validated_witness :
  extract_job_content_from_url model_world default_agent sample_url
  = inr (mkContentResult sample_text EmptyString EmptyString
           (validate_and_score_job_content sample_text) "llm_fallback")
  /\ 30 <= score (validate_and_score_job_content sample_text) <= 100.
Proof.
  assert (extract_job_content_from_url model_world default_agent sample_url
          = inr (mkContentResult sample_text EmptyString EmptyString
                   (validate_and_score_job_content sample_text)
                   "llm_fallback")) as H
    by (vm_compute; reflexivity).
  split; [exact H |].
  exact (proj1 (proj2 (proj2 (proj2
           (accepted_content_is_validated _ _ _ _ H))))).
Defined.


Lemma details_source_tells_the_path_witness :
  extract_job_title_and_company model_world default_agent sample_text None
  = inr (mkDetailsResult "Backend Engineer" "Acme Corp" details_accepted "llm")
  /\ model_details_valid model_world sample_text "Backend Engineer" "Acme Corp".
Proof.
  assert (extract_job_title_and_company model_world default_agent sample_text
            None
          = inr (mkDetailsResult "Backend Engineer" "Acme Corp"
                   details_accepted "llm")) as H
    by (vm_compute; reflexivity).
  split; [exact H |].
  destruct (details_source_tells_the_path _ _ _ _ _ H)
    as [[E _] | [[E _] | (_ & _ & Hm)]]; [discriminate E | discriminate E |].
  exact Hm.
Defined.

End ExtractionMore.

(** ** Further properties: the generation agent *)

Module GenerationMore.
Import Py PyFacts Terms MoreTerms Compatibility GenerationAgent Generation
       FlowTerms.

Lemma length_guard (n : nat) (s : string) :
  String.eqb s EmptyString || (String.length (strip s) <? S n)%nat
  = (String.length (strip s) <? S n)%nat.
Proof.
  destruct (String.eqb_spec s EmptyString) as [-> |]; reflexivity.
Qed.

Lemma empty_guard (a b : string) :
  String.eqb a EmptyString || String.eqb b EmptyString = false
  <-> a <> EmptyString /\ b <> EmptyString.
Proof.
  destruct (String.eqb_spec a EmptyString), (String.eqb_spec b EmptyString);
    simpl; split; try discriminate; try tauto; intros [? ?]; congruence.
Qed.

(** The parser fills each of the four keys. *)
Lemma parsed_key (raw key : string) :
  key ∈ section_keys ->
  exists text, _parse_generated_content raw !! key = Some text.
Proof.
  intros H. apply list_elem_of_In in H. simpl in H.
  unfold _parse_generated_content, sections. cbn [parse_loop].
  destruct H as [<- | [<- | [<- | [<- | []]]]];
    rewrite ?lookup_insert_ne by discriminate;
    rewrite lookup_insert_eq; eauto.
Qed.

Lemma parsed_dom (raw : string) :
  dom (_parse_generated_content raw) = list_to_set section_keys.
Proof.
  unfold _parse_generated_content, sections, section_keys.
  cbn [parse_loop]. rewrite !dom_insert_L, dom_empty_L. set_solver.
Qed.

Section Run.

Variable chain : gmap string string -> chain_outcome.
Variable self : agent.
Variables cv job_title company job_description : string.
Variables tone language custom_context : string.

Let result :=
  generate_career_materials chain self cv job_title company job_description
    tone language custom_context.

Let prompt_vars :=
  get_prompt_variables cv job_title company job_description tone language
    custom_context.

(** The four ways through the guards. *)
Lemma guards_cases :
  ((String.length (strip cv) < 50)%nat /\ result = inl CvMuitoCurto)
  \/ ((50 <= String.length (strip cv))%nat
      /\ (job_title = EmptyString \/ company = EmptyString)
      /\ result = inl TituloEEmpresaObrigatorios)
  \/ ((50 <= String.length (strip cv))%nat
      /\ job_title <> EmptyString /\ company <> EmptyString
      /\ (String.length (strip job_description) < 100)%nat
      /\ result = inl DescricaoMuitoCurta)
  \/ (guards_pass cv job_title company job_description
      /\ result
         = match chain prompt_vars with
           | Raises e => inl (FalhaAoGerar e)
           | Returns raw_response =>
               inr (<["metadata" :=
                        Metadata (model_name self) (use_thinking_mode self)
                                 tone language]>
                   (<["compatibility" :=
                        compat_value
                          (calculate_compatibility cv job_description)]>
                   (<["sources" := Sources []]>
                   (Text <$> _parse_generated_content raw_response))))
           end).
Proof.
  subst result prompt_vars. unfold generate_career_materials, guards_pass.
  rewrite !length_guard.
  destruct (Nat.ltb_spec (String.length (strip cv)) 50); [now left | right].
  destruct (String.eqb_spec job_title EmptyString) as [Et | Et];
    [left; auto |].
  destruct (String.eqb_spec company EmptyString) as [Ec | Ec];
    [left; auto |].
  right. cbn [orb].
  destruct (Nat.ltb_spec (String.length (strip job_description)) 100);
    [left; auto 6 | right].
  split; [auto |]. reflexivity.
Qed.

(** X26.  [generate_career_materials] checks its inputs in a fixed order:
    a CV of fewer than 50 characters after stripping is refused first, then
    an empty title or company (a title of whitespace passes), then a
    description of fewer than 100 characters after stripping.  Behind the
    guards it fails only when the chain raises, with the text of that
    exception, and returns materials for every response text of the
    chain. *)
Theorem generation_fails_iff :
  (result = inl CvMuitoCurto <-> (String.length (strip cv) < 50)%nat)
  /\ (result = inl TituloEEmpresaObrigatorios
      <-> (50 <= String.length (strip cv))%nat
          /\ (job_title = EmptyString \/ company = EmptyString))
  /\ (result = inl DescricaoMuitoCurta
      <-> (50 <= String.length (strip cv))%nat
          /\ job_title <> EmptyString /\ company <> EmptyString
          /\ (String.length (strip job_description) < 100)%nat)
  /\ (forall e, result = inl (FalhaAoGerar e)
                <-> guards_pass cv job_title company job_description
                    /\ chain prompt_vars = Raises e)
  /\ ((exists materials, result = inr materials)
      <-> guards_pass cv job_title company job_description
          /\ exists raw_response, chain prompt_vars = Returns raw_response).
Proof.
  destruct guards_cases
    as [(H1 & E) | [(H1 & H2 & E) | [(H1 & H2 & H3 & H4 & E)
       | ((H1 & H2 & H3 & H4) & E)]]]; rewrite E; unfold guards_pass.
  - split; [tauto |]. split; [split; [discriminate | lia] |].
    split; [split; [discriminate | lia] |].
    split; [intros e; split; [discriminate | lia] |].
    split; [intros [m [=]] | lia].
  - split; [split; [discriminate | lia] |]. split; [tauto |].
    split; [split; [discriminate | tauto] |].
    split; [intros e; split; [discriminate | tauto] |].
    split; [intros [m [=]] | tauto].
  - split; [split; [discriminate | lia] |].
    split; [split; [discriminate | tauto] |]. split; [tauto |].
    split; [intros e; split; [discriminate | lia] |].
    split; [intros [m [=]] | lia].
  - destruct (chain prompt_vars) as [e0 | raw].
    + split; [split; [discriminate | lia] |].
      split; [split; [discriminate | tauto] |].
      split; [split; [discriminate | lia] |].
      split; [intros e; split; [intros [= <-]; auto | intros [_ [= <-]]; auto] |].
      split; [intros [m [=]] | intros [_ [raw [=]]]].
    + split; [split; [discriminate | lia] |].
      split; [split; [discriminate | tauto] |].
      split; [split; [discriminate | lia] |].
      split; [intros e; split; [discriminate | intros [_ [=]]] |].
      split; [eauto 10 | eauto].
Qed.

(** X27.  The materials that [generate_career_materials] returns have
    exactly seven keys.  The four section keys hold the fields that the
    parser reads from the response of the chain, so none of them is ever
    missing, whatever the response; [sources] is the empty list;
    [compatibility] holds the insights of the CV against the description;
    [metadata] holds the model and the mode
    of the agent with the tone and the language of the call. *)
Theorem materials_carry_all_fields (materials : gmap string value) :
  result = inr materials ->
  dom materials
  = {[ "optimizedCv"; "coverLetter"; "networkingMessage"; "interviewTips";
       "sources"; "compatibility"; "metadata" ]}
  /\ (exists raw_response,
        chain prompt_vars = Returns raw_response
        /\ forall key, key ∈ section_keys ->
             exists text,
               _parse_generated_content raw_response !! key = Some text
               /\ materials !! key = Some (Text text))
  /\ materials !! "sources" = Some (Sources [])
  /\ materials !! "compatibility"
     = Some (compat_value (calculate_compatibility cv job_description))
  /\ materials !! "metadata"
     = Some (Metadata (model_name self) (use_thinking_mode self) tone language).
Proof.
  intros H.
  destruct guards_cases
    as [(_ & E) | [(_ & _ & E) | [(_ & _ & _ & _ & E) | (_ & E)]]];
    rewrite E in H; try discriminate.
  destruct (chain prompt_vars) as [e0 | raw] eqn:Ec; [discriminate |].
  injection H as <-.
  split; [| split; [| split; [| split]]].
  - rewrite !dom_insert_L, dom_fmap_L, parsed_dom. unfold section_keys.
    set_solver.
  - exists raw. split; [reflexivity |]. intros key Hk.
    destruct (parsed_key raw key Hk) as [text Ht]. exists text.
    split; [exact Ht |].
    apply list_elem_of_In in Hk. simpl in Hk.
    rewrite !lookup_insert_ne
      by (destruct Hk as [<- | [<- | [<- | [<- | []]]]]; discriminate).
    now rewrite lookup_fmap, Ht.
  - rewrite !lookup_insert_ne by discriminate. apply lookup_insert_eq.
  - rewrite lookup_insert_ne by discriminate. apply lookup_insert_eq.
  - apply lookup_insert_eq.
Qed.

End Run.

Lemma materials_carry_all_fields_witness :
  exists materials,
    generate_career_materials sample_chain (init "gemini-2.5-flash" true)
      sample_cv "Backend Engineer" "Acme Corp" sample_text "Formal" "English"
      EmptyString
    = inr materials
    /\ materials !! "sources" = Some (Sources [])
    /\ materials !! "metadata"
       = Some (Metadata "gemini-2.5-pro" true "Formal" "English").
Proof.
  destruct (generate_career_materials sample_chain
              (init "gemini-2.5-flash" true) sample_cv "Backend Engineer"
              "Acme Corp" sample_text "Formal" "English" EmptyString)
    as [e | materials] eqn:H.
  - vm_compute in H. discriminate.
  - exists materials. split; [reflexivity |].
    destruct (materials_carry_all_fields _ _ _ _ _ _ _ _ _ _ H)
      as (_ & _ & Hs & _ & Hm).
    split; [exact Hs | exact Hm].
Defined.

End GenerationMore.

(** ** Further properties: the endpoints *)

Module ApiMore.
Import Py PyFacts Validation Terms MoreTerms Config ExtractionAgent Generation
       Api FlowTerms FlowFacts ExtractionMore GenerationMore.
Local Open Scope Z_scope.

Lemma accepted_details_example :
  extract_job_details (Some "AIza-key") (lifespan (Some "AIza-key"))
    direct_world direct_world sample_url
  = inr (mkJobDetailsResponse "Backend Engineer" "Acme Corp" sample_text
           (validate_and_score_job_content sample_text) details_accepted
           "web_scraping + web_scraping"
           (score (validate_and_score_job_content sample_text))).
Proof. vm_compute. reflexivity. Qed.

(** X28.  A response of [/extract-job-details] is given only by a configured
    service.  Its description is a content that the content validator
    accepts: the recorded validation is the verdict on that description, and
    [content_score] is its score, between 30 and 100.  The description has
    at least 100 characters after stripping, and the title and the company
    are accepted by the details validator with score 100.  With the agent of
    start-up and a URL that is not empty, the source is one of four
    combinations of [web_scraping] and [llm_fallback]: the tag [llm] never
    appears. *)
Theorem extract_job_details_response_is_validated
    (google_api_key : option string) (extraction_agent : option ExtractionAgent.agent)
    (w1 w2 : world) (job_url : string) (r : JobDetailsResponse) :
  extract_job_details google_api_key extraction_agent w1 w2 job_url = inr r ->
  is_configured google_api_key = true
  /\ validation_content r = validate_and_score_job_content (job_description r)
  /\ is_valid (validation_content r) = true
  /\ content_score r = score (validation_content r)
  /\ 30 <= content_score r <= 100
  /\ (100 <= String.length (strip (job_description r)))%nat
  /\ validation_details r = details_accepted
  /\ validate_and_score_job_details (response_job_title r) (response_company r)
     = details_accepted
  /\ (extraction_agent = Some default_agent -> job_url <> EmptyString ->
      response_source r
      ∈ [ "web_scraping + web_scraping"; "web_scraping + llm_fallback";
          "llm_fallback + web_scraping"; "llm_fallback + llm_fallback" ]).
Proof.
  unfold extract_job_details. intros H.
  destruct extraction_agent as [agent |]; [| discriminate].
  destruct (is_configured google_api_key); [cbn [negb] in H | discriminate].
  destruct (extract_job_content_from_url w1 agent job_url) as [e | c] eqn:Ec;
    [discriminate |].
  destruct (extract_job_title_and_company w2 agent (content c) (Some job_url))
    as [e | d] eqn:Ed; [discriminate |].
  injection H as <-. cbn.
  apply content_ok in Ec as (_ & C1 & C2 & C3 & C4).
  apply details_verdict in Ed as (D1 & D2 & D3 & _ & _ & D4).
  split; [reflexivity |]. split; [exact C1 |]. split; [exact C2 |].
  split; [reflexivity |]. split; [exact C3 |]. split; [exact D1 |].
  split; [exact D2 |]. split; [exact D3 |].
  intros [= ->] Hne.
  assert (model_tag default_agent (Some job_url) = "llm_fallback") as Et.
  { unfold model_tag, scraping_applies.
    destruct (String.eqb_spec job_url EmptyString); [contradiction |].
    reflexivity. }
  rewrite Et in D4. apply list_elem_of_In.
  destruct C4 as [-> | ->], D4 as [-> | ->]; simpl; auto.
Qed.

Lemma extract_job_details_response_is_validated_witness :
  extract_job_details (Some "AIza-key") (lifespan (Some "AIza-key"))
    direct_world direct_world sample_url
  = inr (mkJobDetailsResponse "Backend Engineer" "Acme Corp" sample_text
           (validate_and_score_job_content sample_text) details_accepted
           "web_scraping + web_scraping"
           (score (validate_and_score_job_content sample_text)))
  /\ 30 <= score (validate_and_score_job_content sample_text) <= 100.
Proof.
  split; [exact accepted_details_example |].
  exact (proj1 (proj2 (proj2 (proj2 (proj2
           (extract_job_details_response_is_validated _ _ _ _ _ _
              accepted_details_example)))))).
Defined.

Lemma is_configured_spec (google_api_key : option string) :
  is_configured google_api_key = true
  <-> exists key,
        google_api_key = Some key /\ blank key = false
        /\ ~ occurs "your_" (lower key).
Proof.
  unfold is_configured. destruct google_api_key as [key |];
    [| split; [discriminate | intros (? & [=] & _)]].
  rewrite !andb_true_iff, !negb_true_iff.
  rewrite <- (not_true_iff_false (contains _ _)), contains_spec.
  split.
  - intros [[_ Hs] Hc]. exists key. split; [reflexivity |]. split; [| exact Hc].
    destruct (blank key) eqn:E; [| reflexivity].
    rewrite (strip_blank _ E) in Hs. discriminate.
  - intros (k & [= <-] & Hb & Hc). split; [split |]; [| | exact Hc].
    + destruct (String.eqb_spec key EmptyString) as [-> |];
        [discriminate | reflexivity].
    + apply String.eqb_neq. now apply strip_nonblank.
Qed.

(** X29.  The service counts as configured exactly when the API key is
    present, not blank, and does not contain [your_] in any letter case.
    With the agent that start-up creates, [/extract-job-details] answers 503
    exactly when the service is not configured, whereas
    [/generate-complete], which has no such check, answers 500 in that
    case. *)
Theorem unconfigured_service_is_refused (google_api_key : option string)
    (w1 w2 : world) (chain : gmap string string -> chain_outcome)
    (cv job_url tone language custom_context : string) :
  let usable :=
    exists key,
      google_api_key = Some key /\ blank key = false
      /\ ~ occurs "your_" (lower key) in
  (is_configured google_api_key = true <-> usable)
  /\ (extract_job_details google_api_key (lifespan google_api_key) w1 w2 job_url
      = inl ServiceUnavailable <-> ~ usable)
  /\ (~ usable ->
      generate_complete (lifespan google_api_key) w1 w2 chain cv job_url tone
        language custom_context
      = inl InternalError).
Proof.
  intros usable. pose proof (is_configured_spec google_api_key) as Hc.
  fold usable in Hc. split; [exact Hc |].
  unfold extract_job_details, generate_complete, lifespan.
  destruct (is_configured google_api_key); cbn [negb].
  - assert usable as Hu by now apply Hc.
    split; [| intros Hn; now destruct Hn].
    split; [| intros Hn; now destruct Hn].
    intros H.
    destruct (extract_job_content_from_url w1 default_agent job_url);
      [discriminate |].
    destruct (extract_job_title_and_company w2 default_agent _ _);
      discriminate.
  - assert (~ usable) as Hu by (intros Hu; apply Hc in Hu; discriminate).
    split; [split; auto | reflexivity].
Qed.

(** X30.  [/generate-complete] with an initialised extraction agent never
    answers 500 or 503, and its check for a missing title or company never
    fires: what the extraction accepted is never empty.  For the same
    reason the generation agent never refuses the title, the company or the
    description; of its guards only the one on the CV can fire.  A response
    carries a description, a title and a company that the validators
    accept, the four fields that the parser reads from the response of the
    chain, no sources, and the compatibility of the CV against the
    description. *)
Theorem complete_generation_outcome (extraction_agent : ExtractionAgent.agent) (w1 w2 : world)
    (chain : gmap string string -> chain_outcome)
    (cv job_url tone language custom_context : string) :
  let result :=
    generate_complete (Some extraction_agent) w1 w2 chain cv job_url tone
      language custom_context in
  result <> inl InternalError
  /\ result <> inl ServiceUnavailable
  /\ result <> inl (BadRequest TituloOuEmpresaEmFalta)
  /\ result <> inl (BadRequest (GenerationFailed TituloEEmpresaObrigatorios))
  /\ result <> inl (BadRequest (GenerationFailed DescricaoMuitoCurta))
  /\ (result = inl (BadRequest (GenerationFailed CvMuitoCurto)) ->
      (String.length (strip cv) < 50)%nat)
  /\ (forall r, result = inr r ->
        (50 <= String.length (strip cv))%nat
        /\ complete_validation_content r
           = validate_and_score_job_content (jobDescription r)
        /\ is_valid (complete_validation_content r) = true
        /\ (100 <= String.length (strip (jobDescription r)))%nat
        /\ complete_validation_details r = details_accepted
        /\ validate_and_score_job_details (jobTitle r) (complete_company r)
           = details_accepted
        /\ complete_sources r = Sources []
        /\ complete_compatibility r
           = compat_value
               (Compatibility.calculate_compatibility cv (jobDescription r))
        /\ exists raw_response parsed_cv letter message tips,
             chain (get_prompt_variables cv (jobTitle r) (complete_company r)
                      (jobDescription r) tone language custom_context)
             = Returns raw_response
             /\ GenerationAgent._parse_generated_content raw_response
                = <["interviewTips" := tips]>
                  (<["networkingMessage" := message]>
                  (<["coverLetter" := letter]>
                  (<["optimizedCv" := parsed_cv]> ∅)))
             /\ optimizedCv r = Text parsed_cv
             /\ coverLetter r = Text letter
             /\ networkingMessage r = Text message
             /\ interviewTips r = Text tips).
Proof.
  intros result. subst result. unfold generate_complete.
  destruct (extract_job_content_from_url w1 extraction_agent job_url)
    as [e | c] eqn:Ec;
    [repeat split; try discriminate |].
  destruct (extract_job_title_and_company w2 extraction_agent (content c)
              (Some job_url)) as [e | d] eqn:Ed;
    [repeat split; try discriminate |].
  apply content_ok in Ec as (_ & C1 & C2 & _ & _).
  apply details_verdict in Ed as (D1 & D2 & D3 & Nt & Nc & _).
  cbv zeta.
  rewrite (proj2 (empty_guard _ _) (conj Nt Nc)).
  pose proof (guards_cases chain (init "gemini-2.5-flash" false) cv
                (job_title d) (details_company d) (content c) tone language
                custom_context) as G.
  cbv zeta in G.
  destruct G as [(H1 & E) | [(H1 & [H2 | H2] & E) | [(H1 & H2 & H3 & H4 & E)
                | ((H1 & H2 & H3 & H4) & E)]]]; try contradiction; try lia;
    rewrite E.
  - repeat split; try discriminate. auto.
  - destruct (chain _) as [e0 | raw] eqn:Ech.
    + repeat split; discriminate.
    + rewrite lookup_insert_ne by discriminate. rewrite lookup_insert_eq.
      rewrite !(lookup_insert_ne _ "metadata") by discriminate.
      rewrite !(lookup_insert_ne _ "compatibility") by discriminate.
      rewrite !(lookup_insert_ne _ "sources") by discriminate.
      rewrite (lookup_insert_eq _ "sources"), lookup_insert_eq.
      rewrite !lookup_fmap.
      unfold GenerationAgent._parse_generated_content,
        GenerationAgent.sections.
      cbn [GenerationAgent.parse_loop].
      rewrite !lookup_insert_ne by discriminate.
      rewrite !lookup_insert_eq. cbn [fmap option_fmap option_map truthy
        compat_value default from_option].
      split; [discriminate |]. split; [discriminate |].
      split; [discriminate |]. split; [discriminate |].
      split; [discriminate |]. split; [discriminate |].
      intros r [= <-]. cbn.
      split; [exact H1 |]. split; [exact C1 |]. split; [exact C2 |].
      split; [exact D1 |]. split; [exact D2 |]. split; [exact D3 |].
      split; [reflexivity |]. split; [reflexivity |].
      do 5 eexists. split; [exact Ech |]. split; [reflexivity |]. auto.
Qed.

End ApiMore.
